(** * SmartTalk: the response-normalisation pipeline of
      [backend/test_generate.py]

    The script asks a language model for a coding problem and turns the
    reply into JSON in five steps (lines 68-95):

    - [text = response.text.strip()]
    - when the text starts with a fence, two [re.sub] calls remove the
      opening and the closing fence;
    - [re.search] with a brace-free object pattern; on a match the text
      becomes the matched substring, otherwise it is kept;
    - for every name in [latex_commands], [str.replace] doubles the
      backslash in front of it;
    - [json.loads]; any exception is caught by the surrounding
      [try/except Exception] and printed.

    A Python [str] is a sequence of code points; it is modelled as a list
    of [N] (the model puts no upper bound on a code point).  The Python
    library calls the script makes ([str.strip], [str.startswith],
    [str.replace], [re.search], [re.sub], [json.loads]) are modelled in the
    modules [Py], [Re] and [Json] below.  The model starts from
    [response.text] as a [str]; the request to the model is left out.
    [normalize] is the value the [try] block computes; [script] is the
    block with what it prints, where a [print] raises on a text the
    standard output cannot encode.  [json.dumps] of line 97 is modelled in
    [Dump], and the start of the launcher [run.py] in [Run]. *)

From Stdlib Require Import String Ascii.
From Stdlib Require Import List NArith ZArith Bool Arith Lia.
Import ListNotations.

Set Warnings "-register-all".

Definition char := N.
Definition str := list char.

(** Code points of an ASCII literal. *)
Definition cp (s : string) : str :=
  map N_of_ascii (list_ascii_of_string s).

Definition BACKSLASH : char := 92%N.
Definition DQUOTE : char := 34%N.
Definition NEWLINE : char := 10%N.
Definition LBRACE : char := 123%N.
Definition RBRACE : char := 125%N.
Definition BACKTICK : char := 96%N.

(** [quoted s] is [s] between two double quotes. *)
Definition quoted (s : str) : str := DQUOTE :: s ++ [DQUOTE].

Fixpoint str_eqb (a b : str) : bool :=
  match a, b with
  | [], [] => true
  | x :: a', y :: b' => N.eqb x y && str_eqb a' b'
  | _, _ => false
  end.

(** ** Python [str] methods *)
Module Py.

(** [Py_UNICODE_ISSPACE]: the code points [str.strip()] removes and the
    ones [\s] matches in a [str] pattern. *)
Definition isspace (c : char) : bool :=
  ((9 <=? c) && (c <=? 13) || (28 <=? c) && (c <=? 32)
   || (c =? 133) || (c =? 160) || (c =? 5760)
   || (8192 <=? c) && (c <=? 8202)
   || (c =? 8232) || (c =? 8233) || (c =? 8239) || (c =? 8287)
   || (c =? 12288))%N.

Fixpoint lstrip (s : str) : str :=
  match s with
  | c :: s' => if isspace c then lstrip s' else s
  | [] => []
  end.

Definition rstrip (s : str) : str := rev (lstrip (rev s)).

(** [s.strip()] *)
Definition strip (s : str) : str := rstrip (lstrip s).

(** [strip_prefix p s] is [Some r] when [s = p ++ r]. *)
Fixpoint strip_prefix (p s : str) : option str :=
  match p, s with
  | [], _ => Some s
  | a :: p', b :: s' => if N.eqb a b then strip_prefix p' s' else None
  | _ :: _, [] => None
  end.

(** [s.startswith(p)] *)
Definition startswith (s p : str) : bool :=
  match strip_prefix p s with Some _ => true | None => false end.

(** The scan of [s.replace(old, new)] for a non-empty [old]: leftmost
    occurrence first, the search resumes after the replaced occurrence.
    Every round consumes a character, so [length s] rounds suffice. *)
Fixpoint replace_loop (fuel : nat) (old new s : str) : str :=
  match fuel with
  | O => s
  | S fuel' =>
      match s with
      | [] => []
      | c :: s' =>
          match strip_prefix old s with
          | Some rest => new ++ replace_loop fuel' old new rest
          | None => c :: replace_loop fuel' old new s'
          end
      end
  end.

(** [s.replace(old, new)]; an empty [old] matches between all
    characters. *)
Definition replace (old new s : str) : str :=
  match old with
  | [] => new ++ flat_map (fun c => c :: new) s
  | _ :: _ => replace_loop (length s) old new s
  end.

End Py.

(** ** The fragment of Python's [re] the script uses

    Literals, a greedy optional literal [(?:l)?], a greedy starred
    character class, [^] and [$] (no [MULTILINE]).  Matching is by
    backtracking, in the order of the [re] module: a greedy construct
    tries its longest choice first. *)
Module Re.

Inductive item :=
| Bol                         (* ^ *)
| Eol                         (* $ *)
| Lit (l : str)
| Opt (l : str)               (* (?:l)? *)
| Star (p : char -> bool).    (* [class]* *)

Definition regex := list item.

(** [$] without [MULTILINE]: at the end, or before a final newline. *)
Definition at_end (s : str) : bool :=
  match s with
  | [] => true
  | [c] => N.eqb c NEWLINE
  | _ => false
  end.

(** [class*] followed by the continuation [k]: longest run first. *)
Fixpoint star_greedy (p : char -> bool) (k : nat -> str -> option nat)
         (pos : nat) (s : str) : option nat :=
  match s with
  | c :: s' =>
      if p c then
        match star_greedy p k (S pos) s' with
        | Some e => Some e
        | None => k pos s
        end
      else k pos s
  | [] => k pos s
  end.

(** [match_here re pos s]: [s] is the text from offset [pos] on; the
    result is the end offset of the match of [re] anchored at [pos]. *)
Fixpoint match_here (re : regex) (pos : nat) (s : str) : option nat :=
  match re with
  | [] => Some pos
  | Bol :: re' => if Nat.eqb pos 0 then match_here re' pos s else None
  | Eol :: re' => if at_end s then match_here re' pos s else None
  | Lit l :: re' =>
      match Py.strip_prefix l s with
      | Some s' => match_here re' (pos + length l) s'
      | None => None
      end
  | Opt l :: re' =>
      match
        match Py.strip_prefix l s with
        | Some s' => match_here re' (pos + length l) s'
        | None => None
        end
      with
      | Some e => Some e
      | None => match_here re' pos s
      end
  | Star p :: re' => star_greedy p (match_here re') pos s
  end.

(** [re.search]: the leftmost offset with a match, as (start, end). *)
Fixpoint search_from (re : regex) (pos : nat) (s : str)
  : option (nat * nat) :=
  match match_here re pos s with
  | Some e => Some (pos, e)
  | None =>
      match s with
      | [] => None
      | _ :: s' => search_from re (S pos) s'
      end
  end.

Definition search (re : regex) (s : str) : option (nat * nat) :=
  search_from re 0 s.

(** [m.group(0)] *)
Definition group0 (m : nat * nat) (s : str) : str :=
  firstn (snd m - fst m) (skipn (fst m) s).

(** [re.sub]: every non-overlapping match, left to right, becomes
    [repl].  [skip] counts the characters of the current match still to
    be dropped.  After an empty match the scan moves one character on
    (the two patterns of the script never match the empty string). *)
Fixpoint sub_from (re : regex) (repl : str) (skip pos : nat) (s : str)
  : str :=
  match skip with
  | S k =>
      match s with
      | [] => []
      | _ :: s' => sub_from re repl k (S pos) s'
      end
  | O =>
      match match_here re pos s with
      | Some e =>
          repl ++
          match s with
          | [] => []
          | c :: s' =>
              if Nat.eqb e pos then c :: sub_from re repl 0 (S pos) s'
              else sub_from re repl (e - pos - 1) (S pos) s'
          end
      | None =>
          match s with
          | [] => []
          | c :: s' => c :: sub_from re repl 0 (S pos) s'
          end
      end
  end.

Definition sub (re : regex) (repl s : str) : str :=
  sub_from re repl 0 0 s.

End Re.

(** ** The stages of the script *)

Definition FENCE : str := cp "```".

(** [r'^```(?:json)?\s*'] *)
Definition fence_open : Re.regex :=
  [Re.Bol; Re.Lit FENCE; Re.Opt (cp "json"); Re.Star Py.isspace].

(** [r'\s*```$'] *)
Definition fence_close : Re.regex :=
  [Re.Star Py.isspace; Re.Lit FENCE; Re.Eol].

(** Lines 74-76. *)
Definition strip_fences (text : str) : str :=
  if Py.startswith text FENCE
  then Re.sub fence_close [] (Re.sub fence_open [] text)
  else text.

(** [[^{}]] *)
Definition not_brace (c : char) : bool :=
  negb (N.eqb c LBRACE || N.eqb c RBRACE).

(** [r'\{[^{}]*"problem"[^{}]*"func_signature"[^{}]*\}'] *)
Definition json_pattern : Re.regex :=
  [Re.Lit [LBRACE]; Re.Star not_brace; Re.Lit (quoted (cp "problem"));
   Re.Star not_brace; Re.Lit (quoted (cp "func_signature"));
   Re.Star not_brace; Re.Lit [RBRACE]].

(** Lines 78-80. *)
Definition extract (text : str) : str :=
  match Re.search json_pattern text with
  | Some m => Re.group0 m text
  | None => text
  end.

(** Line 87. *)
Definition latex_commands : list str :=
  map cp
    ["le"; "ge"; "text"; "sum"; "prod"; "int"; "frac"; "sqrt"; "times";
     "div"; "pm"; "mp"; "leq"; "geq"; "ne"; "approx"; "equiv"; "cdot";
     "alpha"; "beta"; "gamma"; "delta"; "theta"; "lambda"; "mu"; "sigma";
     "pi"; "omega"]%string.

(** One round of the loop of lines 88-89:
    [text.replace(f'\\{cmd}', f'\\\\{cmd}')]. *)
Definition escape_cmd (text cmd : str) : str :=
  Py.replace (BACKSLASH :: cmd) (BACKSLASH :: BACKSLASH :: cmd) text.

Definition escape_with (cmds : list str) (text : str) : str :=
  fold_left escape_cmd cmds text.

(** Lines 87-89. *)
Definition escape (text : str) : str := escape_with latex_commands text.

(** ** [json.loads]

    The decoder of CPython's [json] module with its default arguments
    (strict strings, [NaN], [Infinity] and [-Infinity] accepted), as a
    scanner over the characters followed by a pushdown automaton over the
    tokens.  [loads] is [None] where [json.loads] raises
    [JSONDecodeError]; the message and the offset of the error are not
    modelled.  An integer literal is decoded to [Z], a literal with a
    fraction or an exponent is kept as written.  The interpreter's limits
    on nesting depth and on the digits of an integer are not modelled. *)
Module Json.

Inductive value :=
| JNull
| JBool (b : bool)
| JInt (z : Z)
| JFloat (literal : str)
| JNaN
| JInfinity
| JNegInfinity
| JString (s : str)
| JArray (items : list value)
| JObject (members : list (str * value)).

(** A [dict] in insertion order; assigning to a key that is present
    keeps its place. *)
Definition dict := list (str * value).

Fixpoint dict_set (d : dict) (k : str) (v : value) : dict :=
  match d with
  | [] => [(k, v)]
  | (k', v') :: d' =>
      if str_eqb k k' then (k', v) :: d' else (k', v') :: dict_set d' k v
  end.

Fixpoint dict_get (d : dict) (k : str) : option value :=
  match d with
  | [] => None
  | (k', v') :: d' => if str_eqb k k' then Some v' else dict_get d' k
  end.

Inductive token :=
| TLBrace | TRBrace | TLBracket | TRBracket | TColon | TComma
| TAtom (v : value).

(** Where the scanner stands inside a number: an optional minus sign,
    then 0 or a run of digits without a leading 0, then optionally a dot
    with digits, then optionally e or E with an optional sign and
    digits. *)
Inductive nphase :=
| NSign | NZero | NInt | NDot | NFrac | NExp | NExpSign | NExpDigits.

Inductive lmode :=
| MReady
| MStr (acc : str)                    (* inside a string; [acc] reversed *)
| MEsc (acc : str)                    (* after a backslash *)
| MHex (acc : str) (pending : option char) (k : nat) (u : N)
                                      (* [k] hex digits of \u to read *)
| MHigh (acc : str) (hi : char)       (* after a high surrogate escape *)
| MHighEsc (acc : str) (hi : char)    (* ... and a backslash *)
| MLit (expect : str) (v : value)     (* rest of true, false, null, ... *)
| MNum (ph : nphase) (lexeme : str).  (* [lexeme] reversed *)

Definition is_ws (c : char) : bool :=
  ((c =? 32) || (c =? 9) || (c =? 10) || (c =? 13))%N.

Definition is_digit (c : char) : bool := ((48 <=? c) && (c <=? 57))%N.

Definition hex_val (c : char) : option N :=
  (if (48 <=? c) && (c <=? 57) then Some (c - 48)
   else if (97 <=? c) && (c <=? 102) then Some (c - 87)
   else if (65 <=? c) && (c <=? 70) then Some (c - 55)
   else None)%N.

Definition is_high (u : N) : bool := ((55296 <=? u) && (u <=? 56319))%N.
Definition is_low (u : N) : bool := ((56320 <=? u) && (u <=? 57343))%N.

Definition join_surrogates (hi lo : N) : N :=
  (65536 + ((hi - 55296) * 1024 + (lo - 56320)))%N.

Definition digits_value (ds : str) : Z :=
  fold_left (fun acc c => (10 * acc + (Z.of_N c - 48))%Z) ds 0%Z.

Definition int_value (lexeme : str) : Z :=
  match lexeme with
  | 45%N :: ds => (- digits_value ds)%Z
  | _ => digits_value lexeme
  end.

Definition number_done (ph : nphase) : bool :=
  match ph with
  | NZero | NInt | NFrac | NExpDigits => true
  | _ => false
  end.

Definition number_value (ph : nphase) (lexeme : str) : value :=
  match ph with
  | NZero | NInt => JInt (int_value (rev lexeme))
  | _ => JFloat (rev lexeme)
  end.

(** Between tokens. *)
Definition ready_step (toks : list token) (c : char)
  : option (lmode * list token) :=
  (if is_ws c then Some (MReady, toks)
   else if c =? 123 then Some (MReady, TLBrace :: toks)
   else if c =? 125 then Some (MReady, TRBrace :: toks)
   else if c =? 91 then Some (MReady, TLBracket :: toks)
   else if c =? 93 then Some (MReady, TRBracket :: toks)
   else if c =? 58 then Some (MReady, TColon :: toks)
   else if c =? 44 then Some (MReady, TComma :: toks)
   else if c =? 34 then Some (MStr [], toks)
   else if c =? 45 then Some (MNum NSign [c], toks)
   else if c =? 48 then Some (MNum NZero [c], toks)
   else if is_digit c then Some (MNum NInt [c], toks)
   else if c =? 116 then Some (MLit (cp "rue") (JBool true), toks)
   else if c =? 102 then Some (MLit (cp "alse") (JBool false), toks)
   else if c =? 110 then Some (MLit (cp "ull") JNull, toks)
   else if c =? 78 then Some (MLit (cp "aN") JNaN, toks)
   else if c =? 73 then Some (MLit (cp "nfinity") JInfinity, toks)
   else None)%N.

(** Inside a string (strict: no control characters). *)
Definition str_step (acc : str) (toks : list token) (c : char)
  : option (lmode * list token) :=
  (if c =? 34 then Some (MReady, TAtom (JString (rev acc)) :: toks)
   else if c =? 92 then Some (MEsc acc, toks)
   else if c <? 32 then None
   else Some (MStr (c :: acc), toks))%N.

(** The character after a backslash. *)
Definition esc_step (acc : str) (toks : list token) (c : char)
  : option (lmode * list token) :=
  (if (c =? 34) || (c =? 92) || (c =? 47) then Some (MStr (c :: acc), toks)
   else if c =? 98 then Some (MStr (8 :: acc), toks)
   else if c =? 102 then Some (MStr (12 :: acc), toks)
   else if c =? 110 then Some (MStr (10 :: acc), toks)
   else if c =? 114 then Some (MStr (13 :: acc), toks)
   else if c =? 116 then Some (MStr (9 :: acc), toks)
   else if c =? 117 then Some (MHex acc None 4 0, toks)
   else None)%N.

(** A [\uXXXX] escape with value [u] is complete. *)
Definition hex_done (acc : str) (pending : option char) (u : N) : lmode :=
  match pending with
  | Some hi =>
      if is_low u then MStr (join_surrogates hi u :: acc)
      else if is_high u then MHigh (hi :: acc) u
      else MStr (u :: hi :: acc)
  | None => if is_high u then MHigh acc u else MStr (u :: acc)
  end.

Definition num_step (ph : nphase) (lexeme : str) (toks : list token)
           (c : char) : option (lmode * list token) :=
  let finish := ready_step (TAtom (number_value ph lexeme) :: toks) c in
  let is_e := ((c =? 101) || (c =? 69))%N in
  match ph with
  | NSign =>
      if N.eqb c 48 then Some (MNum NZero (c :: lexeme), toks)
      else if is_digit c then Some (MNum NInt (c :: lexeme), toks)
      else if N.eqb c 73 then Some (MLit (cp "nfinity") JNegInfinity, toks)
      else None
  | NZero =>
      if N.eqb c 46 then Some (MNum NDot (c :: lexeme), toks)
      else if is_e then Some (MNum NExp (c :: lexeme), toks)
      else finish
  | NInt =>
      if is_digit c then Some (MNum NInt (c :: lexeme), toks)
      else if N.eqb c 46 then Some (MNum NDot (c :: lexeme), toks)
      else if is_e then Some (MNum NExp (c :: lexeme), toks)
      else finish
  | NDot =>
      if is_digit c then Some (MNum NFrac (c :: lexeme), toks) else None
  | NFrac =>
      if is_digit c then Some (MNum NFrac (c :: lexeme), toks)
      else if is_e then Some (MNum NExp (c :: lexeme), toks)
      else finish
  | NExp =>
      if (N.eqb c 43 || N.eqb c 45) then
        Some (MNum NExpSign (c :: lexeme), toks)
      else if is_digit c then Some (MNum NExpDigits (c :: lexeme), toks)
      else None
  | NExpSign =>
      if is_digit c then Some (MNum NExpDigits (c :: lexeme), toks)
      else None
  | NExpDigits =>
      if is_digit c then Some (MNum NExpDigits (c :: lexeme), toks)
      else finish
  end.

Definition lex_step (m : lmode) (toks : list token) (c : char)
  : option (lmode * list token) :=
  match m with
  | MReady => ready_step toks c
  | MStr acc => str_step acc toks c
  | MEsc acc => esc_step acc toks c
  | MHex acc pending k u =>
      match hex_val c with
      | Some h =>
          match k with
          | S (S k') => Some (MHex acc pending (S k') (u * 16 + h), toks)
          | _ => Some (hex_done acc pending (u * 16 + h), toks)
          end
      | None => None
      end
  | MHigh acc hi =>
      if N.eqb c 92 then Some (MHighEsc acc hi, toks)
      else str_step (hi :: acc) toks c
  | MHighEsc acc hi =>
      if N.eqb c 117 then Some (MHex acc (Some hi) 4 0, toks)
      else esc_step (hi :: acc) toks c
  | MLit expect v =>
      match expect with
      | e :: rest =>
          if N.eqb c e then
            match rest with
            | [] => Some (MReady, TAtom v :: toks)
            | _ :: _ => Some (MLit rest v, toks)
            end
          else None
      | [] => None
      end
  | MNum ph lexeme => num_step ph lexeme toks c
  end.

(** The end of the text. *)
Definition lex_finish (m : lmode) (toks : list token)
  : option (list token) :=
  match m with
  | MReady => Some (rev toks)
  | MNum ph lexeme =>
      if number_done ph
      then Some (rev (TAtom (number_value ph lexeme) :: toks))
      else None
  | _ => None
  end.

Fixpoint lex_from (m : lmode) (toks : list token) (s : str)
  : option (list token) :=
  match s with
  | [] => lex_finish m toks
  | c :: s' =>
      match lex_step m toks c with
      | Some (m', toks') => lex_from m' toks' s'
      | None => None
      end
  end.

Definition lex (s : str) : option (list token) := lex_from MReady [] s.

(** The containers under construction. *)
Inductive frame :=
| FArray (items : list value)             (* reversed *)
| FObject (members : dict)
| FMember (members : dict) (key : str).   (* the value of [key] is due *)

Inductive pmode :=
| PValue          (* a value is due *)
| PArrayStart     (* after [ *)
| PObjectStart    (* after { *)
| PKey            (* after a comma inside an object *)
| PColon          (* after a key *)
| PAfter          (* after a value inside a container *)
| PDone (v : value).

Definition pstate := (pmode * list frame)%type.

Definition push_value (stack : list frame) (v : value) : option pstate :=
  match stack with
  | [] => Some (PDone v, [])
  | FArray items :: st => Some (PAfter, FArray (v :: items) :: st)
  | FMember ms k :: st => Some (PAfter, FObject (dict_set ms k v) :: st)
  | FObject _ :: _ => None
  end.

Definition value_step (stack : list frame) (t : token) : option pstate :=
  match t with
  | TAtom v => push_value stack v
  | TLBracket => Some (PArrayStart, FArray [] :: stack)
  | TLBrace => Some (PObjectStart, FObject [] :: stack)
  | _ => None
  end.

Definition key_step (stack : list frame) (t : token) : option pstate :=
  match t, stack with
  | TAtom (JString k), FObject ms :: st => Some (PColon, FMember ms k :: st)
  | _, _ => None
  end.

Definition close_array (stack : list frame) : option pstate :=
  match stack with
  | FArray items :: st => push_value st (JArray (rev items))
  | _ => None
  end.

Definition close_object (stack : list frame) : option pstate :=
  match stack with
  | FObject ms :: st => push_value st (JObject ms)
  | _ => None
  end.

Definition parse_step (st : pstate) (t : token) : option pstate :=
  let (m, stack) := st in
  match m with
  | PValue => value_step stack t
  | PArrayStart =>
      match t with
      | TRBracket => close_array stack
      | _ => value_step stack t
      end
  | PObjectStart =>
      match t with
      | TRBrace => close_object stack
      | _ => key_step stack t
      end
  | PKey => key_step stack t
  | PColon =>
      match t with
      | TColon => Some (PValue, stack)
      | _ => None
      end
  | PAfter =>
      match stack, t with
      | FArray _ :: _, TComma => Some (PValue, stack)
      | FArray _ :: _, TRBracket => close_array stack
      | FObject _ :: _, TComma => Some (PKey, stack)
      | FObject _ :: _, TRBrace => close_object stack
      | _, _ => None
      end
  | PDone _ => None
  end.

Fixpoint parse_from (st : pstate) (toks : list token) : option value :=
  match toks with
  | [] => match fst st with PDone v => Some v | _ => None end
  | t :: toks' =>
      match parse_step st t with
      | Some st' => parse_from st' toks'
      | None => None
      end
  end.

Definition parse (toks : list token) : option value :=
  parse_from (PValue, []) toks.

(** [json.loads(s)] *)
Definition loads (s : str) : option value :=
  match lex s with
  | Some toks => parse toks
  | None => None
  end.

End Json.

(** ** The script, lines 68-100 *)

(** What the five steps compute: the decoded [data] (line 95), or the
    [JSONDecodeError] of [json.loads], which the [except Exception] of
    line 99 catches and prints.  The [print] calls between the steps are
    left aside here; [script] below has them. *)
Inductive outcome :=
| Parsed (data : Json.value)
| JSONDecodeError.

(** The text handed to [json.loads]. *)
Definition candidate (raw : str) : str :=
  escape (extract (strip_fences (Py.strip raw))).

Definition normalize (raw : str) : outcome :=
  match Json.loads (candidate raw) with
  | Some data => Parsed data
  | None => JSONDecodeError
  end.

(** ** Vocabulary of the properties *)

(** [occursb pat s]: [pat] is a substring of [s] ([pat in s]). *)
Fixpoint occursb (pat s : str) : bool :=
  Py.startswith s pat ||
  match s with
  | [] => false
  | _ :: s' => occursb pat s'
  end.

(** Some backslash of the text is directly followed by a name of
    [latex_commands]. *)
Definition has_command_in (cmds : list str) (text : str) : bool :=
  existsb (fun cmd => occursb (BACKSLASH :: cmd) text) cmds.

Definition has_command (text : str) : bool :=
  has_command_in latex_commands text.

(** The text begins with a name of [latex_commands]. *)
Definition starts_with_command (text : str) : bool :=
  existsb (fun cmd => Py.startswith text cmd) latex_commands.

(** What one round of the loop does when [cmd] holds no backslash: a
    backslash is put in front of every backslash that [cmd] follows. *)
Fixpoint insert_bs (cmd s : str) : str :=
  match s with
  | [] => []
  | c :: s' =>
      if N.eqb c BACKSLASH && Py.startswith s' cmd
      then BACKSLASH :: BACKSLASH :: insert_bs cmd s'
      else c :: insert_bs cmd s'
  end.

Definition no_backslash (s : str) : bool :=
  forallb (fun c => negb (N.eqb c BACKSLASH)) s.

Definition brace_free (s : str) : bool := forallb not_brace s.

(** The keys of the prompt's JSON object, between their quotes. *)
Definition KEY_PROBLEM : str := quoted (cp "problem").
Definition KEY_SIGNATURE : str := quoted (cp "func_signature").
Definition KEY_CLASSES : str := quoted (cp "class_definitions").

(** A pair of braces around the two quoted keys, in the order of the
    pattern, with the texts [p], [q] and [r] around them. *)
Definition keyed_object (p q r : str) : str :=
  LBRACE :: (p ++ KEY_PROBLEM ++ q ++ KEY_SIGNATURE ++ r) ++ [RBRACE].

(** A substring of the text has the shape the pattern of line 78 asks
    for. *)
Definition has_keyed_object (text : str) : Prop :=
  exists pre p q r post,
    brace_free p = true /\ brace_free q = true /\ brace_free r = true /\
    text = pre ++ keyed_object p q r ++ post.


(** The response between an opening fence with the tag [json] and a
    closing fence on a line of its own. *)
Definition fenced (r : str) : str :=
  FENCE ++ cp "json" ++ [NEWLINE] ++ r ++ [NEWLINE] ++ FENCE.

(** A character that stands for itself inside a JSON string and is no
    brace. *)
Definition plain (c : char) : bool :=
  negb (N.ltb c 32) && negb (N.eqb c DQUOTE) && negb (N.eqb c BACKSLASH)
  && not_brace c.

(** The text of an object whose members are strings: every key and
    every value between quotes, a colon and a blank after the key, a comma
    and a blank between members. *)
Definition member_text (kv : str * str) : str :=
  quoted (fst kv) ++ cp ": " ++ quoted (snd kv).

Fixpoint members_text (kvs : list (str * str)) : str :=
  match kvs with
  | [] => []
  | [kv] => member_text kv
  | kv :: rest => member_text kv ++ cp ", " ++ members_text rest
  end.

Definition object_text (kvs : list (str * str)) : str :=
  LBRACE :: members_text kvs ++ [RBRACE].

(** The value such a text stands for. *)
Definition record (kvs : list (str * str)) : Json.value :=
  Json.JObject (map (fun kv => (fst kv, Json.JString (snd kv))) kvs).

(** The object of the spec's brace example. *)
Definition brace_example : str :=
  object_text [(cp "problem", cp "has a { brace");
               (cp "func_signature", cp "f()");
               (cp "class_definitions", [])].

(** An object whose last value holds a closing brace. *)
Definition closing_brace_example : str :=
  object_text [(cp "problem", cp "p");
               (cp "func_signature", cp "f()");
               (cp "class_definitions", cp "a } b")].

(** The input of the spec's end-to-end example. *)
Definition end_to_end_problem : str :=
  cp "Find pairs summing to target, where $2 \le n \le 10^4$".

Definition end_to_end_input : str :=
  cp "Here is the problem:" ++ [NEWLINE] ++
  fenced (object_text
            [(cp "problem", end_to_end_problem);
             (cp "func_signature", cp "def f(nums: list) -> list:");
             (cp "class_definitions", [])]).

(** Every name of the list is free of backslashes. *)
Definition backslash_free (cmds : list str) : Prop :=
  Forall (fun c => no_backslash c = true) cmds.

(** How many names of [cmds] the text begins with. *)
Definition count_commands_in (cmds : list str) (y : str) : nat :=
  length (filter (fun cmd => Py.startswith y cmd) cmds).

Definition count_commands (y : str) : nat :=
  count_commands_in latex_commands y.

(** Names that are not empty and hold no backslash. *)
Definition proper_names (cmds : list str) : Prop :=
  Forall (fun c => no_backslash c = true /\ c <> []) cmds.

(** The text does not begin, or end, with white space. *)
Definition starts_nonspace (s : str) : bool :=
  match s with
  | [] => true
  | c :: _ => negb (Py.isspace c)
  end.

Definition ends_nonspace (s : str) : bool := starts_nonspace (rev s).





(** The members [problem] and [func_signature], without
    [class_definitions]. *)
Definition two_keys (p f : str) : list (str * str) :=
  [(cp "problem", p); (cp "func_signature", f)].

(** The scanner after the characters of [pre]. *)
Fixpoint lex_run (m : Json.lmode) (toks : list Json.token) (pre : str)
  : option (Json.lmode * list Json.token) :=
  match pre with
  | [] => Some (m, toks)
  | c :: pre' =>
      match Json.lex_step m toks c with
      | Some (m', toks') => lex_run m' toks' pre'
      | None => None
      end
  end.


(** An object with the two keys in the other order, inside prose. *)
Definition signature_first_example : str :=
  cp "see " ++
  object_text [(cp "func_signature", cp "f()"); (cp "problem", cp "p")] ++
  cp " ok".

(** [k1] occurs in [s] and [k2] occurs behind that occurrence. *)
Fixpoint keys_in_order (k1 k2 s : str) : bool :=
  match Py.strip_prefix k1 s with
  | Some rest => occursb k2 rest
  | None => false
  end ||
  match s with
  | [] => false
  | _ :: s' => keys_in_order k1 k2 s'
  end.

(** An object whose [problem] value holds the LaTeX command [cmd]. *)
Definition command_example (cmd : str) : str :=
  object_text [(cp "problem", cp "$n " ++ BACKSLASH :: cmd ++ cp " 5$");
               (cp "func_signature", cp "f");
               (cp "class_definitions", [])].

(** ** [json.dumps(data, indent=2)], line 97

    The encoder of CPython's [json] module as the script calls it:
    [ensure_ascii] and [allow_nan] at their defaults, an indent of two
    blanks, hence [','] between items and [': '] behind a key.  A [float]
    is printed by its [repr], which is not modelled: [dumps] is [None] on
    a value that holds one. *)
Module Dump.

(** One digit of [format(n, '04x')]. *)
Definition hex_digit (d : N) : char :=
  (if d <? 10 then 48 + d else 87 + d)%N.

Definition hex4 (n : N) : str :=
  [hex_digit ((n / 4096) mod 16); hex_digit ((n / 256) mod 16);
   hex_digit ((n / 16) mod 16); hex_digit (n mod 16)]%N.

Definition unicode_escape (n : N) : str := BACKSLASH :: 117%N :: hex4 n.

(** [py_encode_basestring_ascii] on one character: the short escapes of
    [ESCAPE_DCT], the printable ASCII characters as they are, and a
    [\uXXXX] escape (a surrogate pair above the basic plane) for the
    rest. *)
Definition encode_char (c : char) : str :=
  (if c =? 34 then [92; 34]
   else if c =? 92 then [92; 92]
   else if c =? 10 then [92; 110]
   else if c =? 13 then [92; 114]
   else if c =? 9 then [92; 116]
   else if c =? 12 then [92; 102]
   else if c =? 8 then [92; 98]
   else if (32 <=? c) && (c <=? 126) then [c]
   else if c <? 65536 then unicode_escape c
   else
     let n := c - 65536 in
     unicode_escape (N.lor 55296 (N.land (N.shiftr n 10) 1023)) ++
     unicode_escape (N.lor 56320 (N.land n 1023)))%N.

Definition encode_string (s : str) : str :=
  quoted (flat_map encode_char s).

Fixpoint uint_text (u : Decimal.uint) : str :=
  match u with
  | Decimal.Nil => []
  | Decimal.D0 u' => 48%N :: uint_text u'
  | Decimal.D1 u' => 49%N :: uint_text u'
  | Decimal.D2 u' => 50%N :: uint_text u'
  | Decimal.D3 u' => 51%N :: uint_text u'
  | Decimal.D4 u' => 52%N :: uint_text u'
  | Decimal.D5 u' => 53%N :: uint_text u'
  | Decimal.D6 u' => 54%N :: uint_text u'
  | Decimal.D7 u' => 55%N :: uint_text u'
  | Decimal.D8 u' => 56%N :: uint_text u'
  | Decimal.D9 u' => 57%N :: uint_text u'
  end.

(** [int.__repr__] *)
Definition int_text (z : Z) : str :=
  match Z.to_int z with
  | Decimal.Pos u => uint_text u
  | Decimal.Neg u => 45%N :: uint_text u
  end.

(** [sep.join(chunks)] *)
Fixpoint join (sep : str) (chunks : list str) : str :=
  match chunks with
  | [] => []
  | [x] => x
  | x :: rest => x ++ sep ++ join sep rest
  end.

(** ['\n' + ' ' * (2 * level)] *)
Definition newline_indent (level : nat) : str :=
  NEWLINE :: repeat 32%N (2 * level).

(** A container with its chunks, one to a line. *)
Definition block (open close : char) (level : nat) (chunks : list str)
  : str :=
  open :: newline_indent (S level) ++
  join (44%N :: newline_indent (S level)) chunks ++
  newline_indent level ++ [close].

Fixpoint dumps_at (level : nat) (v : Json.value) : option str :=
  match v with
  | Json.JNull => Some (cp "null")
  | Json.JBool true => Some (cp "true")
  | Json.JBool false => Some (cp "false")
  | Json.JInt z => Some (int_text z)
  | Json.JFloat _ => None
  | Json.JNaN => Some (cp "NaN")
  | Json.JInfinity => Some (cp "Infinity")
  | Json.JNegInfinity => Some (cp "-Infinity")
  | Json.JString s => Some (encode_string s)
  | Json.JArray [] => Some (cp "[]")
  | Json.JArray items =>
      let fix chunks (l : list Json.value) : option (list str) :=
        match l with
        | [] => Some []
        | x :: l' =>
            match dumps_at (S level) x, chunks l' with
            | Some s, Some r => Some (s :: r)
            | _, _ => None
            end
        end in
      option_map (block 91%N 93%N level) (chunks items)
  | Json.JObject [] => Some (cp "{}")
  | Json.JObject members =>
      let fix chunks (l : list (str * Json.value)) : option (list str) :=
        match l with
        | [] => Some []
        | (k, x) :: l' =>
            match dumps_at (S level) x, chunks l' with
            | Some s, Some r =>
                Some ((encode_string k ++ cp ": " ++ s) :: r)
            | _, _ => None
            end
        end in
      option_map (block LBRACE RBRACE level) (chunks members)
  end.

(** [json.dumps(data, indent=2)] *)
Definition dumps (v : Json.value) : option str := dumps_at 0 v.

End Dump.

(** ** The launcher, [run.py]

    The start of [main()], lines 41-55: the banner, the check for
    [backend/.env] and the prompt for the key.  The surroundings are
    arguments: [env_exists] is what [env_file.exists()] returns; [typed]
    is the line [input] reads ([None] when the input is at its end, where
    [input] raises [EOFError]); [can_open] tells whether [backend/.env]
    can be opened for writing (it cannot when [backend/] is missing or
    write-protected); [file_enc c] tells whether the encoding of the file
    takes the character [c].  No exception is caught in these lines: one
    that is raised ends the launcher.  The messages are ASCII and taken
    to be printed; failures of the device behind an open file or behind
    the standard output are not modelled. *)
Module Run.

(** [class Colors], lines 15-19. *)
Definition GREEN : str := 27%N :: cp "[92m".
Definition YELLOW : str := 27%N :: cp "[93m".
Definition RED : str := 27%N :: cp "[91m".
Definition END : str := 27%N :: cp "[0m".

(** [print_color(msg, color)], lines 21-22: the line it prints. *)
Definition print_color (msg color : str) : str := color ++ msg ++ END.

Inductive status :=
| Continue               (* on to [check_requirements()] *)
| SystemExit (code : Z)
| EOFError               (* [input] at the end of the input *)
| OSError                (* [write_text] could not open the file *)
| UnicodeEncodeError.    (* [write_text] could not encode the text *)

Record effects := {
  stdout : list str;         (* what is printed, the prompt included *)
  written : option str;      (* the text of [backend/.env] when it has
                                been opened for writing, [None] when it
                                has been left alone *)
  result : status
}.

(** [env_file.write_text(text)]: the file is opened for writing, which
    creates or empties it, then the encoded text is written.  The result
    is the text the file holds afterwards, if it was opened, and the
    exception raised, if any. *)
Definition write_text (can_open : bool) (file_enc : char -> bool)
           (text : str) : option str * option status :=
  if can_open then
    if forallb file_enc text then (Some text, None)
    else (Some [], Some UnicodeEncodeError)
  else (None, Some OSError).

Definition banner : list str :=
  [print_color (cp "Starting SmartTalk") GREEN; repeat 61%N 40].

Definition ask : list str :=
  [print_color (cp "No .env file found in backend/") YELLOW;
   cp "Create backend/.env with: GOOGLE_API_KEY=your-key-here";
   cp "Enter your GOOGLE_API_KEY (or press Enter to skip): "].

Definition main_env (env_exists can_open : bool) (file_enc : char -> bool)
           (typed : option str) : effects :=
  if env_exists then
    {| stdout := banner; written := None; result := Continue |}
  else
    match typed with
    | None => {| stdout := banner ++ ask; written := None;
                 result := EOFError |}
    | Some line =>
        let api_key := Py.strip line in
        match api_key with
        | _ :: _ =>
            match write_text can_open file_enc
                    (cp "GOOGLE_API_KEY=" ++ api_key ++ [NEWLINE]) with
            | (file, None) =>
                {| stdout := banner ++ ask ++
                             [print_color (cp "Created .env file") GREEN];
                   written := file; result := Continue |}
            | (file, Some e) =>
                {| stdout := banner ++ ask; written := file; result := e |}
            end
        | [] => {| stdout := banner ++ ask; written := None;
                   result := SystemExit 1 |}
        end
    end.

End Run.

(** ** Further vocabulary *)

(** The text behind an opening fence without the tag [json], if it is
    there: what [(?:json)?] takes away. *)
Definition drop_json_tag (s : str) : str :=
  match Py.strip_prefix (cp "json") s with
  | Some s' => s'
  | None => s
  end.

(** The characters the two fence patterns can match. *)
Definition fence_char (c : char) : bool :=
  Py.isspace c || N.eqb c BACKTICK
  || N.eqb c 106 || N.eqb c 115 || N.eqb c 111 || N.eqb c 110.

Definition not_backslash (c : char) : bool := negb (N.eqb c BACKSLASH).

(** A member whose key and value are made of plain characters. *)
Definition plain_member (kv : str * str) : bool :=
  forallb plain (fst kv) && forallb plain (snd kv).

(** A character that may stand in a JSON string as it is, a backslash
    apart. *)
Definition string_char (c : char) : bool :=
  negb (N.ltb c 32) && negb (N.eqb c DQUOTE).

(** Every backslash of the text is followed by exactly one name of
    [latex_commands]: a LaTeX command the loop knows, [\leq] and [\geq]
    apart, whose names begin with [le] and [ge] too. *)
Fixpoint single_commands (s : str) : bool :=
  match s with
  | [] => true
  | c :: s' =>
      (negb (N.eqb c BACKSLASH) || Nat.eqb (count_commands s') 1)
      && single_commands s'
  end.

(** The text with every backslash doubled. *)
Definition double_bs (s : str) : str :=
  flat_map (fun c => if N.eqb c BACKSLASH then [BACKSLASH; BACKSLASH]
                     else [c]) s.

(** A value with LaTeX in it, and a member with such a value. *)
Definition latex_value (v : str) : bool :=
  forallb string_char v && single_commands v.

Definition latex_member (kv : str * str) : bool :=
  forallb plain (fst kv) && latex_value (snd kv).

Definition escaped_member (kv : str * str) : str * str :=
  (fst kv, double_bs (snd kv)).

(** The [dict] after the members have been assigned one by one to [d]:
    a key that comes again keeps its place and takes the later value. *)
Definition members_dict (d : Json.dict) (kvs : list (str * str))
  : Json.dict :=
  fold_left (fun d kv => Json.dict_set d (fst kv) (Json.JString (snd kv)))
            kvs d.

(** The members behind the first one, each after its comma. *)
Definition tail_text (kvs : list (str * str)) : str :=
  flat_map (fun kv => cp ", " ++ member_text kv) kvs.

(** The tokens of a member, and of the members behind the first one. *)
Definition member_tokens (kv : str * str) : list Json.token :=
  [Json.TAtom (Json.JString (fst kv)); Json.TColon;
   Json.TAtom (Json.JString (snd kv))].

Definition tail_tokens (kvs : list (str * str)) : list Json.token :=
  flat_map (fun kv => Json.TComma :: member_tokens kv) kvs.

(** Members among which [problem] comes before [func_signature]. *)
Definition keyed_members (a : list (str * str)) (p : str)
           (b : list (str * str)) (f : str) (c : list (str * str))
  : list (str * str) :=
  a ++ (cp "problem", p) :: b ++ (cp "func_signature", f) :: c.

(** The decoded value is a [dict]. *)
Definition is_object (v : Json.value) : bool :=
  match v with
  | Json.JObject _ => true
  | _ => false
  end.

(** The outermost container under construction is an object. *)
Fixpoint object_rooted (stack : list Json.frame) : bool :=
  match stack with
  | [] => false
  | [f] => match f with Json.FArray _ => false | _ => true end
  | _ :: st => object_rooted st
  end.

(** The parser is inside an object, or done with one. *)
Definition object_state (st : Json.pstate) : bool :=
  match fst st with
  | Json.PDone v => is_object v
  | _ => object_rooted (snd st)
  end.

(** A code point of a well-formed text: up to [0x10FFFF] and no
    surrogate. *)
Definition scalar (c : char) : bool :=
  ((c <=? 1114111) && negb ((55296 <=? c) && (c <=? 57343)))%N.

Definition scalar_member (kv : str * str) : bool :=
  forallb scalar (fst kv) && forallb scalar (snd kv).

(** What [json.dumps] prints for a member whose value is a string. *)
Definition member_chunk (kv : str * str) : str :=
  Dump.encode_string (fst kv) ++ cp ": " ++ Dump.encode_string (snd kv).

(** The numbers below [n]. *)
Definition below (n : nat) : list N := map N.of_nat (seq 0 n).

(** A newline or a printable ASCII character. *)
Definition ascii_char (c : char) : bool :=
  (N.eqb c NEWLINE || ((32 <=? c) && (c <=? 126)))%N.

(** ** The [try] block with what it prints, lines 61-100

    [print(s)] writes [s] and a newline to [sys.stdout] and raises
    [UnicodeEncodeError] when the stream cannot encode a character of
    them.  The stream is given by [enc]: [enc c] tells whether its
    encoding, with its error handler, takes the character [c].  The
    exception is caught at line 99 like the one of [json.loads].  The
    request of lines 63-66 is taken to return [response.text]; what the
    [except] branch prints itself is not modelled. *)

(** [print(s)] does not raise. *)
Definition print_ok (enc : char -> bool) (s : str) : bool :=
  forallb enc s && enc NEWLINE.

(** UTF-8 with the handler [strict], the usual [sys.stdout]: every code
    point but the surrogates. *)
Definition utf_8 (c : char) : bool := scalar c.

(** The newline and the printable ASCII characters. *)
Definition ascii_chars : list char :=
  NEWLINE :: map N.of_nat (seq 32 95).

(** The stream takes ASCII. *)
Definition ascii_stdout (enc : char -> bool) : bool :=
  forallb enc ascii_chars.

(** ["\n" + "="*80 + "\n"] *)
Definition RULE : str := NEWLINE :: repeat 61%N 80 ++ [NEWLINE].

(** How the [try] statement ends. *)
Inductive ending :=
| Printed (data : Json.value)   (* line 97 is reached and has printed *)
| DecodeFailed                  (* [json.loads] raised, caught at line 99 *)
| EncodeFailed.                 (* a [print] raised, caught at line 99 *)

(** [print(s)], then the rest of the block. *)
Definition print (enc : char -> bool) (s : str) (rest : option ending)
  : option ending :=
  if print_ok enc s then rest else Some EncodeFailed.

(** Lines 62-97 on the text of the response.  The result is [None] where
    the data holds a float, whose printed form is not modelled (see
    [Dump]). *)
Definition script (enc : char -> bool) (response_text : str)
  : option ending :=
  print enc (cp "Generating problem...") (
  let text := Py.strip response_text in
  print enc (cp "Raw response:") (
  print enc text (
  print enc RULE (
  let text := extract (strip_fences text) in
  print enc (cp "Extracted JSON:") (
  print enc text (
  print enc RULE (
  let text := escape text in
  print enc (cp "After escaping backslashes:") (
  print enc text (
  print enc RULE (
  match Json.loads text with
  | None => Some DecodeFailed
  | Some data =>
      print enc (cp "Parsed successfully!") (
      match Dump.dumps data with
      | Some shown => print enc shown (Some (Printed data))
      | None => None
      end)
  end)))))))))).

(** The ending of a run that has decoded [data] and prints it. *)
Definition succeeded (data : Json.value) : option ending :=
  match Dump.dumps data with
  | Some _ => Some (Printed data)
  | None => None
  end.

(** A [dict] whose values are strings. *)
Definition string_dict (d : Json.dict) : bool :=
  forallb (fun kv => match snd kv with
                     | Json.JString _ => true
                     | _ => false
                     end) d.

(** An object with [func_signature] in front of [problem], and the
    quoted name once more behind [problem]. *)
Definition signature_twice_example : str :=
  LBRACE :: KEY_SIGNATURE ++ cp ": " ++ quoted (cp "f") ++ cp ", " ++
  KEY_PROBLEM ++ cp ": [" ++ KEY_SIGNATURE ++ cp "]" ++ [RBRACE].


(** ** Strings *)

Lemma strip_prefix_app (p r : str) : Py.strip_prefix p (p ++ r) = Some r.
Proof.
  induction p as [|a p IH]; simpl; [reflexivity|].
  now rewrite N.eqb_refl.
Qed.

Lemma strip_prefix_Some (p s r : str) :
  Py.strip_prefix p s = Some r -> s = p ++ r.
Proof.
  revert s; induction p as [|a p IH]; intros s H; simpl in *.
  - now inversion H.
  - destruct s as [|b s]; [discriminate|].
    destruct (N.eqb_spec a b) as [->|]; [|discriminate].
    now rewrite (IH _ H).
Qed.

Lemma strip_prefix_None (p s : str) :
  Py.strip_prefix p s = None -> forall r, s <> p ++ r.
Proof.
  intros H r ->. now rewrite strip_prefix_app in H.
Qed.

Lemma startswith_app (p r : str) : Py.startswith (p ++ r) p = true.
Proof. unfold Py.startswith. now rewrite strip_prefix_app. Qed.

Lemma startswith_true (s p : str) :
  Py.startswith s p = true -> exists r, s = p ++ r.
Proof.
  unfold Py.startswith.
  destruct (Py.strip_prefix p s) as [r|] eqn:E; [|discriminate].
  intros _. exists r. now apply strip_prefix_Some.
Qed.

Lemma startswith_false (s p : str) :
  Py.startswith s p = false -> forall r, s <> p ++ r.
Proof.
  unfold Py.startswith.
  destruct (Py.strip_prefix p s) eqn:E; [discriminate|].
  intros _. now apply strip_prefix_None.
Qed.

Lemma str_eqb_eq (a b : str) : str_eqb a b = true <-> a = b.
Proof.
  revert b; induction a as [|x a IH]; intros [|y b]; simpl.
  - now split.
  - split; discriminate.
  - split; discriminate.
  - rewrite andb_true_iff, N.eqb_eq, IH. split.
    + intros [-> ->]. reflexivity.
    + intros H. inversion H. now split.
Qed.

(** Substrings. *)
Lemma occursb_true (pat s : str) :
  occursb pat s = true <-> exists a b, s = a ++ pat ++ b.
Proof.
  induction s as [|c s IH]; simpl.
  - rewrite orb_false_r. split.
    + intros H. apply startswith_true in H as [r ->]. now exists [], r.
    + intros (a & b & H). destruct a; [|discriminate].
      simpl in H. rewrite H. apply startswith_app.
  - rewrite orb_true_iff, IH. split.
    + intros [H|(a & b & ->)].
      * apply startswith_true in H as [r ->]. now exists [], r.
      * now exists (c :: a), b.
    + intros (a & b & H). destruct a as [|x a]; simpl in H.
      * left. rewrite H. apply startswith_app.
      * right. inversion H. now exists a, b.
Qed.

Lemma occursb_false (pat s : str) :
  occursb pat s = false -> forall a b, s <> a ++ pat ++ b.
Proof.
  intros H a b E.
  assert (occursb pat s = true) by (apply occursb_true; eauto).
  congruence.
Qed.

(** ** [str.replace] *)

Lemma strip_prefix_length (p s r : str) :
  Py.strip_prefix p s = Some r -> length s = length p + length r.
Proof.
  intros H. apply strip_prefix_Some in H. subst. apply length_app.
Qed.

(** Any fuel from [length s] on gives the same scan. *)
Lemma replace_loop_fuel (old new : str) (n : nat) :
  old <> [] ->
  forall (s : str) (m : nat),
    length s <= n -> length s <= m ->
    Py.replace_loop n old new s = Py.replace_loop m old new s.
Proof.
  intros Hold. induction n as [|n IH]; intros s m Hn Hm.
  - destruct s; [|simpl in Hn; lia]. now destruct m.
  - destruct s as [|c s]; [now destruct m|].
    destruct m as [|m]; [simpl in Hm; lia|].
    simpl in Hn, Hm. cbn [Py.replace_loop].
    destruct (Py.strip_prefix old (c :: s)) as [rest|] eqn:E.
    + apply strip_prefix_length in E. simpl in E.
      assert (length old <> 0) by (destruct old; [congruence|simpl; lia]).
      f_equal. apply IH; lia.
    + f_equal. apply IH; lia.
Qed.

Lemma replace_nil (old new : str) : old <> [] -> Py.replace old new [] = [].
Proof. destruct old; [congruence|reflexivity]. Qed.

Lemma replace_match (old new rest : str) :
  old <> [] ->
  Py.replace old new (old ++ rest) = new ++ Py.replace old new rest.
Proof.
  intros Hold. unfold Py.replace.
  destruct old as [|o old']; [congruence|].
  set (old := o :: old') in *.
  change ((o :: old') ++ rest) with (old ++ rest).
  assert (E : Py.strip_prefix old (old ++ rest) = Some rest)
    by apply strip_prefix_app.
  assert (L : length (old ++ rest) = S (length old' + length rest))
    by (rewrite length_app; reflexivity).
  rewrite L. cbn [Py.replace_loop].
  destruct (old ++ rest) as [|c s] eqn:Es; [discriminate|].
  rewrite E. f_equal. apply replace_loop_fuel; [assumption|lia|lia].
Qed.

Lemma replace_skip (old new : str) (c : char) (s : str) :
  old <> [] ->
  Py.strip_prefix old (c :: s) = None ->
  Py.replace old new (c :: s) = c :: Py.replace old new s.
Proof.
  intros Hold E. unfold Py.replace.
  destruct old as [|o old']; [congruence|].
  cbn [length Py.replace_loop]. now rewrite E.
Qed.

(** ** One round of the escaping loop *)

Lemma no_backslash_app (a b : str) :
  no_backslash (a ++ b) = no_backslash a && no_backslash b.
Proof. apply forallb_app. Qed.

Lemma insert_bs_plain (cmd x s : str) :
  no_backslash x = true -> insert_bs cmd (x ++ s) = x ++ insert_bs cmd s.
Proof.
  induction x as [|c x IH]; simpl; [reflexivity|].
  intros H. apply andb_true_iff in H as [Hc Hx].
  apply negb_true_iff in Hc. rewrite Hc. simpl. now rewrite IH.
Qed.

(** [text.replace('\\' + cmd, '\\\\' + cmd)] is [insert_bs cmd text]. *)
Lemma escape_cmd_insert_bs (cmd : str) :
  no_backslash cmd = true ->
  forall text, escape_cmd text cmd = insert_bs cmd text.
Proof.
  intros Hcmd text.
  remember (length text) as n eqn:Hn.
  revert text Hn. induction n as [n IH] using lt_wf_ind. intros text Hn.
  unfold escape_cmd in *.
  destruct text as [|c s]; [reflexivity|].
  cbn [insert_bs].
  destruct (N.eqb_spec c BACKSLASH) as [->|Hc]; cbn [andb].
  - unfold Py.startswith.
    destruct (Py.strip_prefix cmd s) as [rest|] eqn:E.
    + apply strip_prefix_Some in E. subst s.
      change (BACKSLASH :: cmd ++ rest) with ((BACKSLASH :: cmd) ++ rest).
      rewrite replace_match by discriminate.
      rewrite insert_bs_plain by assumption.
      cbn [app]. do 2 f_equal. f_equal.
      apply (IH (length rest)); [|reflexivity].
      subst n. simpl. rewrite length_app. lia.
    + rewrite replace_skip; [| discriminate |].
      * f_equal. apply (IH (length s)); [subst n; simpl; lia | reflexivity].
      * cbn [Py.strip_prefix]. rewrite N.eqb_refl. exact E.
  - rewrite replace_skip; [| discriminate |].
    + f_equal. apply (IH (length s)); [subst n; simpl; lia | reflexivity].
    + cbn [Py.strip_prefix].
      destruct (N.eqb_spec BACKSLASH c); [congruence|reflexivity].
Qed.

Lemma startswith_nil (s : str) : Py.startswith s [] = true.
Proof. reflexivity. Qed.

Lemma startswith_cons (y x : char) (s c : str) :
  Py.startswith (y :: s) (x :: c) = N.eqb x y && Py.startswith s c.
Proof.
  unfold Py.startswith. simpl. now destruct (N.eqb x y).
Qed.

Lemma startswith_empty (x : char) (c : str) :
  Py.startswith [] (x :: c) = false.
Proof. reflexivity. Qed.

(** A backslash-free name sees the same beginning before and after a
    round. *)
Lemma startswith_insert_bs (d c s : str) :
  no_backslash c = true ->
  Py.startswith (insert_bs d s) c = Py.startswith s c.
Proof.
  revert s. induction c as [|x c IH]; intros s Hc; [reflexivity|].
  simpl in Hc. apply andb_true_iff in Hc as [Hx Hc].
  apply negb_true_iff in Hx.
  destruct s as [|y s]; [reflexivity|].
  cbn [insert_bs].
  destruct (N.eqb_spec y BACKSLASH) as [->|Hy]; cbn [andb].
  - destruct (Py.startswith s d); rewrite !startswith_cons, Hx; reflexivity.
  - rewrite !startswith_cons, IH by assumption. reflexivity.
Qed.

Lemma startswith_app_bs (a y c : str) :
  no_backslash c = true ->
  Py.startswith (a ++ BACKSLASH :: y) c = Py.startswith a c.
Proof.
  revert a. induction c as [|x c IH]; intros a Hc; [reflexivity|].
  simpl in Hc. apply andb_true_iff in Hc as [Hx Hc].
  apply negb_true_iff in Hx.
  destruct a as [|z a]; cbn [app].
  - now rewrite startswith_cons, Hx.
  - rewrite !startswith_cons, IH by assumption. reflexivity.
Qed.

(** A round works on the two sides of a backslash independently. *)
Lemma insert_bs_app_bs (cmd a y : str) :
  no_backslash cmd = true ->
  insert_bs cmd (a ++ BACKSLASH :: y) =
  insert_bs cmd a ++ insert_bs cmd (BACKSLASH :: y).
Proof.
  intros Hcmd. induction a as [|c a IH]; [reflexivity|].
  cbn [app insert_bs]. rewrite startswith_app_bs by assumption.
  destruct (N.eqb c BACKSLASH && Py.startswith a cmd);
    cbn [app]; now rewrite IH.
Qed.

Lemma insert_bs_head (cmd y : str) :
  exists y', insert_bs cmd (BACKSLASH :: y) = BACKSLASH :: y' /\
             (Py.startswith y cmd = false -> y' = insert_bs cmd y).
Proof.
  cbn [insert_bs]. rewrite N.eqb_refl. cbn [andb].
  destruct (Py.startswith y cmd); eexists; split; try reflexivity.
  discriminate.
Qed.

Lemma insert_bs_id (cmd s : str) :
  occursb (BACKSLASH :: cmd) s = false -> insert_bs cmd s = s.
Proof.
  induction s as [|c s IH]; [reflexivity|].
  cbn [occursb insert_bs]. rewrite startswith_cons, (N.eqb_sym BACKSLASH c).
  intros H. apply orb_false_iff in H as [H1 H2].
  rewrite H1. now rewrite IH.
Qed.

Lemma insert_bs_length (cmd s : str) :
  length s <= length (insert_bs cmd s).
Proof.
  induction s as [|c s IH]; [apply Nat.le_refl|].
  cbn [insert_bs].
  destruct (N.eqb c BACKSLASH && Py.startswith s cmd); simpl; lia.
Qed.

Lemma insert_bs_longer (cmd s : str) :
  occursb (BACKSLASH :: cmd) s = true ->
  length s < length (insert_bs cmd s).
Proof.
  induction s as [|c s IH]; [discriminate|].
  cbn [occursb insert_bs]. rewrite startswith_cons, (N.eqb_sym BACKSLASH c).
  pose proof (insert_bs_length cmd s).
  destruct (N.eqb c BACKSLASH && Py.startswith s cmd); simpl.
  - intros _. lia.
  - intros H'. apply IH in H'. lia.
Qed.

(** A backslash followed by a backslash-free name survives a round. *)
Lemma occursb_insert_bs (d c s : str) :
  no_backslash c = true -> no_backslash d = true ->
  occursb (BACKSLASH :: c) s = true ->
  occursb (BACKSLASH :: c) (insert_bs d s) = true.
Proof.
  intros Hc Hd H. apply occursb_true in H as (a & b & ->).
  apply occursb_true.
  change ((BACKSLASH :: c) ++ b) with (BACKSLASH :: c ++ b).
  rewrite insert_bs_app_bs by assumption.
  cbn [insert_bs]. rewrite N.eqb_refl. cbn [andb].
  rewrite (insert_bs_plain d c b) by assumption.
  destruct (Py.startswith (c ++ b) d).
  - exists (insert_bs d a ++ [BACKSLASH]), (insert_bs d b).
    now rewrite <- app_assoc.
  - now exists (insert_bs d a), (insert_bs d b).
Qed.

(** ** The escaping loop *)

Lemma latex_commands_backslash_free : backslash_free latex_commands.
Proof.
  apply Forall_forall. intros c Hc.
  assert (F : forallb no_backslash latex_commands = true)
    by (vm_compute; reflexivity).
  rewrite forallb_forall in F. now apply F.
Qed.

Lemma escape_with_cons (d : str) (cmds : list str) (text : str) :
  no_backslash d = true ->
  escape_with (d :: cmds) text = escape_with cmds (insert_bs d text).
Proof.
  intros Hd. unfold escape_with. cbn [fold_left].
  now rewrite escape_cmd_insert_bs.
Qed.

Lemma escape_with_plain (cmds : list str) :
  backslash_free cmds ->
  forall x s, no_backslash x = true ->
    escape_with cmds (x ++ s) = x ++ escape_with cmds s.
Proof.
  induction 1 as [|d cmds Hd _ IH]; intros x s Hx; [reflexivity|].
  rewrite !escape_with_cons, insert_bs_plain by assumption. now apply IH.
Qed.

Lemma escape_with_app_bs (cmds : list str) :
  backslash_free cmds ->
  forall a y,
    escape_with cmds (a ++ BACKSLASH :: y) =
    escape_with cmds a ++ escape_with cmds (BACKSLASH :: y).
Proof.
  induction 1 as [|d cmds Hd _ IH]; intros a y; [reflexivity|].
  rewrite !escape_with_cons, insert_bs_app_bs by assumption.
  destruct (insert_bs_head d y) as (y' & -> & _). apply IH.
Qed.

Lemma starts_insert_bs (cmds : list str) (d y : str) :
  backslash_free cmds ->
  existsb (fun cmd => Py.startswith (insert_bs d y) cmd) cmds =
  existsb (fun cmd => Py.startswith y cmd) cmds.
Proof.
  induction 1 as [|c cmds Hc _ IH]; [reflexivity|].
  cbn [existsb]. now rewrite startswith_insert_bs, IH.
Qed.

Lemma escape_with_bs (cmds : list str) :
  backslash_free cmds ->
  forall y,
    existsb (fun cmd => Py.startswith y cmd) cmds = false ->
    escape_with cmds (BACKSLASH :: y) = BACKSLASH :: escape_with cmds y.
Proof.
  induction 1 as [|d cmds Hd Hcmds IH]; intros y Hy; [reflexivity|].
  cbn [existsb] in Hy. apply orb_false_iff in Hy as [Hyd Hy].
  rewrite !escape_with_cons by assumption.
  destruct (insert_bs_head d y) as (y' & -> & E).
  rewrite (E Hyd). apply IH.
  now rewrite starts_insert_bs.
Qed.

Lemma escape_with_id (cmds : list str) :
  backslash_free cmds ->
  forall text, has_command_in cmds text = false ->
    escape_with cmds text = text.
Proof.
  induction 1 as [|d cmds Hd _ IH]; intros text H; [reflexivity|].
  unfold has_command_in in H. cbn [existsb] in H.
  apply orb_false_iff in H as [H1 H2].
  rewrite escape_with_cons, insert_bs_id by assumption. now apply IH.
Qed.

Lemma escape_with_length (cmds : list str) :
  backslash_free cmds ->
  forall text, length text <= length (escape_with cmds text).
Proof.
  induction 1 as [|d cmds Hd _ IH]; intros text; [apply Nat.le_refl|].
  rewrite escape_with_cons by assumption.
  pose proof (insert_bs_length d text). pose proof (IH (insert_bs d text)).
  lia.
Qed.

Lemma escape_with_occurs (cmds : list str) (c : str) :
  no_backslash c = true ->
  backslash_free cmds ->
  forall text, occursb (BACKSLASH :: c) text = true ->
    occursb (BACKSLASH :: c) (escape_with cmds text) = true.
Proof.
  intros Hc. induction 1 as [|d cmds Hd _ IH]; intros text H; [assumption|].
  rewrite escape_with_cons by assumption.
  apply IH. now apply occursb_insert_bs.
Qed.

Lemma escape_with_longer (cmds : list str) :
  backslash_free cmds ->
  forall text, has_command_in cmds text = true ->
    length text < length (escape_with cmds text).
Proof.
  induction 1 as [|d cmds Hd Hcmds IH]; intros text H; [discriminate|].
  rewrite escape_with_cons by assumption.
  unfold has_command_in in H. cbn [existsb] in H.
  destruct (occursb (BACKSLASH :: d) text) eqn:Ed.
  - pose proof (insert_bs_longer d text Ed).
    pose proof (escape_with_length cmds Hcmds (insert_bs d text)). lia.
  - cbn [orb] in H.
    assert (H' : has_command_in cmds (insert_bs d text) = true).
    { rewrite insert_bs_id by assumption. exact H. }
    apply IH in H'. rewrite (insert_bs_id d text Ed) in H'. 
    now rewrite (insert_bs_id d text Ed).
Qed.

Lemma has_command_in_escape (cmds : list str) :
  backslash_free cmds ->
  forall text, has_command_in cmds text = true ->
    has_command_in cmds (escape_with cmds text) = true.
Proof.
  intros Hcmds text H. unfold has_command_in in *.
  apply existsb_exists in H as (c & Hin & Hc).
  apply existsb_exists. exists c. split; [assumption|].
  apply escape_with_occurs; try assumption.
  unfold backslash_free in Hcmds. rewrite Forall_forall in Hcmds.
  now apply Hcmds.
Qed.

(** *** The backslashes the loop adds *)

Lemma proper_names_backslash_free (cmds : list str) :
  proper_names cmds -> backslash_free cmds.
Proof.
  unfold proper_names, backslash_free. intros H.
  eapply Forall_impl; [|exact H]. now intros c [Hc _].
Qed.

Lemma latex_commands_proper : proper_names latex_commands.
Proof.
  apply Forall_forall. intros c Hc.
  assert (F : forallb (fun c => no_backslash c && negb (str_eqb c []))
                latex_commands = true) by (vm_compute; reflexivity).
  rewrite forallb_forall in F. specialize (F c Hc).
  apply andb_true_iff in F as [F1 F2]. split; [assumption|].
  intros ->. discriminate.
Qed.

Lemma startswith_bs (d y : str) :
  no_backslash d = true -> d <> [] ->
  Py.startswith (BACKSLASH :: y) d = false.
Proof.
  destruct d as [|x d]; [congruence|]. intros H _.
  cbn [no_backslash forallb] in H. apply andb_true_iff in H as [H _].
  apply negb_true_iff in H. now rewrite startswith_cons, H.
Qed.

(** One round in front of a run of backslashes: only the last one can be
    followed by the name. *)
Lemma insert_bs_run (d y : str) (n : nat) :
  no_backslash d = true -> d <> [] ->
  insert_bs d (repeat BACKSLASH n ++ BACKSLASH :: y) =
  repeat BACKSLASH (n + if Py.startswith y d then 1 else 0)
    ++ BACKSLASH :: insert_bs d y.
Proof.
  intros Hd Hne. induction n as [|n IH].
  - cbn [repeat app insert_bs Nat.add]. rewrite N.eqb_refl. cbn [andb].
    destruct (Py.startswith y d); reflexivity.
  - cbn [repeat app insert_bs Nat.add]. rewrite N.eqb_refl. cbn [andb].
    assert (S : Py.startswith (repeat BACKSLASH n ++ BACKSLASH :: y) d
                = false).
    { destruct n; cbn [repeat app]; now apply startswith_bs. }
    rewrite S, IH. reflexivity.
Qed.

Lemma count_insert_bs (cmds : list str) (d y : str) :
  backslash_free cmds ->
  count_commands_in cmds (insert_bs d y) = count_commands_in cmds y.
Proof.
  unfold count_commands_in.
  induction 1 as [|c cmds Hc _ IH]; [reflexivity|].
  cbn [filter]. rewrite startswith_insert_bs by assumption.
  destruct (Py.startswith y c); cbn [length]; now rewrite IH.
Qed.

Lemma escape_with_run (cmds : list str) :
  proper_names cmds ->
  forall y n,
    escape_with cmds (repeat BACKSLASH n ++ BACKSLASH :: y) =
    repeat BACKSLASH (n + count_commands_in cmds y)
      ++ BACKSLASH :: escape_with cmds y.
Proof.
  induction 1 as [|d cmds [Hd Hne] Hcmds IH]; intros y n.
  - cbn [count_commands_in filter length]. now rewrite Nat.add_0_r.
  - rewrite !escape_with_cons by assumption.
    rewrite insert_bs_run by assumption. rewrite IH.
    rewrite count_insert_bs by now apply proper_names_backslash_free.
    unfold count_commands_in. cbn [filter].
    destruct (Py.startswith y d); cbn [length];
      do 2 f_equal; lia.
Qed.

Lemma escape_with_at_backslash (cmds : list str) (a y : str) :
  proper_names cmds ->
  escape_with cmds (a ++ BACKSLASH :: y) =
  escape_with cmds a ++ repeat BACKSLASH (count_commands_in cmds y)
    ++ BACKSLASH :: escape_with cmds y.
Proof.
  intros H.
  rewrite escape_with_app_bs by now apply proper_names_backslash_free.
  f_equal. exact (escape_with_run cmds H y 0).
Qed.

(** The escaping at a backslash: it gains one backslash for every name of
    [latex_commands] that the text after it begins with. *)
Lemma escape_at_backslash (a y : str) :
  escape (a ++ BACKSLASH :: y) =
  escape a ++ repeat BACKSLASH (count_commands y) ++ BACKSLASH :: escape y.
Proof. apply escape_with_at_backslash, latex_commands_proper. Qed.

(** A name of [latex_commands] is the only name the text begins with,
    unless the text begins with [leq] or [geq]: then [le] or [ge] is a
    second one. *)
Lemma count_commands_name (cmd r : str) :
  In cmd latex_commands ->
  count_commands (cmd ++ r) =
  if Py.startswith (cmd ++ r) (cp "leq") || Py.startswith (cmd ++ r) (cp "geq")
  then 2 else 1.
Proof.
  intros H. unfold latex_commands in H.
  cbn [map In cp list_ascii_of_string] in H.
  repeat (destruct H as [<-|H]); try contradiction.
  all: unfold count_commands, count_commands_in; cbn.
  all: try reflexivity.
  all: match goal with
       | |- context [Py.startswith ?s ?d] => destruct (Py.startswith s d)
       end; reflexivity.
Qed.

(** The loop leaves a name at the head of the text in place. *)
Lemma escape_name (cmd r : str) :
  In cmd latex_commands -> escape (cmd ++ r) = cmd ++ escape r.
Proof.
  intros H. pose proof latex_commands_backslash_free as B.
  apply (escape_with_plain latex_commands B).
  unfold backslash_free in B. rewrite Forall_forall in B. now apply B.
Qed.

Lemma leq_listed : In (cp "leq") latex_commands.
Proof. repeat (try (left; reflexivity); right). Qed.

Lemma geq_listed : In (cp "geq") latex_commands.
Proof. repeat (try (left; reflexivity); right). Qed.

(** ** Regular expressions *)

Section Star.

Variable p : char -> bool.
Variable k : nat -> str -> option nat.

Lemma star_greedy_sound :
  forall s pos e,
    Re.star_greedy p k pos s = Some e ->
    exists w s', s = w ++ s' /\ forallb p w = true /\
                 k (pos + length w) s' = Some e.
Proof.
  induction s as [|c s IH]; intros pos e H; cbn [Re.star_greedy] in H.
  - exists [], []. now rewrite Nat.add_0_r.
  - destruct (p c) eqn:Ep.
    + destruct (Re.star_greedy p k (S pos) s) as [e'|] eqn:E.
      * inversion H; subst e'. apply IH in E as (w & s' & -> & Hw & Hk).
        exists (c :: w), s'. cbn [forallb length app]. rewrite Ep, Hw.
        now rewrite Nat.add_succ_r.
      * exists [], (c :: s). now rewrite Nat.add_0_r.
    + exists [], (c :: s). now rewrite Nat.add_0_r.
Qed.

(** Backtracking finds a match whenever some split of the text has one. *)
Lemma star_greedy_complete :
  forall w s' pos e,
    forallb p w = true ->
    k (pos + length w) s' = Some e ->
    exists e', Re.star_greedy p k pos (w ++ s') = Some e'.
Proof.
  induction w as [|c w IH]; intros s' pos e Hw Hk.
  - cbn [app length] in *. rewrite Nat.add_0_r in Hk.
    destruct s' as [|c s']; cbn [Re.star_greedy]; [eauto|].
    destruct (p c); [|eauto].
    destruct (Re.star_greedy p k (S pos) s'); eauto.
  - cbn [forallb] in Hw. apply andb_true_iff in Hw as [Hc Hw].
    cbn [app Re.star_greedy]. rewrite Hc.
    cbn [length] in Hk. rewrite Nat.add_succ_r in Hk.
    destruct (IH s' (S pos) e Hw Hk) as [e' ->]. eauto.
Qed.

(** The longest run is tried first. *)
Lemma star_greedy_max :
  forall w s' pos e,
    forallb p w = true ->
    match s' with [] => true | c :: _ => negb (p c) end = true ->
    k (pos + length w) s' = Some e ->
    Re.star_greedy p k pos (w ++ s') = Some e.
Proof.
  induction w as [|c w IH]; intros s' pos e Hw Hs Hk.
  - cbn [app length] in *. rewrite Nat.add_0_r in Hk.
    destruct s' as [|c s']; cbn [Re.star_greedy]; [assumption|].
    apply negb_true_iff in Hs. now rewrite Hs.
  - cbn [forallb] in Hw. apply andb_true_iff in Hw as [Hc Hw].
    cbn [app Re.star_greedy]. rewrite Hc.
    cbn [length] in Hk. rewrite Nat.add_succ_r in Hk.
    now rewrite (IH s' (S pos) e Hw Hs Hk).
Qed.

End Star.

(** The first character outside a class is where a run of the class
    ends. *)
Lemma run_unique (p : char -> bool) :
  forall a a' (x x' : char) b b',
    forallb p a = true -> forallb p a' = true ->
    p x = false -> p x' = false ->
    a ++ x :: b = a' ++ x' :: b' -> a = a' /\ x = x' /\ b = b'.
Proof.
  induction a as [|c a IH]; intros [|c' a'] x x' b b' Ha Ha' Hx Hx' E;
    cbn [app forallb] in *.
  - inversion E. auto.
  - inversion E; subst. apply andb_true_iff in Ha' as [Hc _]. congruence.
  - inversion E; subst. apply andb_true_iff in Ha as [Hc _]. congruence.
  - inversion E; subst.
    apply andb_true_iff in Ha as [_ Ha]. apply andb_true_iff in Ha' as [_ Ha'].
    destruct (IH a' x x' b b' Ha Ha' Hx Hx' H1) as (-> & -> & ->). auto.
Qed.

(** *** The object pattern of line 78 *)

Lemma brace_free_app (a b : str) :
  brace_free (a ++ b) = brace_free a && brace_free b.
Proof. apply forallb_app. Qed.

Lemma json_pattern_sound (pos : nat) (s : str) (e : nat) :
  Re.match_here json_pattern pos s = Some e ->
  exists p q r rest,
    brace_free p = true /\ brace_free q = true /\ brace_free r = true /\
    s = keyed_object p q r ++ rest /\
    e = pos + length (keyed_object p q r).
Proof.
  unfold json_pattern. cbn [Re.match_here]. intros H.
  destruct (Py.strip_prefix [LBRACE] s) as [s1|] eqn:E1; [|discriminate].
  apply strip_prefix_Some in E1. subst s.
  apply star_greedy_sound in H as (p & s2 & -> & Hp & H).
  cbn [Re.match_here] in H.
  destruct (Py.strip_prefix (quoted (cp "problem")) s2) as [s3|] eqn:E2;
    [|discriminate].
  apply strip_prefix_Some in E2. subst s2.
  apply star_greedy_sound in H as (q & s4 & -> & Hq & H).
  cbn [Re.match_here] in H.
  destruct (Py.strip_prefix (quoted (cp "func_signature")) s4) as [s5|] eqn:E3;
    [|discriminate].
  apply strip_prefix_Some in E3. subst s4.
  apply star_greedy_sound in H as (r & s6 & -> & Hr & H).
  cbn [Re.match_here] in H.
  destruct (Py.strip_prefix [RBRACE] s6) as [rest|] eqn:E4; [|discriminate].
  apply strip_prefix_Some in E4. subst s6.
  inversion H; subst e.
  exists p, q, r, rest. repeat split; try assumption.
  - unfold keyed_object, KEY_PROBLEM, KEY_SIGNATURE.
    cbn [app]. now rewrite <- !app_assoc.
  - unfold keyed_object, KEY_PROBLEM, KEY_SIGNATURE.
    cbn [length]. rewrite !length_app. cbn [length].
    change (length (quoted (cp "problem"))) with 9.
    change (length (quoted (cp "func_signature"))) with 16. lia.
Qed.

Lemma json_pattern_complete (pos : nat) (p q r rest : str) :
  brace_free p = true -> brace_free q = true -> brace_free r = true ->
  exists e,
    Re.match_here json_pattern pos (keyed_object p q r ++ rest) = Some e.
Proof.
  intros Hp Hq Hr.
  unfold json_pattern, keyed_object, KEY_PROBLEM, KEY_SIGNATURE.
  cbn [Re.match_here app Py.strip_prefix]. rewrite N.eqb_refl.
  rewrite <- !app_assoc.
  set (k3 := Re.match_here [Re.Lit [RBRACE]]).
  set (k2 := Re.match_here
               [Re.Lit (quoted (cp "func_signature")); Re.Star not_brace;
                Re.Lit [RBRACE]]).
  set (k1 := Re.match_here
               [Re.Lit (quoted (cp "problem")); Re.Star not_brace;
                Re.Lit (quoted (cp "func_signature")); Re.Star not_brace;
                Re.Lit [RBRACE]]).
  assert (H3 : forall n, exists e,
             Re.star_greedy not_brace k3 n (r ++ [RBRACE] ++ rest) = Some e).
  { intros n. eapply star_greedy_complete; [exact Hr|].
    unfold k3. cbn [Re.match_here app Py.strip_prefix].
    rewrite N.eqb_refl. reflexivity. }
  assert (H2 : forall n, exists e,
             Re.star_greedy not_brace k2 n
               (q ++ quoted (cp "func_signature") ++ r ++ [RBRACE] ++ rest)
             = Some e).
  { intros n.
    destruct (H3 (n + length q + length (quoted (cp "func_signature"))))
      as [e He].
    eapply star_greedy_complete; [exact Hq|].
    unfold k2. cbn [Re.match_here]. rewrite strip_prefix_app. exact He. }
  destruct (H2 (pos + length [LBRACE] + length p
                + length (quoted (cp "problem")))) as [e He].
  eapply star_greedy_complete; [exact Hp|].
  unfold k1. cbn [Re.match_here]. rewrite strip_prefix_app. exact He.
Qed.

(** *** [re.search] *)

Lemma search_from_Some (re : Re.regex) :
  forall s pos i e,
    Re.search_from re pos s = Some (i, e) ->
    exists pre suf, s = pre ++ suf /\ i = pos + length pre /\
                    Re.match_here re i suf = Some e.
Proof.
  induction s as [|c s IH]; intros pos i e H; cbn [Re.search_from] in H.
  - destruct (Re.match_here re pos []) as [e'|] eqn:E; [|discriminate].
    inversion H; subst. exists [], []. now rewrite Nat.add_0_r.
  - destruct (Re.match_here re pos (c :: s)) as [e'|] eqn:E.
    + inversion H; subst. exists [], (c :: s). now rewrite Nat.add_0_r.
    + apply IH in H as (pre & suf & -> & -> & H).
      exists (c :: pre), suf. cbn [length app].
      now rewrite Nat.add_succ_r.
Qed.

Lemma search_from_None (re : Re.regex) :
  forall s pos,
    Re.search_from re pos s = None ->
    forall pre suf, s = pre ++ suf ->
      Re.match_here re (pos + length pre) suf = None.
Proof.
  induction s as [|c s IH]; intros pos H pre suf E; cbn [Re.search_from] in H.
  - destruct pre; [|discriminate]. cbn [app] in E. subst suf.
    rewrite Nat.add_0_r.
    destruct (Re.match_here re pos []); [discriminate|reflexivity].
  - destruct (Re.match_here re pos (c :: s)) eqn:E0; [discriminate|].
    destruct pre as [|x pre]; cbn [app length] in *.
    + subst suf. now rewrite Nat.add_0_r.
    + inversion E; subst. rewrite Nat.add_succ_r. now apply (IH (S pos)).
Qed.

(** The leftmost match wins. *)
Lemma search_from_leftmost (re : Re.regex) :
  forall pre suf pos e,
    (forall a b, pre = a ++ b -> b <> [] ->
                 Re.match_here re (pos + length a) (b ++ suf) = None) ->
    Re.match_here re (pos + length pre) suf = Some e ->
    Re.search_from re pos (pre ++ suf) = Some (pos + length pre, e).
Proof.
  induction pre as [|c pre IH]; intros suf pos e Hno Hm.
  - cbn [app length] in *. rewrite Nat.add_0_r in *.
    destruct suf; cbn [Re.search_from]; now rewrite Hm.
  - pose proof (Hno [] (c :: pre) eq_refl) as H0.
    cbn [length app] in H0. rewrite Nat.add_0_r in H0.
    cbn [app Re.search_from]. rewrite H0 by discriminate.
    cbn [length]. rewrite Nat.add_succ_r. apply IH.
    + intros a b -> Hb. specialize (Hno (c :: a) b eq_refl Hb).
      cbn [length] in Hno. now rewrite Nat.add_succ_r in Hno.
    + cbn [length] in Hm. now rewrite Nat.add_succ_r in Hm.
Qed.

Lemma search_from_no_match (re : Re.regex) :
  forall s pos,
    (forall a b, s = a ++ b -> Re.match_here re (pos + length a) b = None) ->
    Re.search_from re pos s = None.
Proof.
  induction s as [|c s IH]; intros pos H; cbn [Re.search_from].
  - specialize (H [] [] eq_refl). cbn [length] in H.
    rewrite Nat.add_0_r in H. now rewrite H.
  - pose proof (H [] (c :: s) eq_refl) as H0. cbn [length] in H0.
    rewrite Nat.add_0_r in H0. rewrite H0. apply IH.
    intros a b ->. specialize (H (c :: a) b eq_refl).
    cbn [length] in H. now rewrite Nat.add_succ_r in H.
Qed.

Lemma group0_app (pre m post : str) :
  Re.group0 (length pre, length pre + length m) (pre ++ m ++ post) = m.
Proof.
  unfold Re.group0. cbn [fst snd].
  rewrite skipn_app, skipn_all, Nat.sub_diag. cbn [skipn app].
  replace (length pre + length m - length pre) with (length m) by lia.
  rewrite firstn_app, firstn_all, Nat.sub_diag. cbn [firstn].
  apply app_nil_r.
Qed.

(** *** Extraction *)

Lemma json_pattern_head (pos : nat) (s : str) (e : nat) :
  Re.match_here json_pattern pos s = Some e ->
  exists s', s = LBRACE :: s'.
Proof.
  intros H. apply json_pattern_sound in H as (p & q & r & rest & _ & _ & _ & -> & _).
  unfold keyed_object. cbn [app]. eauto.
Qed.

(** Extraction keeps the text, or cuts it down to the leftmost substring
    of the pattern's shape. *)
Lemma extract_cases (text : str) :
  (Re.search json_pattern text = None /\ extract text = text) \/
  (exists pre p q r post,
      brace_free p = true /\ brace_free q = true /\ brace_free r = true /\
      text = pre ++ keyed_object p q r ++ post /\
      extract text = keyed_object p q r).
Proof.
  unfold extract, Re.search.
  destruct (Re.search_from json_pattern 0 text) as [[i e]|] eqn:E.
  - right. apply search_from_Some in E as (pre & suf & -> & -> & H).
    apply json_pattern_sound in H as (p & q & r & post & Hp & Hq & Hr & -> & ->).
    exists pre, p, q, r, post. repeat split; try assumption.
    cbn [Nat.add]. apply group0_app.
  - left. now split.
Qed.

Lemma keyed_object_brace_free (p q r : str) :
  brace_free p = true -> brace_free q = true -> brace_free r = true ->
  brace_free (p ++ KEY_PROBLEM ++ q ++ KEY_SIGNATURE ++ r) = true.
Proof.
  intros Hp Hq Hr. rewrite !brace_free_app, Hp, Hq, Hr. reflexivity.
Qed.

Lemma keyed_object_app (p q r rest : str) :
  keyed_object p q r ++ rest =
  LBRACE :: (p ++ KEY_PROBLEM ++ q ++ KEY_SIGNATURE ++ r) ++ RBRACE :: rest.
Proof.
  unfold keyed_object. cbn [app]. now rewrite <- app_assoc.
Qed.

(** An object of the pattern's shape after brace-free text is what
    extraction returns. *)
Lemma extract_keyed_object (pre p q r post : str) :
  forallb (fun c => negb (N.eqb c LBRACE)) pre = true ->
  brace_free p = true -> brace_free q = true -> brace_free r = true ->
  extract (pre ++ keyed_object p q r ++ post) = keyed_object p q r.
Proof.
  intros Hpre Hp Hq Hr. unfold extract, Re.search.
  destruct (json_pattern_complete (0 + length pre) p q r post Hp Hq Hr)
    as [e He].
  assert (Ee : e = 0 + length pre + length (keyed_object p q r)).
  { destruct (json_pattern_sound _ _ _ He)
      as (p' & q' & r' & post' & Hp' & Hq' & Hr' & E & ->).
    f_equal. rewrite !keyed_object_app in E.
    assert (E' : (p ++ KEY_PROBLEM ++ q ++ KEY_SIGNATURE ++ r)
                   ++ RBRACE :: post =
                 (p' ++ KEY_PROBLEM ++ q' ++ KEY_SIGNATURE ++ r')
                   ++ RBRACE :: post') by congruence.
    apply run_unique with (p := not_brace) in E' as (E1 & _ & _);
      try reflexivity; try now apply keyed_object_brace_free.
    unfold keyed_object. now rewrite E1. }
  rewrite (search_from_leftmost json_pattern pre _ 0 e).
  - subst e. cbn [Nat.add]. apply group0_app.
  - intros a b -> Hb.
    destruct (Re.match_here json_pattern (0 + length a)
                ((b ++ keyed_object p q r ++ post))) as [e'|] eqn:E';
      [|reflexivity].
    apply json_pattern_head in E' as [s' E'].
    destruct b as [|c b]; [congruence|]. cbn [app] in E'. inversion E'; subst c.
    rewrite forallb_app in Hpre. apply andb_true_iff in Hpre as [_ Hpre].
    cbn [forallb] in Hpre. rewrite N.eqb_refl in Hpre. discriminate.
  - exact He.
Qed.

(** ** [str.strip] *)

Lemma lstrip_spec (s : str) :
  exists w, s = w ++ Py.lstrip s /\ forallb Py.isspace w = true /\
            starts_nonspace (Py.lstrip s) = true.
Proof.
  induction s as [|c s (w & E & Hw & Hs)]; cbn [Py.lstrip].
  - now exists [].
  - destruct (Py.isspace c) eqn:Ec.
    + exists (c :: w). cbn [app forallb]. rewrite Ec, Hw, <- E. auto.
    + exists []. cbn [starts_nonspace]. now rewrite Ec.
Qed.

Lemma lstrip_spaces (w s : str) :
  forallb Py.isspace w = true -> Py.lstrip (w ++ s) = Py.lstrip s.
Proof.
  induction w as [|c w IH]; [reflexivity|].
  cbn [forallb app Py.lstrip]. intros H.
  apply andb_true_iff in H as [-> H]. now apply IH.
Qed.

Lemma lstrip_fixed (s : str) : starts_nonspace s = true -> Py.lstrip s = s.
Proof.
  destruct s as [|c s]; [reflexivity|]. cbn [starts_nonspace Py.lstrip].
  intros H. apply negb_true_iff in H. now rewrite H.
Qed.

Lemma strip_fixed (s : str) :
  starts_nonspace s = true -> ends_nonspace s = true -> Py.strip s = s.
Proof.
  intros H1 H2. unfold Py.strip, Py.rstrip.
  rewrite (lstrip_fixed s H1), (lstrip_fixed (rev s) H2). apply rev_involutive.
Qed.

(** [strip] removes a run of white space at either end and nothing
    else. *)
Lemma strip_spec (s : str) :
  exists w1 w2,
    s = w1 ++ Py.strip s ++ w2 /\
    forallb Py.isspace w1 = true /\ forallb Py.isspace w2 = true /\
    starts_nonspace (Py.strip s) = true /\ ends_nonspace (Py.strip s) = true.
Proof.
  destruct (lstrip_spec s) as (w1 & E1 & Hw1 & Hs1).
  destruct (lstrip_spec (rev (Py.lstrip s))) as (w2 & E2 & Hw2 & Hs2).
  assert (E : Py.lstrip s = Py.strip s ++ rev w2).
  { unfold Py.strip, Py.rstrip. rewrite <- rev_app_distr, <- E2.
    symmetry. apply rev_involutive. }
  exists w1, (rev w2). repeat split.
  - now rewrite <- E.
  - assumption.
  - rewrite forallb_forall in *. intros x Hx. apply Hw2. now apply in_rev.
  - rewrite E in Hs1. destruct (Py.strip s); [reflexivity|exact Hs1].
  - unfold ends_nonspace, Py.strip, Py.rstrip. now rewrite rev_involutive.
Qed.

(** *** [re.sub] *)

Lemma sub_from_skip (re : Re.regex) (repl : str) :
  forall k s pos,
    k <= length s ->
    Re.sub_from re repl k pos s = Re.sub_from re repl 0 (pos + k) (skipn k s).
Proof.
  induction k as [|k IH]; intros s pos Hk.
  - now rewrite Nat.add_0_r.
  - destruct s as [|c s]; [simpl in Hk; lia|].
    cbn [Re.sub_from skipn]. rewrite IH by (simpl in Hk; lia).
    now rewrite Nat.add_succ_r.
Qed.

(** Text in which the pattern matches nowhere is copied. *)
Lemma sub_from_copy (re : Re.regex) (repl : str) :
  forall u t pos,
    (forall a b, u = a ++ b -> b <> [] ->
                 Re.match_here re (pos + length a) (b ++ t) = None) ->
    Re.sub_from re repl 0 pos (u ++ t) =
    u ++ Re.sub_from re repl 0 (pos + length u) t.
Proof.
  induction u as [|c u IH]; intros t pos Hno.
  - cbn [app length]. now rewrite Nat.add_0_r.
  - pose proof (Hno [] (c :: u) eq_refl) as H0.
    cbn [length app] in H0. rewrite Nat.add_0_r in H0.
    cbn [app Re.sub_from]. rewrite H0 by discriminate.
    f_equal. cbn [length]. rewrite Nat.add_succ_r. apply IH.
    intros a b -> Hb. specialize (Hno (c :: a) b eq_refl Hb).
    cbn [length] in Hno. now rewrite Nat.add_succ_r in Hno.
Qed.

(** A non-empty match is replaced and the scan resumes behind it. *)
Lemma sub_from_match (re : Re.regex) (repl m t : str) (pos : nat) :
  m <> [] ->
  Re.match_here re pos (m ++ t) = Some (pos + length m) ->
  Re.sub_from re repl 0 pos (m ++ t) =
  repl ++ Re.sub_from re repl 0 (pos + length m) t.
Proof.
  intros Hm H. destruct m as [|c m]; [congruence|].
  cbn [app Re.sub_from] in *. rewrite H. f_equal.
  cbn [length]. destruct (Nat.eqb_spec (pos + S (length m)) pos); [lia|].
  rewrite sub_from_skip by (rewrite length_app; lia).
  replace (pos + S (length m) - pos - 1) with (length m) by lia.
  rewrite skipn_app, skipn_all, Nat.sub_diag. cbn [skipn app].
  f_equal. lia.
Qed.

Lemma sub_from_bol (re : Re.regex) (repl : str) :
  forall s pos, 0 < pos -> Re.sub_from (Re.Bol :: re) repl 0 pos s = s.
Proof.
  induction s as [|c s IH]; intros pos Hpos; cbn [Re.sub_from Re.match_here];
    destruct (Nat.eqb_spec pos 0); try lia; [reflexivity|].
  f_equal. apply IH. lia.
Qed.

(** *** The fences of lines 74-76 *)

Lemma fence_open_match (s : str) (pos : nat) :
  exists w,
    s = w ++ Py.lstrip s /\
    Re.match_here [Re.Star Py.isspace] pos s = Some (pos + length w).
Proof.
  destruct (lstrip_spec s) as (w & E & Hw & Hs).
  exists w. split; [assumption|].
  cbn [Re.match_here]. rewrite E at 1.
  apply star_greedy_max; [assumption | | reflexivity].
  destruct (Py.lstrip s); [reflexivity|exact Hs].
Qed.

(** The first [re.sub] on a text that opens with the fence and the tag
    removes them and the white space behind them. *)
Lemma sub_fence_open_json (s : str) :
  Re.sub fence_open [] (FENCE ++ cp "json" ++ s) = Py.lstrip s.
Proof.
  destruct (fence_open_match s 7) as (w & E & H).
  unfold Re.sub.
  assert (M : Re.match_here fence_open 0 ((FENCE ++ cp "json" ++ w)
                                            ++ Py.lstrip s) =
              Some (0 + length (FENCE ++ cp "json" ++ w))).
  { rewrite <- !app_assoc, <- E. unfold fence_open.
    cbn [Re.match_here Nat.eqb]. rewrite strip_prefix_app.
    rewrite strip_prefix_app. cbn [Nat.add length FENCE cp map
      list_ascii_of_string]. cbn [length Nat.add] in H.
    cbn [Re.match_here] in H. rewrite H.
    rewrite !length_app. reflexivity. }
  rewrite E at 1. rewrite !app_assoc. rewrite <- (app_assoc FENCE).
  rewrite sub_from_match; [| discriminate | exact M].
  cbn [app]. apply sub_from_bol.
  rewrite !length_app. change (length FENCE) with 3. lia.
Qed.

Lemma fence_close_sound (pos : nat) (s : str) (e : nat) :
  Re.match_here fence_close pos s = Some e ->
  exists w tail,
    s = w ++ FENCE ++ tail /\ forallb Py.isspace w = true /\
    Re.at_end tail = true.
Proof.
  unfold fence_close. cbn [Re.match_here]. intros H.
  apply star_greedy_sound in H as (w & s' & -> & Hw & H).
  cbn [Re.match_here] in H.
  destruct (Py.strip_prefix FENCE s') as [tail|] eqn:E; [|discriminate].
  apply strip_prefix_Some in E. subst s'.
  destruct (Re.at_end tail) eqn:Et; [|discriminate].
  now exists w, tail.
Qed.

Lemma fence_close_match (pos : nat) (w : str) :
  forallb Py.isspace w = true ->
  Re.match_here fence_close pos ((w ++ FENCE) ++ []) =
  Some (pos + length (w ++ FENCE)).
Proof.
  intros Hw. unfold fence_close. cbn [Re.match_here].
  rewrite app_nil_r. apply star_greedy_max; [assumption|reflexivity|].
  cbn [Re.match_here].
  pose proof (strip_prefix_app FENCE []) as P. rewrite app_nil_r in P.
  rewrite P. cbn [Re.at_end].
  rewrite length_app. f_equal. lia.
Qed.

(** No closing fence is found inside text that ends in a character that
    is not white space and is followed by white space and the fence. *)
Lemma fence_close_no_match (pos : nat) (b w : str) :
  b <> [] -> ends_nonspace b = true -> forallb Py.isspace w = true ->
  Re.match_here fence_close pos (b ++ w ++ FENCE) = None.
Proof.
  intros Hb Hend Hw.
  destruct (Re.match_here fence_close pos (b ++ w ++ FENCE)) as [e|] eqn:E;
    [exfalso|reflexivity].
  apply fence_close_sound in E as (w' & tail & E & Hw' & Ht).
  apply (f_equal (@rev char)) in E.
  rewrite !rev_app_distr in E.
  change (rev FENCE) with FENCE in E.
  destruct tail as [|t tail].
  - cbn [rev app] in E. rewrite <- app_assoc in E.
    apply app_inv_head in E.
    assert (F : forallb Py.isspace (rev w ++ rev b) = true).
    { rewrite E. rewrite forallb_forall in *. intros x Hx.
      apply Hw'. now apply in_rev. }
    rewrite forallb_app in F. apply andb_true_iff in F as [_ F].
    unfold ends_nonspace in Hend.
    destruct (rev b) as [|x rb] eqn:Erb.
    + apply (f_equal (@rev char)) in Erb. rewrite rev_involutive in Erb.
      now apply Hb.
    + cbn [forallb starts_nonspace] in *. apply andb_true_iff in F as [F _].
      rewrite F in Hend. discriminate.
  - destruct tail; [|discriminate]. cbn [Re.at_end] in Ht.
    apply N.eqb_eq in Ht. subst t. cbn in E. discriminate.
Qed.

Lemma ends_nonspace_suffix (a b : str) :
  b <> [] -> ends_nonspace (a ++ b) = true -> ends_nonspace b = true.
Proof.
  unfold ends_nonspace. rewrite rev_app_distr. intros Hb H.
  destruct (rev b) as [|x rb] eqn:E; [reflexivity|exact H].
Qed.

(** The second [re.sub] removes white space and the fence at the end. *)
Lemma sub_fence_close (u w : str) :
  ends_nonspace u = true -> forallb Py.isspace w = true ->
  Re.sub fence_close [] (u ++ w ++ FENCE) = u.
Proof.
  intros Hu Hw. unfold Re.sub.
  rewrite sub_from_copy.
  - rewrite <- (app_nil_r (w ++ FENCE)) at 1.
    rewrite sub_from_match.
    + cbn [app Re.sub_from Re.match_here fence_close Re.star_greedy
             Py.strip_prefix FENCE cp map list_ascii_of_string].
      apply app_nil_r.
    + destruct w; discriminate.
    + now apply fence_close_match.
  - intros a b -> Hb. apply fence_close_no_match; try assumption.
    now apply ends_nonspace_suffix with (a := a).
Qed.

Lemma starts_nonspace_app (a b : str) :
  a <> [] -> starts_nonspace a = true -> starts_nonspace (a ++ b) = true.
Proof. destruct a; [congruence|auto]. Qed.

Lemma strip_fenced (r : str) : Py.strip (fenced r) = fenced r.
Proof.
  apply strip_fixed; [reflexivity|].
  unfold ends_nonspace, fenced. rewrite !rev_app_distr. reflexivity.
Qed.

(** A fenced response is unwrapped to the trimmed response. *)
Lemma strip_fences_fenced (r : str) :
  strip_fences (Py.strip (fenced r)) = Py.strip r.
Proof.
  rewrite strip_fenced. unfold strip_fences.
  replace (Py.startswith (fenced r) FENCE) with true
    by (symmetry; apply startswith_app).
  unfold fenced. rewrite sub_fence_open_json.
  destruct (strip_spec r) as (w1 & w2 & E & Hw1 & Hw2 & Hs & He).
  rewrite E at 1. cbn [app Py.lstrip]. 
  change (Py.isspace NEWLINE) with true. cbn iota.
  rewrite <- !app_assoc, lstrip_spaces by assumption.
  destruct (Py.strip r) as [|c u] eqn:Eu.
  - cbn [app]. rewrite lstrip_spaces by assumption.
    cbn [app Py.lstrip]. change (Py.isspace NEWLINE) with true. cbn iota.
    rewrite lstrip_fixed by reflexivity.
    apply (sub_fence_close [] []); reflexivity.
  - rewrite lstrip_fixed by exact Hs.
    change (w2 ++ NEWLINE :: FENCE) with (w2 ++ ([NEWLINE] ++ FENCE)).
    rewrite (app_assoc w2). apply sub_fence_close; [assumption|].
    rewrite forallb_app, Hw2. reflexivity.
Qed.

(** ** [json.loads] *)







(** White space in front of a document. *)
Lemma lex_from_ws (w s : str) (toks : list Json.token) :
  forallb Json.is_ws w = true ->
  Json.lex_from Json.MReady toks (w ++ s) = Json.lex_from Json.MReady toks s.
Proof.
  induction w as [|c w IH]; [reflexivity|].
  cbn [forallb app Json.lex_from Json.lex_step]. intros H.
  apply andb_true_iff in H as [Hc Hw].
  unfold Json.ready_step. rewrite Hc. now apply IH.
Qed.










(** The scanner only adds tokens. *)
Lemma lex_step_toks (m m' : Json.lmode) (toks toks' : list Json.token)
      (c : char) :
  Json.lex_step m toks c = Some (m', toks') ->
  exists t, toks' = t ++ toks.
Proof.
  assert (R : forall l l' x, Json.ready_step l c = Some (x, l') ->
                             exists t, l' = t ++ l).
  { intros l l' x. unfold Json.ready_step.
    repeat match goal with
           | |- context [if ?b then _ else _] => destruct b
           end; intros H; inversion H;
      solve [now exists [] | eexists [_]; reflexivity]. }
  assert (S : forall a l l' x, Json.str_step a l c = Some (x, l') ->
                               exists t, l' = t ++ l).
  { intros a l l' x. unfold Json.str_step.
    repeat match goal with
           | |- context [if ?b then _ else _] => destruct b
           end; intros H; inversion H;
      solve [now exists [] | eexists [_]; reflexivity]. }
  assert (E : forall a l l' x, Json.esc_step a l c = Some (x, l') ->
                               exists t, l' = t ++ l).
  { intros a l l' x. unfold Json.esc_step.
    repeat match goal with
           | |- context [if ?b then _ else _] => destruct b
           end; intros H; inversion H; now exists []. }
  intros H. destruct m; cbn [Json.lex_step] in H; eauto.
  - destruct (Json.hex_val c); [|discriminate].
    destruct k as [|[|k]]; inversion H; now exists [].
  - destruct (N.eqb c 92); [inversion H; now exists []|eauto].
  - destruct (N.eqb c 117); [inversion H; now exists []|eauto].
  - destruct expect as [|e rest]; [discriminate|].
    destruct (N.eqb c e); [|discriminate].
    destruct rest; inversion H; [eexists [_]; reflexivity|now exists []].
  - unfold Json.num_step in H.
    destruct ph;
      repeat match type of H with
             | context [if ?b then _ else _] => destruct b
             end; try discriminate;
      try (inversion H; now exists []).
    all: apply R in H as [t ->]; eexists (t ++ [_]);
      rewrite <- app_assoc; reflexivity.
Qed.

Lemma lex_from_toks (s : str) :
  forall m toks out,
    Json.lex_from m toks s = Some out ->
    exists new, out = rev toks ++ new.
Proof.
  induction s as [|c s IH]; intros m toks out H; cbn [Json.lex_from] in H.
  - destruct m; cbn [Json.lex_finish] in H; try discriminate.
    + inversion H. exists []. now rewrite app_nil_r.
    + destruct (Json.number_done ph); inversion H. cbn [rev]. eauto.
  - destruct (Json.lex_step m toks c) as [[m' toks']|] eqn:E; [|discriminate].
    apply lex_step_toks in E as [t ->].
    apply IH in H as [new ->]. rewrite rev_app_distr, <- app_assoc. eauto.
Qed.




Lemma loads_empty : Json.loads [] = None.
Proof. reflexivity. Qed.

(** ** The pipeline on particular shapes of input *)

Lemma no_backslash_no_command (cmds : list str) (text : str) :
  no_backslash text = true -> has_command_in cmds text = false.
Proof.
  intros H. unfold has_command_in.
  induction cmds as [|c cmds IH]; [reflexivity|].
  cbn [existsb]. rewrite IH, orb_false_r.
  destruct (occursb (BACKSLASH :: c) text) eqn:E; [|reflexivity].
  apply occursb_true in E as (a & b & ->).
  rewrite !no_backslash_app in H. cbn [app no_backslash forallb] in H.
  rewrite N.eqb_refl in H. cbn in H.
  now rewrite andb_false_r in H.
Qed.

Lemma plain_no_backslash (s : str) :
  forallb plain s = true -> no_backslash s = true.
Proof.
  unfold no_backslash. induction s as [|c s IH]; [reflexivity|].
  cbn [forallb]. intros H. apply andb_true_iff in H as [Hc Hs].
  rewrite (IH Hs), andb_true_r. unfold plain in Hc.
  repeat (apply andb_true_iff in Hc as [Hc ?]). assumption.
Qed.



Lemma strip_object_text (kvs : list (str * str)) :
  Py.strip (object_text kvs) = object_text kvs.
Proof.
  apply strip_fixed; [reflexivity|].
  unfold ends_nonspace, object_text. cbn [rev].
  rewrite rev_app_distr. reflexivity.
Qed.

Lemma strip_fences_brace (s : str) :
  strip_fences (LBRACE :: s) = LBRACE :: s.
Proof. reflexivity. Qed.

Lemma escape_id (text : str) : has_command text = false -> escape text = text.
Proof. apply escape_with_id, latex_commands_backslash_free. Qed.

Lemma extract_keyed_whole (p q r : str) :
  brace_free p = true -> brace_free q = true -> brace_free r = true ->
  extract (keyed_object p q r) = keyed_object p q r.
Proof.
  intros Hp Hq Hr.
  pose proof (extract_keyed_object [] p q r [] eq_refl Hp Hq Hr) as H.
  cbn [app] in H. now rewrite app_nil_r in H.
Qed.

Lemma escape_longer (text : str) :
  has_command text = true -> length text < length (escape text).
Proof. apply escape_with_longer, latex_commands_backslash_free. Qed.

Lemma has_command_escape (text : str) :
  has_command text = true -> has_command (escape text) = true.
Proof. apply has_command_in_escape, latex_commands_backslash_free. Qed.


Lemma lex_from_app (pre s : str) :
  forall m toks,
    Json.lex_from m toks (pre ++ s) =
    match lex_run m toks pre with
    | Some (m', toks') => Json.lex_from m' toks' s
    | None => None
    end.
Proof.
  induction pre as [|c pre IH]; intros m toks; [reflexivity|].
  cbn [app Json.lex_from lex_run].
  destruct (Json.lex_step m toks c) as [[m' toks']|]; [apply IH|reflexivity].
Qed.





Lemma no_keyed_object_without_brace (text : str) :
  forallb (fun c => negb (N.eqb c LBRACE)) text = true ->
  ~ has_keyed_object text.
Proof.
  intros H (pre & p & q & r & post & _ & _ & _ & ->).
  rewrite forallb_forall in H.
  specialize (H LBRACE). rewrite N.eqb_refl in H.
  assert (F : negb true = true); [|discriminate].
  apply H. apply in_or_app. right. unfold keyed_object. now left.
Qed.

Lemma extract_unmatched (text : str) :
  ~ has_keyed_object text -> extract text = text.
Proof.
  intros H.
  destruct (extract_cases text)
    as [[_ E]|(pre & p & q & r & post & Hp & Hq & Hr & E & _)];
    [assumption|].
  exfalso. apply H. now exists pre, p, q, r, post.
Qed.



Lemma escape_with_head (cmds : list str) :
  backslash_free cmds ->
  forall c s, exists y, escape_with cmds (c :: s) = c :: y.
Proof.
  induction 1 as [|d cmds Hd _ IH]; intros c s; [now exists s|].
  rewrite escape_with_cons by assumption. cbn [insert_bs].
  destruct (N.eqb_spec c BACKSLASH) as [->|]; cbn [andb];
    [destruct (Py.startswith s d)|]; apply IH.
Qed.

Lemma starts_escape_with (cmds words : list str) :
  backslash_free cmds -> backslash_free words ->
  forall y,
    existsb (fun w => Py.startswith (escape_with cmds y) w) words =
    existsb (fun w => Py.startswith y w) words.
Proof.
  intros Hc Hw. induction Hc as [|d cmds Hd _ IH]; intros y; [reflexivity|].
  rewrite escape_with_cons by assumption.
  now rewrite IH, starts_insert_bs.
Qed.






(** A fenced response and the response itself give the same candidate,
    unless the response opens with a fence of its own. *)
Lemma candidate_fenced (r : str) :
  Py.startswith (Py.strip r) FENCE = false ->
  candidate (fenced r) = candidate r.
Proof.
  intros H. unfold candidate. rewrite strip_fences_fenced.
  unfold strip_fences. now rewrite H.
Qed.

(** [keys_in_order] decides the order the pattern asks for. *)
Lemma keys_in_order_true (k1 k2 s : str) :
  keys_in_order k1 k2 s = true <->
  exists p q r, s = p ++ k1 ++ q ++ k2 ++ r.
Proof.
  induction s as [|c s IH].
  - cbn [keys_in_order]. rewrite orb_false_r. split.
    + destruct (Py.strip_prefix k1 []) as [rest|] eqn:E; [|discriminate].
      intros H. apply strip_prefix_Some in E.
      apply occursb_true in H as (q & r & ->). exists [], q, r. exact E.
    + intros (p & q & r & H). destruct p; [|discriminate].
      cbn [app] in H. rewrite H, strip_prefix_app.
      apply occursb_true. eauto.
  - cbn [keys_in_order]. rewrite orb_true_iff, IH. split.
    + intros [H|(p & q & r & ->)].
      * destruct (Py.strip_prefix k1 (c :: s)) as [rest|] eqn:E;
          [|discriminate].
        apply strip_prefix_Some in E.
        apply occursb_true in H as (q & r & ->). exists [], q, r. exact E.
      * now exists (c :: p), q, r.
    + intros (p & q & r & H). destruct p as [|x p]; cbn [app] in H.
      * left. rewrite H, strip_prefix_app. apply occursb_true. eauto.
      * right. inversion H. now exists p, q, r.
Qed.

Lemma first_brace_unique (pre pre' x x' : str) :
  forallb (fun c => negb (N.eqb c LBRACE)) pre = true ->
  forallb (fun c => negb (N.eqb c LBRACE)) x = true ->
  pre ++ LBRACE :: x = pre' ++ LBRACE :: x' -> pre = pre' /\ x = x'.
Proof.
  intros Hpre Hx. revert pre' Hpre.
  induction pre as [|c pre IH]; intros [|c' pre'] Hpre E; cbn [app] in E.
  - inversion E. auto.
  - exfalso. inversion E as [[Ec Ex]]. rewrite Ex in Hx.
    rewrite forallb_app in Hx. apply andb_true_iff in Hx as [_ Hx].
    cbn [forallb] in Hx. now rewrite N.eqb_refl in Hx.
  - exfalso. inversion E as [[Ec Ex]]. subst c. cbn [forallb] in Hpre.
    now rewrite N.eqb_refl in Hpre.
  - inversion E as [[Ec Ex]]. cbn [forallb] in Hpre.
    apply andb_true_iff in Hpre as [_ Hpre].
    destruct (IH pre' Hpre Ex) as [-> ->]. auto.
Qed.

Lemma brace_free_no_lbrace (s : str) :
  brace_free s = true -> forallb (fun c => negb (N.eqb c LBRACE)) s = true.
Proof.
  unfold brace_free. induction s as [|c s IH]; [reflexivity|].
  cbn [forallb]. intros H. apply andb_true_iff in H as [Hc Hs].
  rewrite (IH Hs), andb_true_r. unfold not_brace in Hc.
  apply negb_true_iff, orb_false_iff in Hc as [-> _]. reflexivity.
Qed.

(** The pattern matches nowhere when the only object of the text does not
    hold the keys in the pattern's order. *)
Lemma search_keys_out_of_order (pre body post : str) :
  forallb (fun c => negb (N.eqb c LBRACE)) pre = true ->
  brace_free body = true ->
  forallb (fun c => negb (N.eqb c LBRACE)) post = true ->
  keys_in_order KEY_PROBLEM KEY_SIGNATURE body = false ->
  Re.search json_pattern (pre ++ LBRACE :: body ++ RBRACE :: post) = None.
Proof.
  intros Hpre Hbody Hpost Hkeys. unfold Re.search.
  destruct (Re.search_from json_pattern 0 _) as [[i e]|] eqn:E; [|reflexivity].
  exfalso.
  apply search_from_Some in E as (pre' & suf & E & _ & H).
  apply json_pattern_sound in H as (p & q & r & post' & Hp & Hq & Hr & -> & _).
  rewrite keyed_object_app in E.
  apply first_brace_unique in E as [_ E]; [|assumption|].
  - apply run_unique with (p := not_brace) in E as (E & _ & _);
      try reflexivity; try assumption;
      [|now apply keyed_object_brace_free].
    assert (T : keys_in_order KEY_PROBLEM KEY_SIGNATURE body = true)
      by (apply keys_in_order_true; now exists p, q, r).
    congruence.
  - rewrite forallb_app. apply andb_true_iff. split.
    + now apply brace_free_no_lbrace.
    + exact Hpost.
Qed.

Lemma extract_no_match (text : str) :
  Re.search json_pattern text = None -> extract text = text.
Proof. unfold extract. now intros ->. Qed.

(** The match [re.search] returns is the first: no earlier offset has a
    match. *)
Lemma search_from_first (re : Re.regex) :
  forall s pos i e,
    Re.search_from re pos s = Some (i, e) ->
    forall a b, s = a ++ b -> pos + length a < i ->
      Re.match_here re (pos + length a) b = None.
Proof.
  induction s as [|c s IH]; intros pos i e H a b E L;
    cbn [Re.search_from] in H.
  - destruct (Re.match_here re pos []); [|discriminate].
    injection H as <- _. lia.
  - destruct (Re.match_here re pos (c :: s)) as [e'|] eqn:E0.
    + injection H as <- _. lia.
    + destruct a as [|x a]; cbn [app length] in *.
      * subst b. now rewrite Nat.add_0_r.
      * injection E as _ E. rewrite Nat.add_succ_r.
        rewrite Nat.add_succ_r in L. exact (IH (S pos) i e H a b E L).
Qed.

Lemma search_none_unmatched (text : str) :
  Re.search json_pattern text = None -> ~ has_keyed_object text.
Proof.
  unfold Re.search. intros Hn (pre & p & q & r & post & Hp & Hq & Hr & E).
  pose proof (search_from_None _ _ _ Hn pre _ E) as Hm.
  destruct (json_pattern_complete (0 + length pre) p q r post Hp Hq Hr)
    as [e He].
  congruence.
Qed.

(** Extraction keeps a text that has no substring of the pattern's shape,
    and cuts any other text down to the leftmost such substring. *)
Lemma extract_leftmost (text : str) :
  (~ has_keyed_object text /\ extract text = text) \/
  exists pre p q r post,
    brace_free p = true /\ brace_free q = true /\ brace_free r = true /\
    text = pre ++ keyed_object p q r ++ post /\
    extract text = keyed_object p q r /\
    forall pre' p' q' r' post',
      brace_free p' = true -> brace_free q' = true -> brace_free r' = true ->
      text = pre' ++ keyed_object p' q' r' ++ post' ->
      length pre <= length pre'.
Proof.
  destruct (Re.search json_pattern text) as [[i e]|] eqn:E.
  - right. unfold Re.search in E.
    apply search_from_Some in E as S.
    destruct S as (pre & suf & Et & Ei & H).
    apply json_pattern_sound in H as (p & q & r & post & Hp & Hq & Hr & Es & Ee).
    exists pre, p, q, r, post.
    split; [assumption|]. split; [assumption|]. split; [assumption|].
    split; [now rewrite Et, Es|].
    split.
    + unfold extract, Re.search. rewrite E. subst text suf i e.
      cbn [Nat.add]. apply group0_app.
    + intros pre' p' q' r' post' Hp' Hq' Hr' Et'.
      destruct (Nat.le_gt_cases (length pre) (length pre')) as [L|L];
        [exact L|exfalso].
      assert (L' : 0 + length pre' < i) by (subst i; exact L).
      pose proof (search_from_first _ _ _ _ _ E pre' _ Et' L') as Hm.
      destruct (json_pattern_complete (0 + length pre') p' q' r' post'
                  Hp' Hq' Hr') as [e' He'].
      congruence.
  - left. split; [now apply search_none_unmatched|now apply extract_no_match].
Qed.

(** ** The claims *)

(** C1, as amended.  On the spec's example, whose [problem] value holds an
    opening brace, the pattern of line 78 matches nowhere and extraction
    keeps the whole object.  In general extraction keeps a text that has no
    substring of the pattern's shape, and returns of any other text the
    leftmost substring that starts and ends with a brace, has no brace in
    between and holds the two quoted keys in order: there is no scan of
    brace depth or of quoted strings. *)
Theorem extract_brace_free_match :
  Re.search json_pattern brace_example = None /\
  extract brace_example = brace_example /\
  forall text,
    (~ has_keyed_object text /\ extract text = text) \/
    exists pre p q r post,
      brace_free p = true /\ brace_free q = true /\ brace_free r = true /\
      text = pre ++ keyed_object p q r ++ post /\
      extract text = keyed_object p q r /\
      forall pre' p' q' r' post',
        brace_free p' = true -> brace_free q' = true ->
        brace_free r' = true ->
        text = pre' ++ keyed_object p' q' r' ++ post' ->
        length pre <= length pre'.
Proof.
  split; [vm_compute; reflexivity|].
  split; [vm_compute; reflexivity|].
  exact extract_leftmost.
Qed.

(** C1, counterexample.  A closing brace inside the last string value ends
    the match: extraction returns the object cut after that brace, without
    its last four characters. *)
Lemma extract_cuts_at_inner_brace :
  extract closing_brace_example =
  firstn (length closing_brace_example - 4) closing_brace_example /\
  extract closing_brace_example <> closing_brace_example.
Proof.
  split; [vm_compute; reflexivity|].
  intros H. apply (f_equal (@length char)) in H. vm_compute in H. discriminate.
Qed.

(** C2.  A backslash in front of a name of [latex_commands] is doubled,
    as for [\le], [\ge], [\text{nums.length}], [\sum] and [\times], unless
    the text behind it begins with [leq] or [geq]: there the round for [le]
    (or [ge]) and the later round for [leq] (or [geq]) add a backslash
    each, and three backslashes come out.  An object with [\le] in a value
    is decoded; with [\leq] in its place [json.loads] raises. *)
Theorem escape_leq_three_backslashes :
  (forall a cmd r,
      In cmd latex_commands ->
      Py.startswith (cmd ++ r) (cp "leq") = false ->
      Py.startswith (cmd ++ r) (cp "geq") = false ->
      escape (a ++ BACKSLASH :: cmd ++ r) =
      escape a ++ BACKSLASH :: BACKSLASH :: cmd ++ escape r) /\
  (forall a r,
      escape (a ++ BACKSLASH :: cp "leq" ++ r) =
      escape a ++ BACKSLASH :: BACKSLASH :: BACKSLASH :: cp "leq" ++ escape r) /\
  (forall a r,
      escape (a ++ BACKSLASH :: cp "geq" ++ r) =
      escape a ++ BACKSLASH :: BACKSLASH :: BACKSLASH :: cp "geq" ++ escape r) /\
  escape (cp "\le") = cp "\\le" /\
  escape (cp "\ge") = cp "\\ge" /\
  escape (cp "\text{nums.length}") = cp "\\text{nums.length}" /\
  escape (cp "\sum") = cp "\\sum" /\
  escape (cp "\times") = cp "\\times" /\
  escape (cp "\leq") = cp "\\\leq" /\
  escape (cp "\geq") = cp "\\\geq" /\
  normalize (command_example (cp "le")) =
  Parsed (record [(cp "problem", cp "$n \le 5$");
                  (cp "func_signature", cp "f");
                  (cp "class_definitions", [])]) /\
  normalize (command_example (cp "leq")) = JSONDecodeError.
Proof.
  split; [|split; [|split]].
  - intros a cmd r Hin H1 H2.
    rewrite escape_at_backslash, (count_commands_name cmd r Hin), H1, H2.
    now rewrite (escape_name cmd r Hin).
  - intros a r.
    rewrite escape_at_backslash, (count_commands_name (cp "leq") r leq_listed).
    now rewrite (escape_name (cp "leq") r leq_listed).
  - intros a r.
    rewrite escape_at_backslash, (count_commands_name (cp "geq") r geq_listed).
    now rewrite (escape_name (cp "geq") r geq_listed).
  - repeat split; vm_compute; reflexivity.
Qed.

Lemma escape_leq_three_backslashes_witness :
  escape (cp "so " ++ BACKSLASH :: cp "sum" ++ cp "_{i}") =
  escape (cp "so ") ++ BACKSLASH :: BACKSLASH :: cp "sum" ++ escape (cp "_{i}").
Proof.
  apply (proj1 escape_leq_three_backslashes (cp "so ") (cp "sum") (cp "_{i}"));
    [repeat (try (left; reflexivity); right) | reflexivity | reflexivity].
Defined.

(** C3, as amended.  Escaping twice gives the same text as escaping once
    exactly when no backslash of the text is directly followed by a name
    of [latex_commands]; such a text is left as it is. *)
Theorem escape_twice_iff (text : str) :
  escape (escape text) = escape text <-> has_command text = false.
Proof.
  split.
  - intros E. destruct (has_command text) eqn:H; [exfalso|reflexivity].
    apply has_command_escape, escape_longer in H.
    apply Nat.lt_neq in H. apply H.
    symmetry. exact (f_equal (@length char) E).
  - intros H. exact (f_equal escape (escape_id text H)).
Qed.

(** C3, counterexample.  A second pass over [\\le] adds a third
    backslash. *)
Lemma escape_twice_differs :
  escape (escape (cp "\le")) = cp "\\\le" /\
  escape (escape (cp "\le")) <> escape (cp "\le").
Proof.
  split; [vm_compute; reflexivity|].
  intros H. vm_compute in H. discriminate.
Qed.

(** C4, as amended.  A backslash and the character [x] after it come out
    of the escaping as they went in, between the escaped text before and
    the escaped text after them, whenever [x] and the text after it do not
    begin with a name of [latex_commands] and, if [x] is a backslash
    itself, the text after it does not either.  This holds for every
    escaped double quote and every [\/], for [\n] and [\t] unless they
    begin [\ne], [\text], [\times] or [\theta], and for [\\] unless a
    name follows. *)
Theorem escape_keeps_json_escape (a r : str) (x : char) :
  starts_with_command (x :: r) = false ->
  N.eqb x BACKSLASH && starts_with_command r = false ->
  escape (a ++ BACKSLASH :: x :: r) = escape a ++ BACKSLASH :: x :: escape r.
Proof.
  intros H1 H2. pose proof latex_commands_backslash_free as B.
  unfold escape. rewrite escape_with_app_bs by assumption.
  rewrite (escape_with_bs latex_commands B (x :: r) H1).
  do 2 f_equal.
  destruct (N.eqb_spec x BACKSLASH) as [->|Hx].
  - now apply escape_with_bs.
  - apply (escape_with_plain latex_commands B [x] r).
    cbn [no_backslash forallb].
    destruct (N.eqb_spec x BACKSLASH); [congruence|reflexivity].
Qed.

Lemma escape_keeps_json_escape_witness :
  starts_with_command (cp "now") = false /\
  escape (cp "say \now") = escape (cp "say ") ++ cp "\n" ++ escape (cp "ow").
Proof.
  split; [reflexivity|].
  apply (escape_keeps_json_escape (cp "say ") (cp "ow") 110%N);
    reflexivity.
Defined.

(** C4, counterexample.  [\\le], a valid escape followed by a name, comes
    out as [\\\le], and the [\n] of [\next] gets a second backslash. *)
Lemma escape_changes_json_escape :
  escape ([] ++ BACKSLASH :: BACKSLASH :: cp "le") <>
  escape [] ++ BACKSLASH :: BACKSLASH :: escape (cp "le") /\
  escape ([] ++ BACKSLASH :: 110%N :: cp "ext") <>
  escape [] ++ BACKSLASH :: 110%N :: escape (cp "ext").
Proof.
  split; intros H; vm_compute in H; discriminate.
Qed.





(** C7.  The end-to-end example of the spec is decoded to its three
    fields, and [problem] holds the inequality with single backslashes. *)
Theorem end_to_end_example :
  normalize end_to_end_input =
  Parsed (record [(cp "problem", end_to_end_problem);
                  (cp "func_signature", cp "def f(nums: list) -> list:");
                  (cp "class_definitions", [])]) /\
  occursb (cp "$2 \le n \le 10^4$") end_to_end_problem = true /\
  occursb (cp "\\") end_to_end_problem = false.
Proof. repeat split; vm_compute; reflexivity. Qed.




(** C10, as amended.  Extraction has no failure of its own: text with no
    substring of the pattern's shape goes on unchanged.  An object of that
    shape after text without an opening brace is selected whatever else it
    holds, so [class_definitions] is not required.  The pattern matches
    nowhere in a text whose only object does not hold the quoted
    [problem] with the quoted [func_signature] somewhere behind it, as in
    an object with the two keys in the other order and nothing else. *)
Theorem extract_unmatched_text :
  (forall text, ~ has_keyed_object text -> extract text = text) /\
  (forall pre p q r post,
      forallb (fun c => negb (N.eqb c LBRACE)) pre = true ->
      brace_free p = true -> brace_free q = true -> brace_free r = true ->
      extract (pre ++ keyed_object p q r ++ post) = keyed_object p q r) /\
  occursb KEY_CLASSES (extract (object_text (two_keys (cp "p") (cp "f"))))
  = false /\
  (forall pre body post,
      forallb (fun c => negb (N.eqb c LBRACE)) pre = true ->
      brace_free body = true ->
      forallb (fun c => negb (N.eqb c LBRACE)) post = true ->
      keys_in_order KEY_PROBLEM KEY_SIGNATURE body = false ->
      Re.search json_pattern (pre ++ LBRACE :: body ++ RBRACE :: post) = None
      /\ extract (pre ++ LBRACE :: body ++ RBRACE :: post) =
         pre ++ LBRACE :: body ++ RBRACE :: post) /\
  Re.search json_pattern signature_first_example = None.
Proof.
  split; [exact extract_unmatched|].
  split; [exact extract_keyed_object|].
  split; [vm_compute; reflexivity|].
  split; [|vm_compute; reflexivity].
  intros pre body post Hpre Hbody Hpost Hkeys.
  pose proof (search_keys_out_of_order pre body post Hpre Hbody Hpost Hkeys)
    as H.
  split; [exact H|]. now apply extract_no_match.
Qed.

Lemma extract_unmatched_text_witness :
  extract (cp "no object here") = cp "no object here" /\
  extract (cp "so: " ++ keyed_object [] (cp ": 1, ") (cp ": 2") ++ cp " end")
  = keyed_object [] (cp ": 1, ") (cp ": 2") /\
  extract (cp "see " ++ LBRACE :: (KEY_SIGNATURE ++ cp ": 1, " ++ KEY_PROBLEM
                                   ++ cp ": 2") ++ RBRACE :: cp " ok")
  = cp "see " ++ LBRACE :: (KEY_SIGNATURE ++ cp ": 1, " ++ KEY_PROBLEM
                            ++ cp ": 2") ++ RBRACE :: cp " ok".
Proof.
  split; [|split].
  - apply (proj1 extract_unmatched_text).
    apply no_keyed_object_without_brace. reflexivity.
  - apply (proj1 (proj2 extract_unmatched_text)); reflexivity.
  - apply (proj1 (proj2 (proj2 (proj2 extract_unmatched_text))));
      reflexivity.
Defined.

(** C10, counterexample.  An object with [func_signature] in front of
    [problem] is selected when the quoted name [func_signature] comes once
    more behind [problem], before the closing brace. *)
Lemma extract_selects_signature_first :
  Py.startswith signature_twice_example (LBRACE :: KEY_SIGNATURE) = true /\
  keys_in_order KEY_SIGNATURE KEY_PROBLEM signature_twice_example = true /\
  extract (cp "see " ++ signature_twice_example ++ cp " ok") =
  signature_twice_example.
Proof. repeat split; vm_compute; reflexivity. Qed.

(** * Further properties of the script *)

(** ** Trimming *)

Lemma rstrip_spaces (s w : str) :
  forallb Py.isspace w = true -> Py.rstrip (s ++ w) = Py.rstrip s.
Proof.
  intros H. unfold Py.rstrip. rewrite rev_app_distr, lstrip_spaces; [easy|].
  rewrite forallb_forall in *. intros x Hx. apply H. now apply in_rev.
Qed.

Lemma lstrip_all_space (w : str) :
  forallb Py.isspace w = true -> Py.lstrip w = [].
Proof.
  intros H. rewrite <- (app_nil_r w). now rewrite lstrip_spaces.
Qed.

(** White space around a text that has none at its ends is what [strip]
    removes. *)
Lemma strip_unique (a u b : str) :
  forallb Py.isspace a = true -> forallb Py.isspace b = true ->
  starts_nonspace u = true -> ends_nonspace u = true ->
  Py.strip (a ++ u ++ b) = u.
Proof.
  intros Ha Hb Hs He. unfold Py.strip. rewrite lstrip_spaces by assumption.
  destruct u as [|c u].
  - cbn [app]. rewrite lstrip_all_space by assumption. reflexivity.
  - rewrite lstrip_fixed by exact Hs. rewrite rstrip_spaces by assumption.
    unfold Py.rstrip. rewrite lstrip_fixed by exact He. apply rev_involutive.
Qed.

Lemma strip_around (w1 raw w2 : str) :
  forallb Py.isspace w1 = true -> forallb Py.isspace w2 = true ->
  Py.strip (w1 ++ raw ++ w2) = Py.strip raw.
Proof.
  intros H1 H2.
  destruct (strip_spec raw) as (a & b & E & Ha & Hb & Hs & He).
  rewrite E at 1. rewrite <- !app_assoc, (app_assoc w1 a).
  apply strip_unique; try assumption; rewrite forallb_app;
    apply andb_true_iff; now split.
Qed.

(** X1.  White space in front of the reply and behind it does not change
    the outcome. *)
Theorem normalize_ignores_outer_space (w1 raw w2 : str) :
  forallb Py.isspace w1 = true -> forallb Py.isspace w2 = true ->
  normalize (w1 ++ raw ++ w2) = normalize raw.
Proof.
  intros H1 H2. unfold normalize, candidate. now rewrite strip_around.
Qed.

Lemma normalize_ignores_outer_space_witness :
  normalize (cp "  " ++ object_text (two_keys (cp "p") (cp "f"))
             ++ [NEWLINE; NEWLINE]) =
  normalize (object_text (two_keys (cp "p") (cp "f"))).
Proof.
  apply (normalize_ignores_outer_space
           (cp "  ") (object_text (two_keys (cp "p") (cp "f")))
           [NEWLINE; NEWLINE]); reflexivity.
Defined.

(** ** Extraction *)

(** X2.  Extraction is idempotent: what it returns, it returns unchanged
    when applied again. *)
Theorem extract_idempotent (text : str) :
  extract (extract text) = extract text.
Proof.
  destruct (extract_cases text)
    as [[_ E]|(pre & p & q & r & post & Hp & Hq & Hr & _ & E)]; rewrite E.
  - exact E.
  - now apply extract_keyed_whole.
Qed.

(** ** The escaping loop *)

Lemma insert_bs_others (cmd s : str) :
  filter not_backslash (insert_bs cmd s) = filter not_backslash s.
Proof.
  induction s as [|c s IH]; [reflexivity|].
  cbn [insert_bs]. unfold not_backslash at 2. 
  destruct (N.eqb_spec c BACKSLASH) as [->|Hc]; cbn [andb].
  - destruct (Py.startswith s cmd); cbn [filter]; unfold not_backslash at 1;
      rewrite ?N.eqb_refl; cbn [negb]; try (unfold not_backslash at 1;
      rewrite N.eqb_refl; cbn [negb]); exact IH.
  - cbn [filter]. unfold not_backslash at 1.
    destruct (N.eqb_spec c BACKSLASH); [congruence|]. cbn [negb].
    now rewrite IH.
Qed.

Lemma escape_with_others (cmds : list str) :
  backslash_free cmds ->
  forall text,
    filter not_backslash (escape_with cmds text) = filter not_backslash text.
Proof.
  induction 1 as [|d cmds Hd _ IH]; intros text; [reflexivity|].
  rewrite escape_with_cons by assumption. now rewrite IH, insert_bs_others.
Qed.

Lemma escape_length (text : str) : length text <= length (escape text).
Proof. apply escape_with_length, latex_commands_backslash_free. Qed.

(** X3.  The loop only adds backslashes: the other characters of the text
    come out as they went in, in the same order, and the text never gets
    shorter.  It leaves the text as it is exactly when no backslash is
    directly followed by a name of [latex_commands]. *)
Theorem escape_only_adds_backslashes (text : str) :
  filter not_backslash (escape text) = filter not_backslash text /\
  length text <= length (escape text) /\
  (escape text = text <-> has_command text = false).
Proof.
  split; [apply escape_with_others, latex_commands_backslash_free|].
  split; [apply escape_length|].
  split.
  - intros E. destruct (has_command text) eqn:H; [exfalso|reflexivity].
    apply escape_longer in H. apply Nat.lt_neq in H. apply H.
    symmetry. exact (f_equal (@length char) E).
  - apply escape_id.
Qed.

Lemma first_backslash (t : str) :
  no_backslash t = true \/
  exists x y, t = x ++ BACKSLASH :: y /\ no_backslash x = true.
Proof.
  induction t as [|c t [H|(x & y & -> & Hx)]].
  - now left.
  - destruct (N.eqb_spec c BACKSLASH) as [->|Hc].
    + right. now exists [], t.
    + left. cbn [no_backslash forallb].
      destruct (N.eqb_spec c BACKSLASH); [congruence|exact H].
  - destruct (N.eqb_spec c BACKSLASH) as [->|Hc].
    + right. now exists [], (x ++ BACKSLASH :: y).
    + right. exists (c :: x), y. split; [reflexivity|].
      cbn [no_backslash forallb].
      destruct (N.eqb_spec c BACKSLASH); [congruence|exact Hx].
Qed.

Lemma starts_with_command_bs (z : str) :
  starts_with_command (BACKSLASH :: z) = false.
Proof. reflexivity. Qed.

Lemma starts_with_command_escape (y : str) :
  starts_with_command (escape y) = starts_with_command y.
Proof.
  apply (starts_escape_with latex_commands latex_commands);
    apply latex_commands_backslash_free.
Qed.

Lemma count_commands_positive (y : str) :
  starts_with_command y = true -> 1 <= count_commands y.
Proof.
  unfold starts_with_command, count_commands, count_commands_in.
  induction latex_commands as [|c l IH]; [discriminate|].
  cbn [existsb filter]. destruct (Py.startswith y c); cbn [length orb].
  - intros _. lia.
  - exact IH.
Qed.

Lemma repeat_snoc (n : nat) :
  repeat BACKSLASH (S n) = repeat BACKSLASH n ++ [BACKSLASH].
Proof.
  induction n as [|n IH]; [reflexivity|].
  cbn [repeat app] in *. now rewrite <- IH.
Qed.

(** Behind a backslash that lies in a run of backslashes after
    backslash-free text, only backslashes follow in the run. *)
Lemma run_after_backslash (x a l : str) (n : nat) :
  no_backslash x = true ->
  x ++ repeat BACKSLASH n = a ++ BACKSLASH :: l ->
  forallb (fun c => N.eqb c BACKSLASH) l = true.
Proof.
  revert a. induction x as [|c x IH]; intros a Hx E.
  - cbn [app] in E. apply forallb_forall. intros d Hd.
    assert (Hin : In d (repeat BACKSLASH n))
      by (rewrite E; apply in_or_app; right; now right).
    apply repeat_spec in Hin. subst d. apply N.eqb_refl.
  - cbn [no_backslash forallb] in Hx. apply andb_true_iff in Hx as [Hc Hx].
    destruct a as [|d a]; cbn [app] in E; inversion E; subst.
    + rewrite N.eqb_refl in Hc. discriminate.
    + now apply (IH a).
Qed.

Lemma escape_after_plain (x t : str) :
  no_backslash x = true -> escape (x ++ t) = x ++ escape t.
Proof. apply escape_with_plain, latex_commands_backslash_free. Qed.

Lemma escape_no_backslash (t : str) :
  no_backslash t = true -> escape t = t.
Proof.
  intros H. apply escape_id. now apply no_backslash_no_command.
Qed.

Lemma escape_nil : escape [] = [].
Proof. reflexivity. Qed.

Lemma escape_with_backslash (cmds : list str) (y : str) :
  proper_names cmds ->
  escape_with cmds (BACKSLASH :: y) =
  repeat BACKSLASH (count_commands_in cmds y)
    ++ BACKSLASH :: escape_with cmds y.
Proof. intros H. exact (escape_with_run cmds H y 0). Qed.

Lemma escape_backslash (y : str) :
  escape (BACKSLASH :: y) =
  repeat BACKSLASH (count_commands y) ++ BACKSLASH :: escape y.
Proof. apply escape_with_backslash, latex_commands_proper. Qed.

Lemma escaped_name_has_backslash (n : nat) :
  forall text a y,
    length text <= n ->
    escape text = a ++ BACKSLASH :: y ->
    starts_with_command y = true ->
    exists a', a = a' ++ [BACKSLASH].
Proof.
  induction n as [|n IH]; intros text a y Hn E Hy.
  - destruct text; [|simpl in Hn; lia].
    rewrite escape_nil in E. destruct a; discriminate.
  - destruct (first_backslash text) as [H|(x & y0 & -> & Hx)].
    + exfalso. rewrite (escape_no_backslash text H) in E.
      rewrite E in H. unfold no_backslash in H. rewrite forallb_app in H.
      cbn [forallb] in H. rewrite N.eqb_refl in H. cbn [negb andb] in H.
      now rewrite andb_false_r in H.
    + rewrite escape_after_plain in E by assumption.
      rewrite escape_backslash in E.
      assert (Hc : starts_with_command (escape y0) = true ->
                   exists k, count_commands y0 = S k).
      { rewrite starts_with_command_escape. intros Hs.
        apply count_commands_positive in Hs.
        destruct (count_commands y0) as [|k]; [lia|eauto]. }
      assert (Hlen : length y0 <= n)
        by (rewrite length_app in Hn; cbn [length] in Hn; lia).
      specialize (IH y0).
      remember (escape y0) as e eqn:He. clear He.
      remember (count_commands y0) as m eqn:Hm. clear Hm.
      rewrite app_assoc in E.
      apply app_eq_app in E as [l [[E1 E2]|[E1 E2]]].
      * (* the backslash lies inside the run, or is its last one *)
        destruct l as [|c l]; cbn [app] in E2.
        -- injection E2 as E2. subst y. rewrite app_nil_r in E1. subst a.
           destruct (Hc Hy) as [k ->].
           rewrite repeat_snoc, app_assoc. eauto.
        -- injection E2 as <- E2. exfalso.
           pose proof (run_after_backslash x a l m Hx E1) as A.
           destruct l as [|d l]; cbn [app] in E2; subst y.
           ++ now rewrite starts_with_command_bs in Hy.
           ++ cbn [forallb] in A. apply andb_true_iff in A as [A _].
              apply N.eqb_eq in A. subst d.
              now rewrite starts_with_command_bs in Hy.
      * (* the backslash lies behind the run *)
        destruct l as [|c l]; cbn [app] in E2.
        -- injection E2 as E2. subst e. rewrite app_nil_r in E1. subst a.
           destruct (Hc Hy) as [k ->].
           rewrite repeat_snoc, app_assoc. eauto.
        -- injection E2 as <- E2.
           destruct (IH l y Hlen E2 Hy) as [a' ->].
           exists ((x ++ repeat BACKSLASH m) ++ BACKSLASH :: a').
           rewrite E1, <- !app_assoc. reflexivity.
Qed.

(** X4.  After the loop every backslash that is directly followed by a
    name of [latex_commands] has a backslash directly in front of it. *)
Theorem escaped_command_follows_backslash (text a y : str) :
  escape text = a ++ BACKSLASH :: y ->
  starts_with_command y = true ->
  exists a', a = a' ++ [BACKSLASH].
Proof. apply (escaped_name_has_backslash (length text)), Nat.le_refl. Qed.

Lemma escaped_command_follows_backslash_witness :
  exists a', cp "$n " ++ [BACKSLASH] = a' ++ [BACKSLASH].
Proof.
  apply (escaped_command_follows_backslash
           (cp "$n \le 5$") (cp "$n " ++ [BACKSLASH]) (cp "le 5$"));
    reflexivity.
Defined.

(** ** The fences *)

Lemma fence_char_space (w : str) :
  forallb Py.isspace w = true -> forallb fence_char w = true.
Proof.
  intros H. rewrite forallb_forall in *. intros c Hc.
  unfold fence_char. now rewrite (H c Hc).
Qed.

(** What the opening pattern matches: the fence, the tag if it is there,
    and white space. *)
Lemma fence_open_sound (pos : nat) (s : str) (e : nat) :
  Re.match_here fence_open pos s = Some e ->
  exists m rest,
    s = m ++ rest /\ e = pos + length m /\ m <> [] /\
    forallb fence_char m = true.
Proof.
  unfold fence_open. cbn [Re.match_here]. intros H.
  destruct (Nat.eqb pos 0); [|discriminate].
  destruct (Py.strip_prefix FENCE s) as [s1|] eqn:E1; [|discriminate].
  apply strip_prefix_Some in E1. subst s.
  assert (T : forall p t e',
             Re.star_greedy Py.isspace (fun (q : nat) (_ : str) => Some q)
               p t = Some e' ->
             exists w t', t = w ++ t' /\ forallb Py.isspace w = true /\
                          e' = p + length w).
  { intros p t e' Ht. apply star_greedy_sound in Ht as (w & t' & -> & Hw & Hk).
    simpl in Hk. inversion Hk. now exists w, t'. }
  assert (F : forall (tag w t' : str),
             forallb Py.isspace w = true ->
             forallb fence_char tag = true ->
             exists m rest,
               FENCE ++ tag ++ w ++ t' = m ++ rest /\
               pos + length FENCE + length tag + length w = pos + length m /\
               m <> [] /\ forallb fence_char m = true).
  { intros tag w t' Hw Ht. exists (FENCE ++ tag ++ w), t'.
    split; [now rewrite <- !app_assoc|].
    split; [rewrite !length_app; lia|].
    split; [discriminate|].
    rewrite !forallb_app, Ht, (fence_char_space w Hw). reflexivity. }
  destruct (Py.strip_prefix (cp "json") s1) as [s2|] eqn:E2.
  - apply strip_prefix_Some in E2. subst s1.
    destruct (Re.star_greedy Py.isspace (fun (q : nat) (_ : str) => Some q)
                (pos + length FENCE + length (cp "json")) s2) as [e1|] eqn:E3.
    + injection H as <-. apply T in E3 as (w & t' & -> & Hw & ->).
      now apply F.
    + apply T in H as (w & t' & E & Hw & ->). rewrite E.
      destruct (F [] w t' Hw eq_refl) as (m & rest & Em & El & Hm & Hf).
      exists m, rest. cbn [app length] in *. rewrite Nat.add_0_r in El.
      auto.
  - apply T in H as (w & t' & -> & Hw & ->).
    destruct (F [] w t' Hw eq_refl) as (m & rest & Em & El & Hm & Hf).
    exists m, rest. cbn [app length] in *. rewrite Nat.add_0_r in El.
    auto.
Qed.

(** The first [re.sub] removes a piece of fence characters from the
    front, or nothing. *)
Lemma sub_fence_open_cases (t : str) :
  exists m rest,
    t = m ++ rest /\ Re.sub fence_open [] t = rest /\
    forallb fence_char m = true.
Proof.
  unfold Re.sub.
  destruct (Re.match_here fence_open 0 t) as [e|] eqn:E.
  - apply fence_open_sound in E as H. destruct H as (m & rest & -> & -> & Hm & Hf).
    exists m, rest. split; [reflexivity|]. split; [|assumption].
    rewrite sub_from_match by assumption. cbn [app].
    apply sub_from_bol. destruct m; [congruence|simpl; lia].
  - exists [], t. split; [reflexivity|]. split; [|reflexivity].
    destruct t as [|c t]; cbn [Re.sub_from]; rewrite E; [reflexivity|].
    f_equal. apply sub_from_bol. lia.
Qed.

Lemma sub_fence_open_plain (s : str) :
  Py.strip_prefix (cp "json") s = None ->
  Re.sub fence_open [] (FENCE ++ s) = Py.lstrip s.
Proof.
  intros Hj. destruct (fence_open_match s 3) as (w & E & H).
  unfold Re.sub.
  assert (M : Re.match_here fence_open 0 ((FENCE ++ w) ++ Py.lstrip s) =
              Some (0 + length (FENCE ++ w))).
  { rewrite <- !app_assoc, <- E. unfold fence_open.
    cbn [Re.match_here Nat.eqb]. rewrite strip_prefix_app, Hj.
    cbn [Nat.add length FENCE cp map list_ascii_of_string].
    cbn [Re.match_here Nat.add] in H. rewrite H.
    rewrite !length_app. reflexivity. }
  rewrite E at 1. rewrite app_assoc.
  rewrite sub_from_match; [| discriminate | exact M].
  cbn [app]. apply sub_from_bol.
  rewrite !length_app. change (length FENCE) with 3. lia.
Qed.

(** A name is found at the head of a text or not, whatever follows a
    character that is not in the name. *)
Lemma strip_prefix_stop (c a y : str) (x : char) :
  forallb (fun d => negb (N.eqb d x)) c = true ->
  Py.strip_prefix c (a ++ x :: y) =
  match Py.strip_prefix c a with
  | Some r => Some (r ++ x :: y)
  | None => None
  end.
Proof.
  revert a. induction c as [|d c IH]; intros a Hc; [reflexivity|].
  cbn [forallb] in Hc. apply andb_true_iff in Hc as [Hd Hc].
  apply negb_true_iff in Hd.
  destruct a as [|z a]; cbn [app Py.strip_prefix].
  - now rewrite Hd.
  - destruct (N.eqb d z); [now apply IH|reflexivity].
Qed.

Lemma drop_json_tag_fence (s : str) :
  drop_json_tag (s ++ FENCE) = drop_json_tag s ++ FENCE.
Proof.
  unfold drop_json_tag.
  change FENCE with (BACKTICK :: [BACKTICK; BACKTICK]) at 1.
  rewrite strip_prefix_stop by reflexivity.
  now destruct (Py.strip_prefix (cp "json") s).
Qed.

Lemma sub_fence_open_any (s : str) :
  Re.sub fence_open [] (FENCE ++ s) = Py.lstrip (drop_json_tag s).
Proof.
  unfold drop_json_tag.
  destruct (Py.strip_prefix (cp "json") s) as [s'|] eqn:E.
  - apply strip_prefix_Some in E. subst s. apply sub_fence_open_json.
  - now apply sub_fence_open_plain.
Qed.

Lemma fence_close_sound_end (pos : nat) (s : str) (e : nat) :
  Re.match_here fence_close pos s = Some e ->
  exists w tail,
    s = (w ++ FENCE) ++ tail /\ forallb Py.isspace w = true /\
    Re.at_end tail = true /\ e = pos + length (w ++ FENCE).
Proof.
  unfold fence_close. cbn [Re.match_here]. intros H.
  apply star_greedy_sound in H as (w & s' & -> & Hw & H).
  cbn [Re.match_here] in H.
  destruct (Py.strip_prefix FENCE s') as [tail|] eqn:E; [|discriminate].
  apply strip_prefix_Some in E. subst s'.
  destruct (Re.at_end tail) eqn:Et; [|discriminate].
  injection H as <-.
  exists w, tail.
  split; [now rewrite <- app_assoc|].
  split; [assumption|]. split; [assumption|].
  rewrite !length_app. change (length FENCE) with 3. cbn [length]. lia.
Qed.

Lemma fence_close_tail (pos : nat) (tail : str) :
  Re.at_end tail = true -> Re.sub_from fence_close [] 0 pos tail = tail.
Proof.
  destruct tail as [|c [|d tail]]; try discriminate.
  - intros _. reflexivity.
  - cbn [Re.at_end]. intros H. apply N.eqb_eq in H. subst c. reflexivity.
Qed.

(** The second [re.sub] removes one piece of white space and a fence in
    front of the end of the text (or of its last newline), or nothing. *)
Lemma sub_fence_close_cases (t : str) :
  forall pos,
  exists u m tail,
    t = u ++ m ++ tail /\ Re.sub_from fence_close [] 0 pos t = u ++ tail /\
    forallb fence_char m = true /\ Re.at_end tail = true.
Proof.
  induction t as [|c t IH]; intros pos.
  - exists [], [], []. now repeat split.
  - destruct (Re.match_here fence_close pos (c :: t)) as [e|] eqn:E.
    + apply fence_close_sound_end in E as H.
      destruct H as (w & tail & Et & Hw & Htail & ->).
      exists [], (w ++ FENCE), tail.
      split; [exact Et|]. split; [|split; [|assumption]].
      * rewrite Et in *. rewrite sub_from_match;
          [| destruct w; discriminate | exact E].
        cbn [app]. now apply fence_close_tail.
      * rewrite forallb_app, (fence_char_space w Hw). reflexivity.
    + destruct (IH (S pos)) as (u & m & tail & Et & Hs & Hm & Htail).
      exists (c :: u), m, tail.
      split; [cbn [app]; now rewrite Et|].
      split; [|split; assumption].
      cbn [Re.sub_from]. rewrite E. cbn [app]. now rewrite Hs.
Qed.

Lemma ends_nonspace_app (a b : str) :
  b <> [] -> ends_nonspace b = true -> ends_nonspace (a ++ b) = true.
Proof.
  unfold ends_nonspace. rewrite rev_app_distr. intros Hb H.
  destruct (rev b) as [|x rb] eqn:E; [|exact H].
  apply (f_equal (@rev char)) in E. rewrite rev_involutive in E.
  now subst b.
Qed.

(** X5.  A text that opens and closes with a fence is unwrapped to the
    trimmed text between the fences; a tag [json] right behind the opening
    fence is dropped with it, any other tag stays in the text. *)
Theorem strip_fences_between (s : str) :
  strip_fences (Py.strip (FENCE ++ s ++ FENCE)) =
  Py.strip (drop_json_tag s).
Proof.
  assert (F : Py.strip (FENCE ++ s ++ FENCE) = FENCE ++ s ++ FENCE).
  { apply strip_fixed; [reflexivity|].
    rewrite app_assoc. now apply ends_nonspace_app. }
  rewrite F. unfold strip_fences.
  replace (Py.startswith (FENCE ++ s ++ FENCE) FENCE) with true
    by (symmetry; apply startswith_app).
  rewrite sub_fence_open_any, drop_json_tag_fence.
  destruct (strip_spec (drop_json_tag s)) as (w1 & w2 & E & Hw1 & Hw2 & Hs & He).
  rewrite E at 1. rewrite <- !app_assoc, lstrip_spaces by assumption.
  destruct (Py.strip (drop_json_tag s)) as [|c u] eqn:Eu.
  - cbn [app]. rewrite lstrip_spaces by assumption.
    rewrite lstrip_fixed by reflexivity.
    apply (sub_fence_close [] []); reflexivity.
  - rewrite lstrip_fixed by exact Hs.
    now apply sub_fence_close.
Qed.

(** ** What trimming and fence stripping leave alone *)

(** A run of characters of a class at the front of a text stops before
    the first character outside the class. *)
Lemma class_prefix (P : char -> bool) (c : char) (m : str) :
  forall rest a r,
    P c = false -> forallb P m = true ->
    m ++ rest = a ++ c :: r ->
    exists a', a = m ++ a' /\ rest = a' ++ c :: r.
Proof.
  induction m as [|x m IH]; intros rest a r Hc Hm E.
  - exists a. now split.
  - cbn [forallb] in Hm. apply andb_true_iff in Hm as [Hx Hm].
    destruct a as [|y a]; cbn [app] in E; injection E as -> E.
    + congruence.
    + destruct (IH rest a r Hc Hm E) as (a' & -> & ->).
      exists a'. now split.
Qed.

Lemma class_suffix (P : char -> bool) (c : char) (m u x post : str) :
  P c = false -> forallb P m = true ->
  u ++ m = x ++ c :: post ->
  exists post', post = post' ++ m /\ u = x ++ c :: post'.
Proof.
  intros Hc Hm E.
  apply (f_equal (@rev char)) in E.
  rewrite !rev_app_distr in E. cbn [rev] in E. rewrite <- app_assoc in E.
  cbn [app] in E.
  apply class_prefix with (P := P) in E as (a' & E1 & E2); try assumption.
  - exists (rev a'). split.
    + apply (f_equal (@rev char)) in E1.
      rewrite rev_involutive, rev_app_distr, rev_involutive in E1. exact E1.
    + apply (f_equal (@rev char)) in E2.
      rewrite rev_involutive, rev_app_distr in E2. cbn [rev] in E2.
      rewrite rev_involutive, <- app_assoc in E2. exact E2.
  - rewrite forallb_forall in *. intros y Hy. apply Hm. now apply in_rev.
Qed.

Lemma fence_char_lbrace : fence_char LBRACE = false.
Proof. reflexivity. Qed.

Lemma fence_char_rbrace : fence_char RBRACE = false.
Proof. reflexivity. Qed.

Lemma at_end_nonspace (u tail : str) :
  Re.at_end tail = true -> ends_nonspace (u ++ tail) = true ->
  u ++ tail <> [] -> tail = [].
Proof.
  destruct tail as [|c [|d tail]]; try discriminate; [reflexivity|].
  cbn [Re.at_end]. intros H. apply N.eqb_eq in H. subst c.
  unfold ends_nonspace. rewrite rev_app_distr. cbn. discriminate.
Qed.

(** The fence stage on a text that holds a pair of braces. *)
Lemma strip_fences_braced (pre mid post : str) :
  ends_nonspace (pre ++ LBRACE :: mid ++ RBRACE :: post) = true ->
  exists d1 pre' post' d2,
    pre = d1 ++ pre' /\ post = post' ++ d2 /\
    forallb fence_char d1 = true /\ forallb fence_char d2 = true /\
    strip_fences (pre ++ LBRACE :: mid ++ RBRACE :: post) =
    pre' ++ LBRACE :: mid ++ RBRACE :: post'.
Proof.
  intros He. unfold strip_fences.
  destruct (Py.startswith _ FENCE).
  2:{ exists [], pre, post, []. rewrite app_nil_r. now repeat split. }
  destruct (sub_fence_open_cases (pre ++ LBRACE :: mid ++ RBRACE :: post))
    as (m & rest & E & -> & Hm).
  symmetry in E.
  destruct (class_prefix fence_char LBRACE m rest pre _ fence_char_lbrace Hm E)
    as (pre' & -> & ->).
  unfold Re.sub.
  destruct (sub_fence_close_cases (pre' ++ LBRACE :: mid ++ RBRACE :: post) 0)
    as (u & m2 & tail & E2 & -> & Hm2 & Ht).
  assert (Hr : ends_nonspace (pre' ++ LBRACE :: mid ++ RBRACE :: post) = true).
  { rewrite <- app_assoc in He.
    apply ends_nonspace_suffix in He; [exact He|]. now destruct pre'. }
  assert (tail = []) as ->.
  { rewrite E2, app_assoc in Hr.
    apply at_end_nonspace in Hr; [assumption..|].
    rewrite <- app_assoc, <- E2. now destruct pre'. }
  rewrite !app_nil_r in *.
  change (pre' ++ LBRACE :: mid ++ RBRACE :: post)
    with (pre' ++ (LBRACE :: mid) ++ RBRACE :: post) in E2.
  rewrite app_assoc in E2. symmetry in E2.
  destruct (class_suffix fence_char RBRACE m2 u _ post fence_char_rbrace Hm2 E2)
    as (post' & -> & ->).
  exists m, pre', post', m2.
  split; [reflexivity|]. split; [reflexivity|].
  split; [assumption|]. split; [assumption|].
  now rewrite <- app_assoc.
Qed.

(** Trimming and the fence stage together. *)
Lemma trim_braced (pre mid post : str) :
  exists d1 pre' post' d2,
    pre = d1 ++ pre' /\ post = post' ++ d2 /\
    forallb fence_char d1 = true /\ forallb fence_char d2 = true /\
    strip_fences (Py.strip (pre ++ LBRACE :: mid ++ RBRACE :: post)) =
    pre' ++ LBRACE :: mid ++ RBRACE :: post'.
Proof.
  remember (pre ++ LBRACE :: mid ++ RBRACE :: post) as raw eqn:Eraw.
  destruct (strip_spec raw) as (w1 & w2 & E & Hw1 & Hw2 & _ & He).
  remember (Py.strip raw) as T eqn:ET. clear ET.
  rewrite Eraw in E. clear Eraw raw. symmetry in E.
  destruct (class_prefix Py.isspace LBRACE w1 _ pre _ eq_refl Hw1 E)
    as (p1 & -> & E1).
  change (p1 ++ LBRACE :: mid ++ RBRACE :: post)
    with (p1 ++ (LBRACE :: mid) ++ RBRACE :: post) in E1.
  rewrite app_assoc in E1.
  destruct (class_suffix Py.isspace RBRACE w2 _ _ post eq_refl Hw2 E1)
    as (q1 & -> & E2).
  rewrite <- app_assoc in E2. cbn [app] in E2. subst T.
  destruct (strip_fences_braced p1 mid q1 He)
    as (d1 & pre' & post' & d2 & -> & -> & Hd1 & Hd2 & ->).
  exists (w1 ++ d1), pre', post', (d2 ++ w2).
  split; [now rewrite app_assoc|]. split; [now rewrite app_assoc|].
  split; [rewrite forallb_app, (fence_char_space w1 Hw1), Hd1; reflexivity|].
  split; [rewrite forallb_app, (fence_char_space w2 Hw2), Hd2; reflexivity|].
  reflexivity.
Qed.

(** X6.  Trimming and fence stripping take characters away at the two
    ends of the text only, and never a brace or anything between a brace
    and a later closing brace: what goes is white space, backticks and
    letters of the tag [json]. *)
Theorem fences_keep_braced_text (pre mid post : str) :
  exists d1 pre' post' d2,
    pre = d1 ++ pre' /\ post = post' ++ d2 /\
    forallb fence_char d1 = true /\ forallb fence_char d2 = true /\
    strip_fences (Py.strip (pre ++ LBRACE :: mid ++ RBRACE :: post)) =
    pre' ++ LBRACE :: mid ++ RBRACE :: post'.
Proof. exact (trim_braced pre mid post). Qed.

(** ** Objects whose members are strings *)

Lemma members_text_cons (r : list (str * str)) :
  forall kv, members_text (kv :: r) = member_text kv ++ tail_text r.
Proof.
  induction r as [|x r IH]; intros kv.
  - cbn [members_text tail_text flat_map]. now rewrite app_nil_r.
  - change (members_text (kv :: x :: r))
      with (member_text kv ++ cp ", " ++ members_text (x :: r)).
    rewrite IH. cbn [tail_text flat_map]. now rewrite <- !app_assoc.
Qed.

Lemma tail_text_app (a b : list (str * str)) :
  tail_text (a ++ b) = tail_text a ++ tail_text b.
Proof. apply flat_map_app. Qed.

Lemma lex_run_app (a b : str) :
  forall m toks,
    lex_run m toks (a ++ b) =
    match lex_run m toks a with
    | Some (m', toks') => lex_run m' toks' b
    | None => None
    end.
Proof.
  induction a as [|c a IH]; intros m toks; [reflexivity|].
  cbn [app lex_run].
  destruct (Json.lex_step m toks c) as [[m' toks']|]; [apply IH|reflexivity].
Qed.

(** A text between quotes that the scanner reads as [v] is the string
    token [v]. *)
Lemma lex_from_quoted (w v rest : str) (toks : list Json.token) :
  (forall acc t, lex_run (Json.MStr acc) t w = Some (Json.MStr (rev v ++ acc), t)) ->
  Json.lex_from Json.MReady toks (quoted w ++ rest) =
  Json.lex_from Json.MReady (Json.TAtom (Json.JString v) :: toks) rest.
Proof.
  intros H. unfold quoted.
  cbn [app Json.lex_from Json.lex_step].
  change (Json.ready_step toks DQUOTE) with (Some (Json.MStr [], toks)).
  cbv iota beta. rewrite <- app_assoc, lex_from_app, H.
  cbn [app Json.lex_from Json.lex_step].
  change (Json.str_step ?a toks DQUOTE)
    with (Some (Json.MReady, Json.TAtom (Json.JString (rev a)) :: toks)).
  cbv iota beta. now rewrite app_nil_r, rev_involutive.
Qed.

(** A doubled backslash is read as one backslash, any other character of
    a string as itself. *)
Lemma lex_run_double_bs (v : str) :
  forall acc toks,
    forallb string_char v = true ->
    lex_run (Json.MStr acc) toks (double_bs v) =
    Some (Json.MStr (rev v ++ acc), toks).
Proof.
  induction v as [|c v IH]; intros acc toks H; [reflexivity|].
  cbn [forallb] in H. apply andb_true_iff in H as [Hc Hv].
  unfold double_bs. cbn [flat_map]. fold (double_bs v).
  cbn [rev]. rewrite <- app_assoc. cbn [app].
  destruct (N.eqb_spec c BACKSLASH) as [->|Hb].
  - cbn [app lex_run Json.lex_step].
    change (Json.str_step acc toks BACKSLASH) with (Some (Json.MEsc acc, toks)).
    cbv iota beta. cbn [Json.lex_step].
    change (Json.esc_step acc toks BACKSLASH)
      with (Some (Json.MStr (BACKSLASH :: acc), toks)).
    cbv iota beta. now apply IH.
  - cbn [app lex_run Json.lex_step].
    unfold string_char in Hc. apply andb_true_iff in Hc as [H1 H2].
    apply negb_true_iff in H1, H2. unfold Json.str_step.
    change 34%N with DQUOTE. change 92%N with BACKSLASH.
    rewrite H1, H2, (proj2 (N.eqb_neq c BACKSLASH)) by assumption.
    now apply IH.
Qed.

Lemma plain_string_char (s : str) :
  forallb plain s = true -> forallb string_char s = true.
Proof.
  intros H. rewrite forallb_forall in *. intros c Hc.
  specialize (H c Hc). unfold plain in H. unfold string_char.
  repeat (apply andb_true_iff in H as [H ?]).
  apply andb_true_iff. now split.
Qed.

Lemma double_bs_plain (s : str) : no_backslash s = true -> double_bs s = s.
Proof.
  unfold no_backslash, double_bs. induction s as [|c s IH]; [reflexivity|].
  cbn [forallb flat_map]. intros H. apply andb_true_iff in H as [Hc Hs].
  apply negb_true_iff in Hc. rewrite Hc, (IH Hs). reflexivity.
Qed.

Lemma double_bs_app (a b : str) :
  double_bs (a ++ b) = double_bs a ++ double_bs b.
Proof. apply flat_map_app. Qed.

Lemma lex_from_member (kv : str * str) (rest : str)
      (toks : list Json.token) :
  forallb plain (fst kv) = true -> forallb string_char (snd kv) = true ->
  Json.lex_from Json.MReady toks (member_text (escaped_member kv) ++ rest) =
  Json.lex_from Json.MReady (rev (member_tokens kv) ++ toks) rest.
Proof.
  destruct kv as [k v]. unfold member_text, escaped_member.
  cbn [fst snd]. intros Hk Hv.
  rewrite <- !app_assoc.
  rewrite (lex_from_quoted k k).
  2:{ intros acc t. rewrite <- (double_bs_plain k) at 1
        by now apply plain_no_backslash.
      apply lex_run_double_bs. now apply plain_string_char. }
  change (cp ": ") with [58; 32]%N. cbn [app Json.lex_from Json.lex_step].
  change (Json.ready_step (Json.TAtom (Json.JString k) :: toks) 58%N)
    with (Some (Json.MReady,
                Json.TColon :: Json.TAtom (Json.JString k) :: toks)).
  cbv iota beta. cbn [Json.lex_step].
  change (Json.ready_step
            (Json.TColon :: Json.TAtom (Json.JString k) :: toks) 32%N)
    with (Some (Json.MReady,
                Json.TColon :: Json.TAtom (Json.JString k) :: toks)).
  cbv iota beta.
  rewrite (lex_from_quoted (double_bs v) v); [reflexivity|].
  intros acc t. now apply lex_run_double_bs.
Qed.

Lemma latex_member_chars (kv : str * str) :
  latex_member kv = true ->
  forallb plain (fst kv) = true /\ forallb string_char (snd kv) = true /\
  single_commands (snd kv) = true.
Proof.
  unfold latex_member, latex_value. intros H.
  apply andb_true_iff in H as [Hk H]. apply andb_true_iff in H as [Hc Hs].
  auto.
Qed.

Lemma lex_from_tail (r : list (str * str)) :
  forall rest toks,
    forallb latex_member r = true ->
    Json.lex_from Json.MReady toks
      (tail_text (map escaped_member r) ++ rest) =
    Json.lex_from Json.MReady (rev (tail_tokens r) ++ toks) rest.
Proof.
  induction r as [|kv r IH]; intros rest toks H; [reflexivity|].
  cbn [forallb] in H. apply andb_true_iff in H as [Hkv Hr].
  apply latex_member_chars in Hkv as (Hk & Hv & _).
  cbn [map tail_text flat_map]. fold (tail_text (map escaped_member r)).
  change (cp ", ") with [44; 32]%N.
  repeat (rewrite <- ?app_assoc; cbn [app]).
  cbn [Json.lex_from Json.lex_step].
  change (Json.ready_step toks 44%N)
    with (Some (Json.MReady, Json.TComma :: toks)).
  cbv iota beta. cbn [Json.lex_step].
  change (Json.ready_step (Json.TComma :: toks) 32%N)
    with (Some (Json.MReady, Json.TComma :: toks)).
  cbv iota beta.
  rewrite lex_from_member, IH by assumption.
  cbn [tail_tokens flat_map]. fold (tail_tokens r).
  f_equal. change (Json.TComma :: member_tokens kv ++ tail_tokens r)
    with ((Json.TComma :: member_tokens kv) ++ tail_tokens r).
  rewrite rev_app_distr. cbn [rev]. now rewrite <- !app_assoc.
Qed.

Lemma lex_object_text (kv : str * str) (r : list (str * str)) :
  forallb latex_member (kv :: r) = true ->
  Json.lex (object_text (map escaped_member (kv :: r))) =
  Some (Json.TLBrace :: member_tokens kv ++ tail_tokens r ++ [Json.TRBrace]).
Proof.
  cbn [forallb]. intros H. apply andb_true_iff in H as [Hkv Hr].
  apply latex_member_chars in Hkv as (Hk & Hv & _).
  unfold Json.lex, object_text. cbn [map].
  rewrite members_text_cons, <- app_assoc.
  cbn [Json.lex_from Json.lex_step].
  change (Json.ready_step [] LBRACE) with (Some (Json.MReady, [Json.TLBrace])).
  cbv iota beta.
  rewrite lex_from_member, lex_from_tail by assumption.
  cbn [Json.lex_from Json.lex_step].
  change (Json.ready_step ?t RBRACE) with (Some (Json.MReady, Json.TRBrace :: t)).
  cbv iota beta. cbn [Json.lex_from Json.lex_finish]. f_equal.
  cbn [rev]. rewrite !rev_app_distr, !rev_involutive. cbn [rev app].
  now rewrite <- !app_assoc.
Qed.

Lemma parse_member (kv : str * str) (d : Json.dict) (st : list Json.frame)
      (rest : list Json.token) (m : Json.pmode) :
  m = Json.PObjectStart \/ m = Json.PKey ->
  Json.parse_from (m, Json.FObject d :: st) (member_tokens kv ++ rest) =
  Json.parse_from
    (Json.PAfter,
     Json.FObject (Json.dict_set d (fst kv) (Json.JString (snd kv))) :: st)
    rest.
Proof. intros [-> | ->]; reflexivity. Qed.

Lemma parse_tail (r : list (str * str)) :
  forall d st rest,
    Json.parse_from (Json.PAfter, Json.FObject d :: st)
                    (tail_tokens r ++ rest) =
    Json.parse_from (Json.PAfter, Json.FObject (members_dict d r) :: st) rest.
Proof.
  induction r as [|kv r IH]; intros d st rest; [reflexivity|].
  cbn [tail_tokens flat_map]. fold (tail_tokens r).
  rewrite <- app_assoc.
  change ((Json.TComma :: member_tokens kv) ++ tail_tokens r ++ rest)
    with (Json.TComma :: member_tokens kv ++ tail_tokens r ++ rest).
  cbn [Json.parse_from Json.parse_step].
  rewrite parse_member by now right.
  rewrite IH. reflexivity.
Qed.

(** [json.loads] on an object whose values have their backslashes
    doubled: the values come out with the backslashes as they were. *)
Lemma loads_escaped_object (kvs : list (str * str)) :
  forallb latex_member kvs = true ->
  Json.loads (object_text (map escaped_member kvs)) =
  Some (Json.JObject (members_dict [] kvs)).
Proof.
  destruct kvs as [|kv r]; [reflexivity|]. intros H.
  unfold Json.loads. rewrite lex_object_text by assumption.
  unfold Json.parse. cbn [Json.parse_from Json.parse_step Json.value_step].
  rewrite parse_member by now left.
  rewrite parse_tail. reflexivity.
Qed.

Lemma single_commands_plain (s : str) :
  no_backslash s = true -> single_commands s = true.
Proof.
  unfold no_backslash. induction s as [|c s IH]; [reflexivity|].
  cbn [forallb single_commands]. intros H.
  apply andb_true_iff in H as [Hc Hs]. now rewrite Hc, (IH Hs).
Qed.

Lemma plain_latex_member (kv : str * str) :
  plain_member kv = true -> latex_member kv = true.
Proof.
  unfold plain_member, latex_member, latex_value. intros H.
  apply andb_true_iff in H as [Hk Hv].
  rewrite Hk, (plain_string_char _ Hv).
  now rewrite (single_commands_plain _ (plain_no_backslash _ Hv)).
Qed.

Lemma escaped_plain_members (kvs : list (str * str)) :
  forallb plain_member kvs = true -> map escaped_member kvs = kvs.
Proof.
  induction kvs as [|[k v] kvs IH]; [reflexivity|].
  cbn [forallb map]. intros H. apply andb_true_iff in H as [Hkv Hr].
  rewrite (IH Hr). unfold escaped_member. cbn [fst snd].
  unfold plain_member in Hkv. apply andb_true_iff in Hkv as [_ Hv].
  cbn [snd] in Hv. now rewrite (double_bs_plain v (plain_no_backslash v Hv)).
Qed.

(** [json.loads] on an object of plain strings. *)
Lemma loads_object_text (kvs : list (str * str)) :
  forallb plain_member kvs = true ->
  Json.loads (object_text kvs) = Some (Json.JObject (members_dict [] kvs)).
Proof.
  intros H. rewrite <- (escaped_plain_members kvs H) at 1.
  apply loads_escaped_object.
  rewrite forallb_forall in *. intros kv Hkv.
  apply plain_latex_member. now apply H.
Qed.

(** The members' text holds characters of a class [P] that has the
    punctuation of an object, when the keys and the values do. *)
Lemma members_text_class (P : char -> bool) (kvs : list (str * str)) :
  P DQUOTE = true -> P 58%N = true -> P 44%N = true -> P 32%N = true ->
  forallb (fun kv => forallb P (fst kv) && forallb P (snd kv)) kvs = true ->
  forallb P (members_text kvs) = true.
Proof.
  intros Hq Hc Hm Hs.
  assert (M : forall kv, forallb P (fst kv) && forallb P (snd kv) = true ->
                         forallb P (member_text kv) = true).
  { intros [k v]. unfold member_text, quoted. cbn [fst snd].
    intros H. apply andb_true_iff in H as [Hk Hv].
    change (cp ": ") with [58; 32]%N.
    cbn [forallb app]. rewrite !forallb_app. cbn [forallb].
    rewrite !forallb_app. cbn [forallb].
    now rewrite Hk, Hv, Hq, Hc, Hs. }
  intros H. destruct kvs as [|kv r]; [reflexivity|].
  cbn [forallb] in H. apply andb_true_iff in H as [Hkv Hr].
  rewrite members_text_cons, forallb_app, (M kv Hkv). cbn [andb].
  induction r as [|x r IH]; [reflexivity|].
  cbn [forallb] in Hr. apply andb_true_iff in Hr as [Hx Hr].
  cbn [tail_text flat_map]. fold (tail_text r).
  change (cp ", ") with [44; 32]%N. cbn [app forallb].
  rewrite forallb_app, (M x Hx), (IH Hr), Hm, Hs. reflexivity.
Qed.

Lemma forallb_impl (P Q : char -> bool) (s : str) :
  (forall c, P c = true -> Q c = true) ->
  forallb P s = true -> forallb Q s = true.
Proof. intros I H. rewrite forallb_forall in *. auto. Qed.

Lemma plain_not_brace (c : char) : plain c = true -> not_brace c = true.
Proof.
  unfold plain. intros H. now apply andb_true_iff in H as [_ H].
Qed.

(** Where [problem] comes before [func_signature] and no member holds a
    brace, the object has the shape of the pattern of line 78. *)
Lemma keyed_members_shape (a b c : list (str * str)) (p f : str) :
  brace_free (members_text (keyed_members a p b f c)) = true ->
  exists P Q R,
    brace_free P = true /\ brace_free Q = true /\ brace_free R = true /\
    object_text (keyed_members a p b f c) = keyed_object P Q R.
Proof.
  intros B.
  assert (E : exists P,
             members_text (keyed_members a p b f c) =
             P ++ KEY_PROBLEM ++ (cp ": " ++ quoted p ++ tail_text b ++ cp ", ")
               ++ KEY_SIGNATURE ++ (cp ": " ++ quoted f ++ tail_text c)).
  { assert (T : tail_text ((cp "problem", p) :: b ++ (cp "func_signature", f) :: c)
                = cp ", " ++ KEY_PROBLEM ++
                  (cp ": " ++ quoted p ++ tail_text b ++ cp ", ")
                  ++ KEY_SIGNATURE ++ (cp ": " ++ quoted f ++ tail_text c)).
    { cbn [tail_text flat_map]. fold (tail_text (b ++ (cp "func_signature", f) :: c)).
      rewrite tail_text_app. cbn [tail_text flat_map]. fold (tail_text c).
      unfold member_text, KEY_PROBLEM, KEY_SIGNATURE. cbn [fst snd].
      now rewrite <- !app_assoc. }
    unfold keyed_members. destruct a as [|x a].
    - exists []. cbn [app]. rewrite members_text_cons.
      unfold member_text, KEY_PROBLEM, KEY_SIGNATURE. cbn [fst snd].
      rewrite tail_text_app. cbn [tail_text flat_map]. fold (tail_text c).
      unfold member_text, KEY_PROBLEM, KEY_SIGNATURE. cbn [fst snd].
      now rewrite <- !app_assoc.
    - exists (member_text x ++ tail_text a ++ cp ", ").
      cbn [app]. rewrite members_text_cons, tail_text_app, T.
      now rewrite <- !app_assoc. }
  destruct E as [P E]. rewrite E in B.
  rewrite brace_free_app in B. apply andb_true_iff in B as [BP B].
  rewrite brace_free_app in B. apply andb_true_iff in B as [_ B].
  rewrite brace_free_app in B. apply andb_true_iff in B as [BQ B].
  rewrite brace_free_app in B. apply andb_true_iff in B as [_ BR].
  exists P, (cp ": " ++ quoted p ++ tail_text b ++ cp ", "),
    (cp ": " ++ quoted f ++ tail_text c).
  split; [assumption|]. split; [assumption|]. split; [assumption|].
  unfold object_text, keyed_object. now rewrite E.
Qed.

(** *** The loop on LaTeX *)

(** A name is at the head of a text or not, whatever follows a character
    that is not in the name. *)
Lemma startswith_stop (cmd s t : str) (d : char) :
  forallb (fun c => negb (N.eqb c d)) cmd = true ->
  Py.startswith (s ++ d :: t) cmd = Py.startswith s cmd.
Proof.
  intros H. unfold Py.startswith. rewrite strip_prefix_stop by assumption.
  now destruct (Py.strip_prefix cmd s).
Qed.

Lemma count_commands_in_stop (cmds : list str) (s t : str) (d : char) :
  Forall (fun cmd => forallb (fun c => negb (N.eqb c d)) cmd = true) cmds ->
  count_commands_in cmds (s ++ d :: t) = count_commands_in cmds s.
Proof.
  unfold count_commands_in. induction 1 as [|cmd cmds Hc _ IH]; [reflexivity|].
  cbn [filter]. rewrite (startswith_stop _ _ _ _ Hc).
  destruct (Py.startswith s cmd); cbn [length]; now rewrite IH.
Qed.

Lemma count_commands_quote (s t : str) :
  count_commands (s ++ DQUOTE :: t) = count_commands s.
Proof.
  apply count_commands_in_stop. unfold latex_commands.
  repeat constructor.
Qed.

Lemma single_commands_app_plain (x t : str) :
  no_backslash x = true -> single_commands (x ++ t) = single_commands t.
Proof.
  unfold no_backslash. induction x as [|c x IH]; [reflexivity|].
  cbn [forallb app single_commands]. intros H.
  apply andb_true_iff in H as [Hc Hx]. now rewrite Hc, (IH Hx).
Qed.

Lemma single_commands_value (v t : str) :
  single_commands v = true ->
  single_commands (v ++ DQUOTE :: t) = single_commands t.
Proof.
  induction v as [|c v IH]; cbn [app single_commands]; intros H.
  - reflexivity.
  - apply andb_true_iff in H as [Hc Hv].
    now rewrite count_commands_quote, Hc, (IH Hv).
Qed.

Lemma single_commands_member (kv : str * str) (t : str) :
  latex_member kv = true ->
  single_commands (member_text kv ++ t) = single_commands t.
Proof.
  intros H. apply latex_member_chars in H as (Hk & _ & Hs).
  destruct kv as [k v]. cbn [fst snd] in *.
  unfold member_text, quoted. cbn [fst snd].
  change (cp ": ") with [58; 32]%N.
  repeat (rewrite <- ?app_assoc; cbn [app]).
  change (DQUOTE :: k ++ DQUOTE :: 58%N :: 32%N :: DQUOTE :: v ++ DQUOTE :: t)
    with ((DQUOTE :: k) ++ [DQUOTE; 58; 32; DQUOTE]%N ++ v ++ DQUOTE :: t).
  rewrite single_commands_app_plain.
  - change ([DQUOTE; 58; 32; DQUOTE]%N ++ v ++ DQUOTE :: t)
      with ([DQUOTE; 58; 32; DQUOTE]%N ++ (v ++ DQUOTE :: t)).
    rewrite single_commands_app_plain by reflexivity.
    now apply single_commands_value.
  - change (DQUOTE :: k) with ([DQUOTE] ++ k).
    now rewrite no_backslash_app, (plain_no_backslash k Hk).
Qed.

Lemma single_commands_tail (r : list (str * str)) (t : str) :
  forallb latex_member r = true ->
  single_commands (tail_text r ++ t) = single_commands t.
Proof.
  induction r as [|kv r IH]; [reflexivity|].
  cbn [forallb]. intros H. apply andb_true_iff in H as [Hkv Hr].
  cbn [tail_text flat_map]. fold (tail_text r).
  rewrite <- !app_assoc.
  rewrite single_commands_app_plain by reflexivity.
  rewrite single_commands_member by assumption. now apply IH.
Qed.

Lemma single_commands_object (kvs : list (str * str)) :
  forallb latex_member kvs = true ->
  single_commands (object_text kvs) = true.
Proof.
  destruct kvs as [|kv r]; [reflexivity|].
  cbn [forallb]. intros H. apply andb_true_iff in H as [Hkv Hr].
  unfold object_text. rewrite members_text_cons, <- app_assoc.
  change (LBRACE :: member_text kv ++ tail_text r ++ [RBRACE])
    with ([LBRACE] ++ member_text kv ++ tail_text r ++ [RBRACE]).
  rewrite single_commands_app_plain by reflexivity.
  rewrite single_commands_member, single_commands_tail by assumption.
  reflexivity.
Qed.

Lemma escape_double_backslash (s : str) :
  count_commands s = 1 -> escape s = double_bs s ->
  escape (BACKSLASH :: s) = double_bs (BACKSLASH :: s).
Proof.
  intros Hc IH. rewrite escape_backslash, Hc, IH. reflexivity.
Qed.

Lemma escape_double_other (c : char) (s : str) :
  c <> BACKSLASH -> escape s = double_bs s ->
  escape (c :: s) = double_bs (c :: s).
Proof.
  intros Hb IH.
  assert (P : no_backslash [c] = true).
  { cbn [no_backslash forallb].
    now rewrite (proj2 (N.eqb_neq c BACKSLASH) Hb). }
  change (c :: s) with ([c] ++ s).
  rewrite double_bs_app, <- IH, (double_bs_plain [c] P).
  now apply escape_after_plain.
Qed.

(** Where every backslash begins exactly one command, the loop doubles
    every backslash. *)
Lemma escape_double_bs (s : str) :
  single_commands s = true -> escape s = double_bs s.
Proof.
  induction s as [|c s IH]; [intros _; exact escape_nil|].
  cbn [single_commands]. intros H. apply andb_true_iff in H as [Hc Hs].
  specialize (IH Hs). apply orb_true_iff in Hc as [Hc|Hc].
  - apply negb_true_iff, N.eqb_neq in Hc. now apply escape_double_other.
  - apply Nat.eqb_eq in Hc.
    destruct (N.eqb_spec c BACKSLASH) as [->|Hb].
    + now apply escape_double_backslash.
    + now apply escape_double_other.
Qed.

Lemma double_bs_member (kv : str * str) :
  forallb plain (fst kv) = true ->
  double_bs (member_text kv) = member_text (escaped_member kv).
Proof.
  destruct kv as [k v]. unfold member_text, escaped_member, quoted.
  cbn [fst snd]. intros Hk.
  change (DQUOTE :: k ++ [DQUOTE]) with ([DQUOTE] ++ k ++ [DQUOTE]).
  change (DQUOTE :: v ++ [DQUOTE]) with ([DQUOTE] ++ v ++ [DQUOTE]).
  change (DQUOTE :: double_bs v ++ [DQUOTE])
    with ([DQUOTE] ++ double_bs v ++ [DQUOTE]).
  rewrite !double_bs_app.
  now rewrite (double_bs_plain k (plain_no_backslash k Hk)).
Qed.

Lemma double_bs_tail (r : list (str * str)) :
  forallb latex_member r = true ->
  double_bs (tail_text r) = tail_text (map escaped_member r).
Proof.
  induction r as [|kv r IH]; [reflexivity|].
  cbn [forallb]. intros H. apply andb_true_iff in H as [Hkv Hr].
  apply latex_member_chars in Hkv as (Hk & _ & _).
  cbn [map tail_text flat_map].
  fold (tail_text r). fold (tail_text (map escaped_member r)).
  rewrite !double_bs_app, double_bs_member, (IH Hr) by assumption.
  reflexivity.
Qed.

Lemma double_bs_object (kvs : list (str * str)) :
  forallb latex_member kvs = true ->
  double_bs (object_text kvs) = object_text (map escaped_member kvs).
Proof.
  destruct kvs as [|kv r]; [reflexivity|].
  cbn [forallb]. intros H. apply andb_true_iff in H as [Hkv Hr].
  apply latex_member_chars in Hkv as (Hk & _ & _).
  unfold object_text. cbn [map]. rewrite !members_text_cons.
  change (LBRACE :: (member_text kv ++ tail_text r) ++ [RBRACE])
    with ([LBRACE] ++ (member_text kv ++ tail_text r) ++ [RBRACE]).
  rewrite !double_bs_app, double_bs_member, double_bs_tail by assumption.
  reflexivity.
Qed.

(** The loop and [json.loads] on an object with LaTeX in its values: the
    decoded values are the values as they were written. *)
Lemma loads_escape_object (kvs : list (str * str)) :
  forallb latex_member kvs = true ->
  Json.loads (escape (object_text kvs)) =
  Some (Json.JObject (members_dict [] kvs)).
Proof.
  intros H.
  rewrite (escape_double_bs _ (single_commands_object kvs H)).
  rewrite double_bs_object by assumption.
  now apply loads_escaped_object.
Qed.

Lemma latex_members_brace_free (kvs : list (str * str)) :
  forallb latex_member kvs = true ->
  forallb (fun kv => brace_free (snd kv)) kvs = true ->
  brace_free (members_text kvs) = true.
Proof.
  intros H B. apply members_text_class; try reflexivity.
  rewrite forallb_forall in *. intros kv Hkv.
  specialize (H kv Hkv). specialize (B kv Hkv).
  apply latex_member_chars in H as (Hk & _ & _).
  apply andb_true_iff. split; [|exact B].
  exact (forallb_impl _ _ _ plain_not_brace Hk).
Qed.

(** Whatever stands around it, an object of strings in which [problem]
    comes before [func_signature] is what the five steps decode, LaTeX
    included. *)
Lemma normalize_wrapped_object (pre post : str)
        (a b c : list (str * str)) (p f : str) :
  forallb (fun ch => negb (N.eqb ch LBRACE)) pre = true ->
  forallb latex_member (keyed_members a p b f c) = true ->
  forallb (fun kv => brace_free (snd kv)) (keyed_members a p b f c) = true ->
  normalize (pre ++ object_text (keyed_members a p b f c) ++ post) =
  Parsed (Json.JObject (members_dict [] (keyed_members a p b f c))).
Proof.
  intros Hpre H B.
  pose proof (loads_escape_object _ H) as L.
  destruct (keyed_members_shape a b c p f (latex_members_brace_free _ H B))
    as (P & Q & R & HP & HQ & HR & E).
  remember (keyed_members a p b f c) as kvs eqn:Ek. clear Ek H B.
  unfold normalize, candidate.
  assert (T : exists pre' post',
             forallb (fun ch => negb (N.eqb ch LBRACE)) pre' = true /\
             strip_fences (Py.strip (pre ++ object_text kvs ++ post)) =
             pre' ++ keyed_object P Q R ++ post').
  { assert (O : forall x, object_text kvs ++ x =
                            LBRACE :: members_text kvs ++ RBRACE :: x).
    { intros x. unfold object_text. cbn [app]. now rewrite <- app_assoc. }
    rewrite <- E. setoid_rewrite O.
    destruct (trim_braced pre (members_text kvs) post)
      as (d1 & pre' & post' & d2 & -> & -> & _ & _ & ->).
    exists pre', post'. split; [|reflexivity].
    rewrite forallb_app in Hpre. now apply andb_true_iff in Hpre as [_ Hpre]. }
  destruct T as (pre' & post' & Hpre' & ->).
  rewrite extract_keyed_object by assumption.
  rewrite <- E, L. reflexivity.
Qed.

(** When the pattern of line 78 finds nothing in an object of strings,
    the five steps decode the whole object, bare or inside a fence. *)
Lemma normalize_unmatched_object (kvs : list (str * str)) :
  forallb latex_member kvs = true ->
  Re.search json_pattern (object_text kvs) = None ->
  normalize (object_text kvs) =
  Parsed (Json.JObject (members_dict [] kvs)) /\
  normalize (fenced (object_text kvs)) =
  Parsed (Json.JObject (members_dict [] kvs)).
Proof.
  intros H Hn.
  assert (N : normalize (object_text kvs) =
              Parsed (Json.JObject (members_dict [] kvs))).
  { unfold normalize, candidate.
    rewrite strip_object_text. unfold object_text at 1.
    rewrite strip_fences_brace. fold (object_text kvs).
    rewrite (extract_no_match _ Hn), (loads_escape_object _ H). reflexivity. }
  split; [exact N|].
  rewrite <- N. unfold normalize. rewrite candidate_fenced; [reflexivity|].
  now rewrite strip_object_text.
Qed.

(** ** The decoded value behind an opening brace *)

Lemma object_rooted_push (f : Json.frame) (stack : list Json.frame) :
  object_rooted stack = true -> object_rooted (f :: stack) = true.
Proof. destruct stack; [discriminate|auto]. Qed.

Lemma push_value_rooted (stack : list Json.frame) (v : Json.value)
      (st' : Json.pstate) :
  object_rooted stack = true ->
  Json.push_value stack v = Some st' -> object_state st' = true.
Proof.
  destruct stack as [|f st]; [discriminate|].
  destruct f, st; cbn; intros H E; try discriminate;
    injection E as <-; cbn; auto.
Qed.

Lemma value_step_rooted (stack : list Json.frame) (t : Json.token)
      (st' : Json.pstate) :
  object_rooted stack = true ->
  Json.value_step stack t = Some st' -> object_state st' = true.
Proof.
  intros H. destruct t; cbn [Json.value_step]; intros E; try discriminate.
  - injection E as <-. now apply object_rooted_push.
  - injection E as <-. now apply object_rooted_push.
  - now apply push_value_rooted in E.
Qed.

Lemma key_step_rooted (stack : list Json.frame) (t : Json.token)
      (st' : Json.pstate) :
  object_rooted stack = true ->
  Json.key_step stack t = Some st' -> object_state st' = true.
Proof.
  intros H. destruct t as [| | | | | |[]]; cbn [Json.key_step];
    try discriminate.
  destruct stack as [|[] st]; try discriminate.
  intros E. injection E as <-. destruct st; [reflexivity|exact H].
Qed.

Lemma close_array_rooted (stack : list Json.frame) (st' : Json.pstate) :
  object_rooted stack = true ->
  Json.close_array stack = Some st' -> object_state st' = true.
Proof.
  destruct stack as [|[] st]; try discriminate.
  destruct st as [|g st]; [discriminate|].
  intros H E. exact (push_value_rooted (g :: st) _ _ H E).
Qed.

Lemma close_object_rooted (stack : list Json.frame) (st' : Json.pstate) :
  object_rooted stack = true ->
  Json.close_object stack = Some st' -> object_state st' = true.
Proof.
  destruct stack as [|[] st]; try discriminate.
  destruct st as [|g st].
  - intros _ E. injection E as <-. reflexivity.
  - intros H E. exact (push_value_rooted (g :: st) _ _ H E).
Qed.

(** The parser stays inside the object it began with. *)
Lemma parse_step_object (st st' : Json.pstate) (t : Json.token) :
  object_state st = true ->
  Json.parse_step st t = Some st' -> object_state st' = true.
Proof.
  destruct st as [m stack]. unfold object_state at 1. cbn [fst snd].
  destruct m; cbn [Json.parse_step]; intros H E; try discriminate.
  - now apply value_step_rooted in E.
  - destruct t; try (now apply value_step_rooted in E).
    now apply close_array_rooted in E.
  - destruct t; try (now apply key_step_rooted in E).
    now apply close_object_rooted in E.
  - now apply key_step_rooted in E.
  - destruct t; try discriminate. injection E as <-. exact H.
  - destruct stack as [|[] st]; try discriminate;
      destruct t; try discriminate;
      try (injection E as <-; exact H).
    + now apply close_array_rooted in E.
    + now apply close_object_rooted in E.
Qed.

Lemma parse_from_object (toks : list Json.token) :
  forall st v,
    object_state st = true ->
    Json.parse_from st toks = Some v -> is_object v = true.
Proof.
  induction toks as [|t toks IH]; intros st v H E; cbn [Json.parse_from] in E.
  - unfold object_state in H. destruct (fst st); try discriminate.
    now injection E as <-.
  - destruct (Json.parse_step st t) as [st'|] eqn:Es; [|discriminate].
    apply (IH st'); [|assumption]. now apply parse_step_object in Es.
Qed.

(** [json.loads] of a text that opens with a brace returns a [dict] or
    raises. *)
Lemma loads_brace_object (s : str) (v : Json.value) :
  Json.loads (LBRACE :: s) = Some v -> is_object v = true.
Proof.
  unfold Json.loads, Json.lex. cbn [Json.lex_from Json.lex_step].
  change (Json.ready_step [] LBRACE) with (Some (Json.MReady, [Json.TLBrace])).
  cbv iota beta.
  destruct (Json.lex_from Json.MReady [Json.TLBrace] s) as [out|] eqn:E;
    [|discriminate].
  apply lex_from_toks in E as [new ->]. cbn [rev app].
  unfold Json.parse. cbn [Json.parse_from Json.parse_step Json.value_step].
  apply parse_from_object. reflexivity.
Qed.

(** A text with a substring of the pattern's shape is cut down to such a
    substring. *)
Lemma extract_has_keyed_object (text : str) :
  has_keyed_object text ->
  exists p q r, extract text = keyed_object p q r.
Proof.
  intros (pre & p & q & r & post & Hp & Hq & Hr & E).
  destruct (extract_cases text)
    as [[Hn _]|(pre' & p' & q' & r' & post' & _ & _ & _ & _ & ->)];
    [|eauto].
  exfalso. unfold Re.search in Hn.
  pose proof (search_from_None _ _ _ Hn pre _ E) as Hm.
  destruct (json_pattern_complete (0 + length pre) p q r post Hp Hq Hr)
    as [e He].
  congruence.
Qed.

Lemma has_keyed_object_trim (raw : str) :
  has_keyed_object raw -> has_keyed_object (strip_fences (Py.strip raw)).
Proof.
  intros (pre & p & q & r & post & Hp & Hq & Hr & ->).
  rewrite keyed_object_app.
  destruct (trim_braced pre (p ++ KEY_PROBLEM ++ q ++ KEY_SIGNATURE ++ r) post)
    as (d1 & pre' & post' & d2 & _ & _ & _ & _ & ->).
  exists pre', p, q, r, post'. rewrite keyed_object_app. auto.
Qed.

Lemma escape_head (c : char) (s : str) :
  exists y, escape (c :: s) = c :: y.
Proof. apply escape_with_head, latex_commands_backslash_free. Qed.

(** What is decoded from an extracted text that opens with a brace. *)
Lemma normalize_brace_object (raw t : str) (data : Json.value) :
  extract (strip_fences (Py.strip raw)) = LBRACE :: t ->
  normalize raw = Parsed data -> is_object data = true.
Proof.
  unfold normalize, candidate. intros ->.
  destruct (escape_head LBRACE t) as [y ->].
  destruct (Json.loads (LBRACE :: y)) as [v|] eqn:L; [|discriminate].
  intros E. injection E as <-. exact (loads_brace_object y v L).
Qed.

(** X9.  When the response holds a substring of the pattern's shape, the
    data the script decodes is always a [dict]: the regular expression
    hands [json.loads] a text that opens with a brace, which is decoded
    to an object or not at all. *)
Theorem extracted_data_is_object (raw : str) (data : Json.value) :
  has_keyed_object raw ->
  normalize raw = Parsed data ->
  exists members, data = Json.JObject members.
Proof.
  intros H E. apply has_keyed_object_trim in H.
  apply extract_has_keyed_object in H as (p & q & r & Hx).
  apply (normalize_brace_object _ _ _ Hx) in E.
  destruct data; try discriminate. eauto.
Qed.

Lemma extracted_data_is_object_witness :
  exists members,
    record (two_keys (cp "p") (cp "f")) = Json.JObject members.
Proof.
  apply (extracted_data_is_object (object_text (two_keys (cp "p") (cp "f")))).
  - exists [], [], (cp ": " ++ quoted (cp "p") ++ cp ", "),
      (cp ": " ++ quoted (cp "f")), [].
    repeat split; reflexivity.
  - reflexivity.
Defined.

(** ** The [dict] of an object with repeated keys *)

Lemma str_eqb_refl (a : str) : str_eqb a a = true.
Proof. now apply str_eqb_eq. Qed.

Lemma str_eqb_neq (a b : str) : a <> b -> str_eqb a b = false.
Proof.
  intros H. destruct (str_eqb a b) eqn:E; [|reflexivity].
  now apply str_eqb_eq in E.
Qed.

Lemma dict_get_set (d : Json.dict) (k k' : str) (v : Json.value) :
  Json.dict_get (Json.dict_set d k v) k' =
  if str_eqb k' k then Some v else Json.dict_get d k'.
Proof.
  induction d as [|[x w] d IH]; cbn [Json.dict_set Json.dict_get].
  - reflexivity.
  - destruct (str_eqb k x) eqn:Ekx; cbn [Json.dict_get].
    + apply str_eqb_eq in Ekx. subst x.
      now destruct (str_eqb k' k).
    + rewrite IH. destruct (str_eqb k' x) eqn:Ex; [|reflexivity].
      apply str_eqb_eq in Ex. subst x.
      destruct (str_eqb k' k) eqn:Ek; [|reflexivity].
      apply str_eqb_eq in Ek. subst k'.
      now rewrite str_eqb_refl in Ekx.
Qed.

Lemma members_dict_snoc (d : Json.dict) (kvs : list (str * str))
      (kv : str * str) :
  members_dict d (kvs ++ [kv]) =
  Json.dict_set (members_dict d kvs) (fst kv) (Json.JString (snd kv)).
Proof. unfold members_dict. now rewrite fold_left_app. Qed.

(** Reading a key gives the value of its last occurrence. *)
Lemma members_dict_get (kvs : list (str * str)) (k : str) :
  Json.dict_get (members_dict [] kvs) k =
  option_map (fun kv => Json.JString (snd kv))
             (find (fun kv => str_eqb k (fst kv)) (rev kvs)).
Proof.
  induction kvs as [|kv kvs IH] using rev_ind; [reflexivity|].
  rewrite members_dict_snoc, dict_get_set, rev_app_distr.
  cbn [rev app find]. destruct (str_eqb k (fst kv)); [reflexivity|exact IH].
Qed.

Lemma dict_set_fresh (d : Json.dict) (k : str) (v : Json.value) :
  ~ In k (map fst d) -> Json.dict_set d k v = d ++ [(k, v)].
Proof.
  induction d as [|[x w] d IH]; cbn [Json.dict_set map fst In app];
    intros H; [reflexivity|].
  rewrite str_eqb_neq by (intros ->; apply H; now left).
  rewrite IH; [reflexivity|]. intros Hin. apply H. now right.
Qed.

(** Members with distinct keys are kept as they come. *)
Lemma members_dict_distinct (kvs : list (str * str)) :
  forall d,
    NoDup (map fst d ++ map fst kvs) ->
    members_dict d kvs =
    d ++ map (fun kv => (fst kv, Json.JString (snd kv))) kvs.
Proof.
  induction kvs as [|[k v] kvs IH]; intros d H.
  - cbn [members_dict fold_left map]. now rewrite app_nil_r.
  - cbn [map fst] in H.
    change (members_dict d ((k, v) :: kvs))
      with (members_dict (Json.dict_set d k (Json.JString v)) kvs).
    assert (Hk : ~ In k (map fst d)).
    { apply NoDup_remove_2 in H. intros Hin. apply H.
      apply in_or_app. now left. }
    rewrite dict_set_fresh by assumption.
    rewrite IH.
    + cbn [map fst snd]. now rewrite <- app_assoc.
    + rewrite map_app. cbn [map fst]. rewrite <- app_assoc. exact H.
Qed.

(** X10.  An object of plain strings is decoded member by member into a
    [dict]: reading a key gives the value of its last occurrence in the
    text, and when no key comes twice the members are those of the text,
    in its order. *)
Theorem loads_object_members (kvs : list (str * str)) :
  forallb plain_member kvs = true ->
  (exists members,
     Json.loads (object_text kvs) = Some (Json.JObject members) /\
     forall k,
       Json.dict_get members k =
       option_map (fun kv => Json.JString (snd kv))
                  (find (fun kv => str_eqb k (fst kv)) (rev kvs))) /\
  (NoDup (map fst kvs) -> Json.loads (object_text kvs) = Some (record kvs)).
Proof.
  intros H. split.
  - exists (members_dict [] kvs). split; [now apply loads_object_text|].
    intros k. apply members_dict_get.
  - intros Hn. rewrite loads_object_text by assumption.
    unfold record. now rewrite (members_dict_distinct kvs []).
Qed.

Lemma loads_object_members_witness :
  (exists members,
     Json.loads (object_text (two_keys (cp "p") (cp "f"))) =
     Some (Json.JObject members) /\
     forall k,
       Json.dict_get members k =
       option_map (fun kv => Json.JString (snd kv))
                  (find (fun kv => str_eqb k (fst kv))
                        (rev (two_keys (cp "p") (cp "f"))))) /\
  (NoDup (map fst (two_keys (cp "p") (cp "f"))) ->
   Json.loads (object_text (two_keys (cp "p") (cp "f"))) =
   Some (record (two_keys (cp "p") (cp "f")))).
Proof.
  apply (loads_object_members (two_keys (cp "p") (cp "f"))). reflexivity.
Defined.

(** ** [json.dumps] and back *)

Lemma below_spec (P : N -> bool) (n : nat) :
  forallb P (below n) = true ->
  forall x, (x < N.of_nat n)%N -> P x = true.
Proof.
  intros H x Hx. rewrite forallb_forall in H. apply H.
  unfold below. rewrite <- (N2Nat.id x). apply in_map, in_seq. lia.
Qed.

Lemma hex_val_digit (d : N) :
  (d < 16)%N -> Json.hex_val (Dump.hex_digit d) = Some d.
Proof.
  intros H.
  pose proof (below_spec
                (fun d => match Json.hex_val (Dump.hex_digit d) with
                          | Some h => N.eqb h d
                          | None => false
                          end) 16 eq_refl d H) as B.
  cbv beta in B. destruct (Json.hex_val (Dump.hex_digit d)); [|discriminate].
  apply N.eqb_eq in B. now subst.
Qed.

Lemma hex4_value (n : N) :
  (n < 65536)%N ->
  ((((0 * 16 + (n / 4096) mod 16) * 16 + (n / 256) mod 16) * 16
    + (n / 16) mod 16) * 16 + n mod 16 = n)%N.
Proof.
  intros H.
  assert (E0 : (n = 16 * (n / 16) + n mod 16)%N)
    by (apply N.div_mod; discriminate).
  assert (E1 : (n / 16 = 16 * (n / 256) + (n / 16) mod 16)%N).
  { change 256%N with (16 * 16)%N. rewrite <- N.Div0.div_div.
    apply N.div_mod. discriminate. }
  assert (E2 : (n / 256 = 16 * (n / 4096) + (n / 256) mod 16)%N).
  { change 4096%N with (256 * 16)%N. rewrite <- N.Div0.div_div.
    apply N.div_mod. discriminate. }
  assert (E3 : ((n / 4096) mod 16 = n / 4096)%N).
  { apply N.mod_small. apply N.Div0.div_lt_upper_bound. exact H. }
  lia.
Qed.

(** The four digits of an escape are read back as its number. *)
Lemma lex_run_hex4 (acc : str) (p : option char) (toks : list Json.token)
      (n : N) :
  (n < 65536)%N ->
  lex_run (Json.MHex acc p 4 0) toks (Dump.hex4 n) =
  Some (Json.hex_done acc p n, toks).
Proof.
  intros H. unfold Dump.hex4.
  do 4 (cbn [lex_run Json.lex_step];
        rewrite hex_val_digit by (apply N.mod_lt; discriminate);
        cbv iota beta).
  cbn [lex_run]. now rewrite hex4_value.
Qed.

Lemma lex_run_escape (acc : str) (toks : list Json.token) (n : N) :
  (n < 65536)%N ->
  lex_run (Json.MStr acc) toks (Dump.unicode_escape n) =
  Some (Json.hex_done acc None n, toks).
Proof. intros H. now apply lex_run_hex4. Qed.

Lemma lex_run_escape_low (acc : str) (hi : char) (toks : list Json.token)
      (n : N) :
  (n < 65536)%N ->
  lex_run (Json.MHigh acc hi) toks (Dump.unicode_escape n) =
  Some (Json.hex_done acc (Some hi) n, toks).
Proof. intros H. now apply lex_run_hex4. Qed.

(** The two halves of a surrogate pair, without the bit operations. *)
Lemma surrogate_high (n : N) :
  (n < 1048576)%N ->
  N.lor 55296 (N.land (N.shiftr n 10) 1023) = (55296 + n / 1024)%N.
Proof.
  intros H. rewrite N.shiftr_div_pow2.
  change (2 ^ 10)%N with 1024%N. change 1023%N with (N.ones 10).
  rewrite N.land_ones. change (2 ^ 10)%N with 1024%N.
  assert (L : (n / 1024 < 1024)%N)
    by (apply N.Div0.div_lt_upper_bound; exact H).
  rewrite N.mod_small by exact L.
  pose proof (below_spec (fun x => N.lor 55296 x =? 55296 + x)%N 1024) as B.
  apply N.eqb_eq, B; [vm_compute; reflexivity|exact L].
Qed.

Lemma surrogate_low (n : N) :
  N.lor 56320 (N.land n 1023) = (56320 + n mod 1024)%N.
Proof.
  change 1023%N with (N.ones 10). rewrite N.land_ones.
  change (2 ^ 10)%N with 1024%N.
  pose proof (below_spec (fun x => N.lor 56320 x =? 56320 + x)%N 1024) as B.
  apply N.eqb_eq, B; [vm_compute; reflexivity|].
  apply N.mod_lt. discriminate.
Qed.

(** What [json.dumps] writes for a character, [json.loads] reads as that
    character. *)
Lemma lex_run_encode_char (acc : str) (toks : list Json.token) (c : char) :
  scalar c = true ->
  lex_run (Json.MStr acc) toks (Dump.encode_char c) =
  Some (Json.MStr (c :: acc), toks).
Proof.
  unfold scalar. intros H. apply andb_true_iff in H as [Hmax Hs].
  apply N.leb_le in Hmax. apply negb_true_iff in Hs.
  unfold Dump.encode_char.
  destruct (N.eqb_spec c 34) as [->|N34]; [reflexivity|].
  destruct (N.eqb_spec c 92) as [->|N92]; [reflexivity|].
  destruct (N.eqb_spec c 10) as [->|_]; [reflexivity|].
  destruct (N.eqb_spec c 13) as [->|_]; [reflexivity|].
  destruct (N.eqb_spec c 9) as [->|_]; [reflexivity|].
  destruct (N.eqb_spec c 12) as [->|_]; [reflexivity|].
  destruct (N.eqb_spec c 8) as [->|_]; [reflexivity|].
  destruct ((32 <=? c) && (c <=? 126))%N eqn:Ep.
  { apply andb_true_iff in Ep as [E1 _]. apply N.leb_le in E1.
    cbn [lex_run Json.lex_step]. unfold Json.str_step.
    rewrite (proj2 (N.eqb_neq c 34)), (proj2 (N.eqb_neq c 92)) by assumption.
    now rewrite (proj2 (N.ltb_ge c 32)) by assumption. }
  destruct (N.ltb_spec c 65536) as [Hb|Hb].
  - rewrite lex_run_escape by assumption. unfold Json.hex_done, Json.is_high.
    destruct ((55296 <=? c) && (c <=? 56319))%N eqn:Eh; [|reflexivity].
    apply andb_true_iff in Eh as [E1 E2].
    apply N.leb_le in E1, E2.
    rewrite (proj2 (N.leb_le 55296 c)) in Hs by assumption.
    rewrite (proj2 (N.leb_le c 57343)) in Hs by lia. discriminate.
  - cbv zeta. rewrite surrogate_high, surrogate_low by lia.
    set (n := (c - 65536)%N).
    assert (Hn : (n < 1048576)%N) by (unfold n; lia).
    assert (Hq : (n / 1024 < 1024)%N)
      by (apply N.Div0.div_lt_upper_bound; exact Hn).
    assert (Hr : (n mod 1024 < 1024)%N) by (apply N.mod_lt; discriminate).
    assert (Hc : (65536 + (n / 1024 * 1024 + n mod 1024) = c)%N).
    { pose proof (N.div_mod n 1024 ltac:(discriminate)). unfold n in *. lia. }
    remember (n / 1024)%N as q eqn:Eq. remember (n mod 1024)%N as r eqn:Er.
    clear Eq Er.
    rewrite lex_run_app, lex_run_escape by lia.
    unfold Json.hex_done at 1. unfold Json.is_high.
    rewrite (proj2 (N.leb_le 55296 (55296 + q))) by lia.
    rewrite (proj2 (N.leb_le (55296 + q) 56319)) by lia.
    cbn [andb]. rewrite lex_run_escape_low by lia.
    unfold Json.hex_done, Json.is_low.
    rewrite (proj2 (N.leb_le 56320 (56320 + r))) by lia.
    rewrite (proj2 (N.leb_le (56320 + r) 57343)) by lia.
    cbn [andb]. unfold Json.join_surrogates.
    replace (55296 + q - 55296)%N with q by lia.
    replace (56320 + r - 56320)%N with r by lia.
    now rewrite Hc.
Qed.

Lemma lex_run_encoded (s : str) :
  forall acc toks,
    forallb scalar s = true ->
    lex_run (Json.MStr acc) toks (flat_map Dump.encode_char s) =
    Some (Json.MStr (rev s ++ acc), toks).
Proof.
  induction s as [|c s IH]; intros acc toks H; [reflexivity|].
  cbn [forallb] in H. apply andb_true_iff in H as [Hc Hs].
  cbn [flat_map]. rewrite lex_run_app, lex_run_encode_char by assumption.
  rewrite IH by assumption. cbn [rev]. now rewrite <- app_assoc.
Qed.

(** A string as [json.dumps] writes it is one token, the string. *)
Lemma lex_from_encoded (s rest : str) (toks : list Json.token) :
  forallb scalar s = true ->
  Json.lex_from Json.MReady toks (Dump.encode_string s ++ rest) =
  Json.lex_from Json.MReady (Json.TAtom (Json.JString s) :: toks) rest.
Proof.
  intros H. unfold Dump.encode_string, quoted.
  cbn [app Json.lex_from Json.lex_step].
  change (Json.ready_step toks DQUOTE) with (Some (Json.MStr [], toks)).
  cbv iota beta. rewrite <- app_assoc, lex_from_app.
  rewrite lex_run_encoded by assumption.
  cbn [app Json.lex_from Json.lex_step].
  change (Json.str_step ?a toks DQUOTE)
    with (Some (Json.MReady, Json.TAtom (Json.JString (rev a)) :: toks)).
  cbv iota beta. now rewrite app_nil_r, rev_involutive.
Qed.

Lemma join_cons (sep x : str) (r : list str) :
  Dump.join sep (x :: r) = x ++ flat_map (fun y => sep ++ y) r.
Proof.
  revert x. induction r as [|y r IH]; intros x.
  - cbn [Dump.join flat_map]. now rewrite app_nil_r.
  - change (Dump.join sep (x :: y :: r))
      with (x ++ sep ++ Dump.join sep (y :: r)).
    rewrite IH. cbn [flat_map]. now rewrite <- !app_assoc.
Qed.

(** What [json.dumps] prints for an object of strings. *)
Lemma dumps_record (kv : str * str) (r : list (str * str)) :
  Dump.dumps (record (kv :: r)) =
  Some (Dump.block LBRACE RBRACE 0 (map member_chunk (kv :: r))).
Proof.
  unfold Dump.dumps, record. cbn [map Dump.dumps_at].
  match goal with
  | |- context [match ?F (map ?f r) with _ => _ end] =>
      assert (C : forall l, F (map f l) = Some (map member_chunk l))
  end.
  { induction l as [|x l IH]; [reflexivity|].
    cbn [map fst snd Dump.dumps_at]. rewrite IH. reflexivity. }
  rewrite C. reflexivity.
Qed.

Lemma lex_from_member_chunk (kv : str * str) (rest : str)
      (toks : list Json.token) :
  scalar_member kv = true ->
  Json.lex_from Json.MReady toks (member_chunk kv ++ rest) =
  Json.lex_from Json.MReady (rev (member_tokens kv) ++ toks) rest.
Proof.
  destruct kv as [k v]. unfold scalar_member, member_chunk.
  cbn [fst snd]. intros H. apply andb_true_iff in H as [Hk Hv].
  rewrite <- !app_assoc, lex_from_encoded by assumption.
  change (cp ": ") with [58; 32]%N. cbn [app Json.lex_from Json.lex_step].
  change (Json.ready_step (Json.TAtom (Json.JString k) :: toks) 58%N)
    with (Some (Json.MReady,
                Json.TColon :: Json.TAtom (Json.JString k) :: toks)).
  cbv iota beta. cbn [Json.lex_step].
  change (Json.ready_step
            (Json.TColon :: Json.TAtom (Json.JString k) :: toks) 32%N)
    with (Some (Json.MReady,
                Json.TColon :: Json.TAtom (Json.JString k) :: toks)).
  cbv iota beta. now rewrite lex_from_encoded by assumption.
Qed.

Lemma lex_from_chunks (r : list (str * str)) :
  forall rest toks,
    forallb scalar_member r = true ->
    Json.lex_from Json.MReady toks
      (flat_map (fun y => (44%N :: Dump.newline_indent 1) ++ y)
                (map member_chunk r) ++ rest) =
    Json.lex_from Json.MReady (rev (tail_tokens r) ++ toks) rest.
Proof.
  induction r as [|kv r IH]; intros rest toks H; [reflexivity|].
  cbn [forallb] in H. apply andb_true_iff in H as [Hkv Hr].
  cbn [map flat_map]. rewrite <- !app_assoc.
  change (Dump.newline_indent 1) with [10; 32; 32]%N.
  cbn [app Json.lex_from Json.lex_step].
  change (Json.ready_step toks 44%N)
    with (Some (Json.MReady, Json.TComma :: toks)).
  cbv iota beta. cbn [Json.lex_step].
  change (Json.ready_step (Json.TComma :: toks) 10%N)
    with (Some (Json.MReady, Json.TComma :: toks)).
  cbv iota beta. cbn [Json.lex_step].
  change (Json.ready_step (Json.TComma :: toks) 32%N)
    with (Some (Json.MReady, Json.TComma :: toks)).
  cbv iota beta. cbn [Json.lex_step].
  change (Json.ready_step (Json.TComma :: toks) 32%N)
    with (Some (Json.MReady, Json.TComma :: toks)).
  cbv iota beta.
  rewrite lex_from_member_chunk by assumption.
  change [10; 32; 32]%N with (Dump.newline_indent 1).
  rewrite IH by assumption.
  cbn [tail_tokens flat_map]. fold (tail_tokens r).
  f_equal. change (Json.TComma :: member_tokens kv ++ tail_tokens r)
    with ((Json.TComma :: member_tokens kv) ++ tail_tokens r).
  rewrite rev_app_distr. cbn [rev]. now rewrite <- !app_assoc.
Qed.

Lemma lex_block (kv : str * str) (r : list (str * str)) :
  forallb scalar_member (kv :: r) = true ->
  Json.lex (Dump.block LBRACE RBRACE 0 (map member_chunk (kv :: r))) =
  Some (Json.TLBrace :: member_tokens kv ++ tail_tokens r ++ [Json.TRBrace]).
Proof.
  cbn [forallb]. intros H. apply andb_true_iff in H as [Hkv Hr].
  unfold Json.lex, Dump.block. cbn [map]. rewrite join_cons.
  change (Dump.newline_indent 1) with [10; 32; 32]%N at 1.
  change (Dump.newline_indent 0) with [10]%N.
  rewrite <- !app_assoc. cbn [app Json.lex_from Json.lex_step].
  change (Json.ready_step [] LBRACE) with (Some (Json.MReady, [Json.TLBrace])).
  cbv iota beta. cbn [Json.lex_step].
  change (Json.ready_step [Json.TLBrace] 10%N)
    with (Some (Json.MReady, [Json.TLBrace])).
  cbv iota beta. cbn [Json.lex_step].
  change (Json.ready_step [Json.TLBrace] 32%N)
    with (Some (Json.MReady, [Json.TLBrace])).
  cbv iota beta. cbn [Json.lex_step].
  change (Json.ready_step [Json.TLBrace] 32%N)
    with (Some (Json.MReady, [Json.TLBrace])).
  cbv iota beta.
  rewrite lex_from_member_chunk, lex_from_chunks by assumption.
  cbn [Json.lex_from Json.lex_step].
  change (Json.ready_step ?t 10%N) with (Some (Json.MReady, t)).
  cbv iota beta. cbn [Json.lex_step].
  change (Json.ready_step ?t RBRACE) with (Some (Json.MReady, Json.TRBrace :: t)).
  cbv iota beta. cbn [Json.lex_finish]. f_equal.
  cbn [rev]. rewrite !rev_app_distr, !rev_involutive. cbn [rev app].
  now rewrite <- !app_assoc.
Qed.

(** X11.  What line 97 prints for an object of strings is read back by
    [json.loads] as the same object: for members of well-formed text
    (quotes, backslashes, control characters and characters beyond ASCII
    included) with distinct keys, [json.dumps] with its indent returns a
    text, and decoding that text gives the object back. *)
Theorem dumps_loads_record (kvs : list (str * str)) :
  forallb scalar_member kvs = true ->
  NoDup (map fst kvs) ->
  exists printed,
    Dump.dumps (record kvs) = Some printed /\
    Json.loads printed = Some (record kvs).
Proof.
  intros H Hn. destruct kvs as [|kv r].
  - exists (cp "{}"). now split.
  - exists (Dump.block LBRACE RBRACE 0 (map member_chunk (kv :: r))).
    split; [apply dumps_record|].
    unfold Json.loads. rewrite lex_block by assumption.
    unfold Json.parse. cbn [Json.parse_from Json.parse_step Json.value_step].
    rewrite parse_member by now left.
    rewrite parse_tail. cbn [Json.parse_from Json.parse_step].
    cbn [Json.close_object Json.push_value fst]. f_equal.
    unfold record. f_equal.
    exact (members_dict_distinct (kv :: r) [] Hn).
Qed.

Lemma dumps_loads_record_witness :
  exists printed,
    Dump.dumps (record [(cp "problem", cp "$n \le 5$" ++ [NEWLINE; 233%N]);
                        (cp "func_signature", quoted (cp "f"))]) =
    Some printed /\
    Json.loads printed =
    Some (record [(cp "problem", cp "$n \le 5$" ++ [NEWLINE; 233%N]);
                  (cp "func_signature", quoted (cp "f"))]).
Proof.
  apply (dumps_loads_record
           [(cp "problem", cp "$n \le 5$" ++ [NEWLINE; 233%N]);
            (cp "func_signature", quoted (cp "f"))]).
  - reflexivity.
  - repeat constructor; cbn; intuition discriminate.
Defined.

(** ** What [json.dumps] prints is ASCII *)

Lemma hex_digit_ascii (d : N) :
  (d < 16)%N -> ascii_char (Dump.hex_digit d) = true.
Proof. apply (below_spec (fun d => ascii_char (Dump.hex_digit d)) 16 eq_refl). Qed.

Lemma unicode_escape_ascii (n : N) :
  forallb ascii_char (Dump.unicode_escape n) = true.
Proof.
  unfold Dump.unicode_escape, Dump.hex4. cbn [forallb].
  rewrite !hex_digit_ascii by (apply N.mod_lt; discriminate). reflexivity.
Qed.

Lemma encode_char_ascii (c : char) :
  forallb ascii_char (Dump.encode_char c) = true.
Proof.
  unfold Dump.encode_char.
  repeat match goal with
         | |- context [if N.eqb c ?k then _ else _] =>
             destruct (N.eqb c k); [reflexivity|]
         end.
  destruct ((32 <=? c) && (c <=? 126))%N eqn:E.
  - cbn [forallb]. unfold ascii_char. now rewrite E, orb_true_r.
  - destruct (c <? 65536)%N; [apply unicode_escape_ascii|].
    cbv zeta. rewrite forallb_app, !unicode_escape_ascii. reflexivity.
Qed.

Lemma encode_string_ascii (s : str) :
  forallb ascii_char (Dump.encode_string s) = true.
Proof.
  assert (F : forallb ascii_char (flat_map Dump.encode_char s) = true).
  { induction s as [|c s IH]; [reflexivity|].
    cbn [flat_map]. now rewrite forallb_app, encode_char_ascii, IH. }
  unfold Dump.encode_string, quoted.
  change (DQUOTE :: flat_map Dump.encode_char s ++ [DQUOTE])
    with ([DQUOTE] ++ flat_map Dump.encode_char s ++ [DQUOTE]).
  rewrite !forallb_app, F. reflexivity.
Qed.

Lemma uint_text_ascii (u : Decimal.uint) :
  forallb ascii_char (Dump.uint_text u) = true.
Proof. induction u; cbn [Dump.uint_text forallb]; auto. Qed.

Lemma int_text_ascii (z : Z) : forallb ascii_char (Dump.int_text z) = true.
Proof.
  unfold Dump.int_text. destruct (Z.to_int z); cbn [forallb];
    now rewrite uint_text_ascii.
Qed.

Lemma newline_indent_ascii (level : nat) :
  forallb ascii_char (Dump.newline_indent level) = true.
Proof.
  unfold Dump.newline_indent. cbn [forallb].
  change (ascii_char NEWLINE) with true. cbn [andb].
  induction (2 * level) as [|n IH]; [reflexivity|exact IH].
Qed.

Lemma join_ascii (sep : str) (chunks : list str) :
  forallb ascii_char sep = true ->
  Forall (fun x => forallb ascii_char x = true) chunks ->
  forallb ascii_char (Dump.join sep chunks) = true.
Proof.
  intros Hs H. destruct H as [|x r Hx Hr]; [reflexivity|].
  rewrite join_cons, forallb_app, Hx. cbn [andb].
  induction Hr as [|y r Hy _ IH]; [reflexivity|].
  cbn [flat_map]. now rewrite !forallb_app, Hs, Hy, IH.
Qed.

Lemma block_ascii (open close : char) (level : nat) (chunks : list str) :
  ascii_char open = true -> ascii_char close = true ->
  Forall (fun x => forallb ascii_char x = true) chunks ->
  forallb ascii_char (Dump.block open close level chunks) = true.
Proof.
  intros Ho Hc H. unfold Dump.block. cbn [forallb]. rewrite Ho.
  rewrite !forallb_app, !newline_indent_ascii, join_ascii; try assumption.
  - cbn [forallb]. now rewrite Hc.
  - cbn [forallb]. now rewrite newline_indent_ascii.
Qed.

Lemma chunk_ascii (k s : str) :
  forallb ascii_char s = true ->
  forallb ascii_char (Dump.encode_string k ++ cp ": " ++ s) = true.
Proof.
  intros H. now rewrite !forallb_app, encode_string_ascii, H.
Qed.

Lemma dumps_at_ascii :
  forall (v : Json.value) (level : nat) (s : str),
    Dump.dumps_at level v = Some s -> forallb ascii_char s = true.
Proof.
  fix IH 1. intros v level s. destruct v as [|b|z|l| | | |t|items|members];
    cbn [Dump.dumps_at].
  - intros E. injection E as <-. reflexivity.
  - destruct b; intros E; injection E as <-; reflexivity.
  - intros E. injection E as <-. apply int_text_ascii.
  - discriminate.
  - intros E. injection E as <-. reflexivity.
  - intros E. injection E as <-. reflexivity.
  - intros E. injection E as <-. reflexivity.
  - intros E. injection E as <-. apply encode_string_ascii.
  - destruct items as [|x items]; [intros E; injection E as <-; reflexivity|].
    match goal with
    | |- context [match ?F items with _ => _ end] =>
        assert (C : forall l chunks,
                   F l = Some chunks ->
                   Forall (fun x => forallb ascii_char x = true) chunks);
          [|destruct (Dump.dumps_at (S level) x) as [sx|] eqn:Ex;
            [|discriminate];
            destruct (F items) as [chunks|] eqn:Ec; [|discriminate]]
    end.
    { clear s. fix IHl 1. intros [|y l] chunks.
      - intros E. injection E as <-. constructor.
      - destruct (Dump.dumps_at (S level) y) as [sy|] eqn:Ey; [|discriminate].
        match goal with
        | |- match ?G with _ => _ end = _ -> _ =>
            destruct G as [r|] eqn:Er; [|discriminate]
        end.
        intros E. injection E as <-. constructor.
        + exact (IH y (S level) sy Ey).
        + exact (IHl l r Er). }
    cbn [option_map]. intros E. injection E as <-.
    apply block_ascii; try reflexivity. constructor.
    + exact (IH x (S level) sx Ex).
    + exact (C _ _ Ec).
  - destruct members as [|[k x] members];
      [intros E; injection E as <-; reflexivity|].
    match goal with
    | |- context [match ?F members with _ => _ end] =>
        assert (C : forall l chunks,
                   F l = Some chunks ->
                   Forall (fun x => forallb ascii_char x = true) chunks);
          [|destruct (Dump.dumps_at (S level) x) as [sx|] eqn:Ex;
            [|discriminate];
            destruct (F members) as [chunks|] eqn:Ec; [|discriminate]]
    end.
    { clear s. fix IHl 1. intros [|[j y] l] chunks.
      - intros E. injection E as <-. constructor.
      - destruct (Dump.dumps_at (S level) y) as [sy|] eqn:Ey; [|discriminate].
        match goal with
        | |- match ?G with _ => _ end = _ -> _ =>
            destruct G as [r|] eqn:Er; [|discriminate]
        end.
        intros E. injection E as <-. constructor.
        + exact (chunk_ascii j sy (IH y (S level) sy Ey)).
        + exact (IHl l r Er). }
    cbn [option_map]. intros E. injection E as <-.
    apply block_ascii; try reflexivity. constructor.
    + exact (chunk_ascii k sx (IH x (S level) sx Ex)).
    + exact (C _ _ Ec).
Qed.

(** X12.  Whatever the data, the text line 97 prints is plain ASCII:
    [json.dumps] writes quotes, backslashes and control characters as
    short escapes and every character beyond ASCII as [\uXXXX] escapes, so
    the text holds printable ASCII characters and newlines only. *)
Theorem dumps_is_ascii (data : Json.value) (printed : str) :
  Dump.dumps data = Some printed -> forallb ascii_char printed = true.
Proof. apply dumps_at_ascii. Qed.

Lemma dumps_is_ascii_witness :
  forallb ascii_char (quoted (BACKSLASH :: cp "u00e9" ++ BACKSLASH :: cp "n"))
  = true.
Proof.
  apply (dumps_is_ascii (Json.JString [233%N; NEWLINE])). reflexivity.
Defined.

(** * The [try] block with its prints *)

(** ** What the stages leave of the characters *)

Lemma forallb_firstn (P : char -> bool) (n : nat) (s : str) :
  forallb P s = true -> forallb P (firstn n s) = true.
Proof.
  intros H. rewrite <- (firstn_skipn n s), forallb_app in H.
  now apply andb_true_iff in H as [H _].
Qed.

Lemma forallb_skipn (P : char -> bool) (n : nat) (s : str) :
  forallb P s = true -> forallb P (skipn n s) = true.
Proof.
  intros H. rewrite <- (firstn_skipn n s), forallb_app in H.
  now apply andb_true_iff in H as [_ H].
Qed.

Lemma strip_forallb (P : char -> bool) (s : str) :
  forallb P s = true -> forallb P (Py.strip s) = true.
Proof.
  intros H. destruct (strip_spec s) as (w1 & w2 & E & _).
  rewrite E, !forallb_app in H.
  apply andb_true_iff in H as [_ H]. now apply andb_true_iff in H as [H _].
Qed.

Lemma sub_from_forallb (P : char -> bool) (re : Re.regex) (s : str) :
  forall skip pos,
    forallb P s = true -> forallb P (Re.sub_from re [] skip pos s) = true.
Proof.
  induction s as [|c s IH]; intros skip pos H.
  - destruct skip; cbn [Re.sub_from]; [|reflexivity].
    destruct (Re.match_here re pos []); reflexivity.
  - cbn [forallb] in H. apply andb_true_iff in H as [Hc Hs].
    destruct skip as [|k]; cbn [Re.sub_from app].
    + destruct (Re.match_here re pos (c :: s)) as [e|].
      * destruct (Nat.eqb e pos); cbn [forallb];
          rewrite ?Hc; cbn [andb]; now apply IH.
      * cbn [forallb]. rewrite Hc. cbn [andb]. now apply IH.
    + now apply IH.
Qed.

Lemma strip_fences_forallb (P : char -> bool) (s : str) :
  forallb P s = true -> forallb P (strip_fences s) = true.
Proof.
  intros H. unfold strip_fences, Re.sub.
  destruct (Py.startswith s FENCE); [|exact H].
  now do 2 apply sub_from_forallb.
Qed.

Lemma extract_forallb (P : char -> bool) (s : str) :
  forallb P s = true -> forallb P (extract s) = true.
Proof.
  intros H. unfold extract.
  destruct (Re.search json_pattern s) as [m|]; [|exact H].
  unfold Re.group0. now apply forallb_firstn, forallb_skipn.
Qed.

Lemma insert_bs_forallb (P : char -> bool) (cmd s : str) :
  forallb P s = true -> forallb P (insert_bs cmd s) = true.
Proof.
  induction s as [|c s IH]; [reflexivity|].
  cbn [forallb insert_bs]. intros H. apply andb_true_iff in H as [Hc Hs].
  destruct (N.eqb_spec c BACKSLASH) as [->|_]; cbn [andb].
  - destruct (Py.startswith s cmd); cbn [forallb];
      rewrite ?Hc; cbn [andb]; now apply IH.
  - cbn [forallb]. rewrite Hc. cbn [andb]. now apply IH.
Qed.

Lemma escape_with_forallb (P : char -> bool) (cmds : list str) :
  backslash_free cmds ->
  forall s, forallb P s = true -> forallb P (escape_with cmds s) = true.
Proof.
  induction 1 as [|d cmds Hd _ IH]; intros s H; [exact H|].
  rewrite escape_with_cons by assumption.
  now apply IH, insert_bs_forallb.
Qed.

Lemma escape_forallb (P : char -> bool) (s : str) :
  forallb P s = true -> forallb P (escape s) = true.
Proof. apply escape_with_forallb, latex_commands_backslash_free. Qed.

(** ** [print] *)

Lemma ascii_chars_spec (c : char) :
  ascii_char c = true -> In c ascii_chars.
Proof.
  unfold ascii_char, ascii_chars. intros H.
  apply orb_true_iff in H as [H|H].
  - apply N.eqb_eq in H. now left.
  - apply andb_true_iff in H as [H1 H2].
    apply N.leb_le in H1, H2. right.
    rewrite <- (N2Nat.id c). apply in_map, in_seq. lia.
Qed.

Lemma ascii_stdout_spec (enc : char -> bool) (s : str) :
  ascii_stdout enc = true -> forallb ascii_char s = true ->
  forallb enc s = true.
Proof.
  unfold ascii_stdout. intros He H. rewrite forallb_forall in *.
  intros c Hc. apply He, ascii_chars_spec. now apply H.
Qed.

Lemma print_ok_text (enc : char -> bool) (s : str) :
  ascii_stdout enc = true -> forallb enc s = true -> print_ok enc s = true.
Proof.
  intros He H. unfold print_ok. rewrite H. cbn [andb].
  pose proof (ascii_stdout_spec enc [NEWLINE] He eq_refl) as N.
  cbn [forallb] in N. now rewrite andb_true_r in N.
Qed.

Lemma print_ok_ascii (enc : char -> bool) (s : str) :
  ascii_stdout enc = true -> forallb ascii_char s = true ->
  print_ok enc s = true.
Proof.
  intros He H. apply print_ok_text; [assumption|].
  now apply ascii_stdout_spec.
Qed.

(** On a stream that takes ASCII and the characters of the response, no
    [print] raises: the block ends as the data path does. *)
Lemma script_normalize (enc : char -> bool) (raw : str) :
  ascii_stdout enc = true -> forallb enc raw = true ->
  script enc raw =
  match normalize raw with
  | Parsed data => succeeded data
  | JSONDecodeError => Some DecodeFailed
  end.
Proof.
  intros He H.
  pose proof (strip_forallb enc raw H) as H1.
  pose proof (extract_forallb enc _ (strip_fences_forallb enc _ H1)) as H2.
  pose proof (escape_forallb enc _ H2) as H3.
  unfold script, print, normalize, candidate.
  rewrite (print_ok_ascii enc (cp "Generating problem...") He eq_refl).
  rewrite (print_ok_ascii enc (cp "Raw response:") He eq_refl).
  rewrite (print_ok_text enc _ He H1).
  rewrite (print_ok_ascii enc RULE He eq_refl).
  cbv zeta.
  rewrite (print_ok_ascii enc (cp "Extracted JSON:") He eq_refl).
  rewrite (print_ok_text enc _ He H2).
  rewrite (print_ok_ascii enc (cp "After escaping backslashes:") He eq_refl).
  rewrite (print_ok_text enc _ He H3).
  destruct (Json.loads
              (escape (extract (strip_fences (Py.strip raw))))) as [data|];
    [|reflexivity].
  rewrite (print_ok_ascii enc (cp "Parsed successfully!") He eq_refl).
  unfold succeeded.
  destruct (Dump.dumps data) as [shown|] eqn:E; [|reflexivity].
  now rewrite (print_ok_ascii enc shown He (dumps_at_ascii _ _ _ E)).
Qed.

(** ** How a run that has decoded its data ends *)

Lemma dumps_string_dict (ms : Json.dict) :
  string_dict ms = true -> exists s, Dump.dumps (Json.JObject ms) = Some s.
Proof.
  destruct ms as [|[k x] r]; [intros _; eexists; reflexivity|].
  unfold string_dict. cbn [forallb snd]. intros H.
  apply andb_true_iff in H as [Hx Hr].
  destruct x; try discriminate.
  unfold Dump.dumps. cbn [Dump.dumps_at].
  match goal with
  | |- context [match ?F r with _ => _ end] =>
      assert (C : forall l,
                 forallb (fun kv => match snd kv with
                                    | Json.JString _ => true
                                    | _ => false
                                    end) l = true ->
                 exists chunks, F l = Some chunks)
  end.
  { induction l as [|[j y] l IH]; [intros _; eexists; reflexivity|].
    cbn [forallb snd]. intros H. apply andb_true_iff in H as [Hy Hl].
    destruct y; try discriminate. destruct (IH Hl) as [chunks E].
    cbn [Dump.dumps_at]. rewrite E. eexists. reflexivity. }
  destruct (C r Hr) as [chunks E]. rewrite E. eexists. reflexivity.
Qed.

Lemma succeeded_string_dict (ms : Json.dict) :
  string_dict ms = true ->
  succeeded (Json.JObject ms) = Some (Printed (Json.JObject ms)).
Proof.
  intros H. unfold succeeded.
  now destruct (dumps_string_dict ms H) as [s ->].
Qed.

Lemma dict_set_strings (d : Json.dict) (k v : str) :
  string_dict d = true ->
  string_dict (Json.dict_set d k (Json.JString v)) = true.
Proof.
  unfold string_dict. induction d as [|[j x] d IH]; [reflexivity|].
  cbn [forallb snd Json.dict_set]. intros H.
  apply andb_true_iff in H as [Hx Hd].
  destruct (str_eqb k j); cbn [forallb snd].
  - exact Hd.
  - now rewrite Hx, (IH Hd).
Qed.

Lemma members_dict_strings (kvs : list (str * str)) :
  forall d, string_dict d = true -> string_dict (members_dict d kvs) = true.
Proof.
  induction kvs as [|kv kvs IH]; intros d H; [exact H|].
  cbn [members_dict fold_left]. apply IH. now apply dict_set_strings.
Qed.

Lemma succeeded_members (kvs : list (str * str)) :
  succeeded (Json.JObject (members_dict [] kvs)) =
  Some (Printed (Json.JObject (members_dict [] kvs))).
Proof. apply succeeded_string_dict. now apply members_dict_strings. Qed.


Lemma script_parsed (enc : char -> bool) (raw : str) (data : Json.value) :
  ascii_stdout enc = true -> forallb enc raw = true ->
  normalize raw = Parsed data -> script enc raw = succeeded data.
Proof.
  intros He H N. rewrite script_normalize by assumption. now rewrite N.
Qed.








(** X7.  Whatever stands around it, an object of strings in which
    [problem] comes before [func_signature] is what the script decodes and
    prints, LaTeX included: when the keys are plain, the values hold no
    quote, control character or brace, and every backslash in them begins
    exactly one command of [latex_commands], the decoded values are the
    values as written, with their single backslashes.  No opening brace
    may come before the object; prose, fences and any text behind the
    object are dropped.  The standard output has to take ASCII and the
    characters of the response. *)
Theorem script_wrapped_object (enc : char -> bool) (pre post : str)
        (a b c : list (str * str)) (p f : str) :
  ascii_stdout enc = true ->
  forallb enc (pre ++ object_text (keyed_members a p b f c) ++ post) = true ->
  forallb (fun ch => negb (N.eqb ch LBRACE)) pre = true ->
  forallb latex_member (keyed_members a p b f c) = true ->
  forallb (fun kv => brace_free (snd kv)) (keyed_members a p b f c) = true ->
  script enc (pre ++ object_text (keyed_members a p b f c) ++ post) =
  Some (Printed (Json.JObject (members_dict [] (keyed_members a p b f c)))).
Proof.
  intros He H Hpre Hm Hb.
  rewrite <- succeeded_members. apply script_parsed; try assumption.
  now apply normalize_wrapped_object.
Qed.

Lemma script_wrapped_object_witness :
  script utf_8
    ((cp "Sure! " ++ FENCE ++ cp "json" ++ [NEWLINE]) ++
     object_text
       (keyed_members [(cp "title", cp "Pairs")]
                      (cp "Count pairs, $1 \le n \le 10^5$, in $O(n \cdot k)$")
                      [] (cp "def f(n: int) -> int:")
                      [(cp "title", cp "Sums")]) ++
     ([NEWLINE] ++ FENCE ++ cp " Hope this helps {}")) =
  Some (Printed (Json.JObject (members_dict []
       (keyed_members [(cp "title", cp "Pairs")]
                      (cp "Count pairs, $1 \le n \le 10^5$, in $O(n \cdot k)$")
                      [] (cp "def f(n: int) -> int:")
                      [(cp "title", cp "Sums")])))).
Proof.
  apply (script_wrapped_object utf_8
           (cp "Sure! " ++ FENCE ++ cp "json" ++ [NEWLINE])
           ([NEWLINE] ++ FENCE ++ cp " Hope this helps {}"));
    reflexivity.
Defined.

(** X8.  When the pattern of line 78 finds nothing in an object of
    strings (as it does when the [problem] text holds braces, like the
    prompt's own [\text{nums.length}]), the whole object goes on to the
    loop and to [json.loads], and is decoded and printed with its values
    as written, braces and single backslashes included; the same holds for
    the object inside a fence.  The standard output has to take ASCII and
    the characters of the object. *)
Theorem script_unmatched_object (enc : char -> bool)
        (kvs : list (str * str)) :
  ascii_stdout enc = true ->
  forallb enc (object_text kvs) = true ->
  forallb latex_member kvs = true ->
  Re.search json_pattern (object_text kvs) = None ->
  script enc (object_text kvs) =
  Some (Printed (Json.JObject (members_dict [] kvs))) /\
  script enc (fenced (object_text kvs)) =
  Some (Printed (Json.JObject (members_dict [] kvs))).
Proof.
  intros He H Hm Hn.
  destruct (normalize_unmatched_object kvs Hm Hn) as [N1 N2].
  rewrite <- succeeded_members.
  split; apply script_parsed; try assumption.
  unfold fenced. rewrite !forallb_app, H.
  now rewrite !(ascii_stdout_spec enc _ He).
Qed.

Lemma script_unmatched_object_witness :
  script utf_8
    (object_text
       [(cp "problem", cp "$2 \le \text{nums.length} \le 10^4$");
        (cp "func_signature", cp "def two_sum(nums, target):");
        (cp "class_definitions", [])]) =
  Some (Printed (Json.JObject (members_dict []
       [(cp "problem", cp "$2 \le \text{nums.length} \le 10^4$");
        (cp "func_signature", cp "def two_sum(nums, target):");
        (cp "class_definitions", [])]))) /\
  script utf_8
    (fenced
       (object_text
          [(cp "problem", cp "$2 \le \text{nums.length} \le 10^4$");
           (cp "func_signature", cp "def two_sum(nums, target):");
           (cp "class_definitions", [])])) =
  Some (Printed (Json.JObject (members_dict []
       [(cp "problem", cp "$2 \le \text{nums.length} \le 10^4$");
        (cp "func_signature", cp "def two_sum(nums, target):");
        (cp "class_definitions", [])]))).
Proof.
  apply (script_unmatched_object utf_8
           [(cp "problem", cp "$2 \le \text{nums.length} \le 10^4$");
            (cp "func_signature", cp "def two_sum(nums, target):");
            (cp "class_definitions", [])]); reflexivity.
Defined.

(** X14.  A response whose trimmed text holds a character the standard
    output cannot encode is never decoded: the [print] of line 70 raises,
    if none did before, and the [try] block ends in the [except] branch,
    whatever JSON the response holds. *)
Theorem script_unencodable_response (enc : char -> bool) (raw : str) :
  forallb enc (Py.strip raw) = false -> script enc raw = Some EncodeFailed.
Proof.
  intros H. unfold script, print.
  destruct (print_ok enc (cp "Generating problem...")); [|reflexivity].
  destruct (print_ok enc (cp "Raw response:")); [|reflexivity].
  unfold print_ok at 1. now rewrite H.
Qed.

Lemma script_unencodable_response_witness :
  script utf_8 (object_text (two_keys [55296%N] (cp "f")) ++ [NEWLINE]) =
  Some EncodeFailed.
Proof.
  apply (script_unencodable_response utf_8
           (object_text (two_keys [55296%N] (cp "f")) ++ [NEWLINE])).
  reflexivity.
Defined.

(** * The launcher *)

Lemma strip_nil_iff (s : str) :
  Py.strip s = [] <-> forallb Py.isspace s = true.
Proof.
  split; intros H.
  - destruct (strip_spec s) as (w1 & w2 & E & H1 & H2 & _).
    rewrite H in E. cbn [app] in E. rewrite E, forallb_app, H1, H2.
    reflexivity.
  - unfold Py.strip. now rewrite lstrip_all_space.
Qed.

(** X13.  The launcher leaves an existing [backend/.env] alone.  When the
    file is missing and the typed line is empty or white space only,
    nothing is written and the launcher exits with status 1.  Otherwise
    the key is the typed line without its leading and trailing white
    space, hence neither empty nor padded, and the launcher tries to
    write the one line [GOOGLE_API_KEY=<key>]: when the file cannot be
    opened (no [backend/] directory, say) nothing is written and the
    launcher stops with the [OSError]; when the encoding of the file
    lacks a character of the line the file is left empty and the launcher
    stops with the [UnicodeEncodeError]; else the file holds exactly that
    line and the launcher goes on. *)
Theorem env_file_key (can_open : bool) (file_enc : char -> bool)
        (line : str) :
  Run.written (Run.main_env true can_open file_enc (Some line)) = None /\
  (forallb Py.isspace line = true ->
   Run.written (Run.main_env false can_open file_enc (Some line)) = None /\
   Run.result (Run.main_env false can_open file_enc (Some line)) =
   Run.SystemExit 1) /\
  (forallb Py.isspace line = false ->
   exists w1 key w2,
     line = w1 ++ key ++ w2 /\
     forallb Py.isspace w1 = true /\ forallb Py.isspace w2 = true /\
     key <> [] /\ starts_nonspace key = true /\ ends_nonspace key = true /\
     (can_open = false ->
      Run.written (Run.main_env false can_open file_enc (Some line)) = None /\
      Run.result (Run.main_env false can_open file_enc (Some line)) =
      Run.OSError) /\
     (can_open = true ->
      forallb file_enc (cp "GOOGLE_API_KEY=" ++ key ++ [NEWLINE]) = false ->
      Run.written (Run.main_env false can_open file_enc (Some line)) =
      Some [] /\
      Run.result (Run.main_env false can_open file_enc (Some line)) =
      Run.UnicodeEncodeError) /\
     (can_open = true ->
      forallb file_enc (cp "GOOGLE_API_KEY=" ++ key ++ [NEWLINE]) = true ->
      Run.written (Run.main_env false can_open file_enc (Some line)) =
      Some (cp "GOOGLE_API_KEY=" ++ key ++ [NEWLINE]) /\
      Run.result (Run.main_env false can_open file_enc (Some line)) =
      Run.Continue)).
Proof.
  split; [reflexivity|]. unfold Run.main_env. split.
  - intros H. apply strip_nil_iff in H. now rewrite H.
  - intros H.
    destruct (strip_spec line) as (w1 & w2 & E & H1 & H2 & Hs & He).
    exists w1, (Py.strip line), w2.
    destruct (Py.strip line) as [|c key] eqn:Ek.
    + apply strip_nil_iff in Ek. congruence.
    + split; [assumption|]. split; [assumption|]. split; [assumption|].
      split; [discriminate|]. split; [assumption|]. split; [assumption|].
      unfold Run.write_text.
      split; [|split].
      * intros ->. now split.
      * intros -> F. rewrite F. now split.
      * intros -> F. rewrite F. now split.
Qed.
